(** * ChatSession: the per-connection chat routing engine

    A shallow embedding of [worker/src/ChatSession.ts]: the WebSocket
    message listener installed by [ChatSession.fetch], the router
    [generate] and the three backend adapters, together with the parts of
    the JavaScript platform they rely on (strings, JSON values,
    [JSON.parse], [JSON.stringify], property reads, truthiness,
    [ToString]).

    How the program is modelled:
    - a string is its list of UTF-16 code units; a JSON value is a tree; a
      value read from one may also be [undefined];
    - numbers are left to the engine (class [Engine]): the program only
      tests them for truthiness and prints them;
    - code that throws returns a [Completion]; code that also writes to
      the connection, logs, draws identifiers or calls a backend runs in
      the monad [M] over the state of the session;
    - the world outside (backends, identifiers, the client going away, what
      [send] does on a closed connection) is a record [World] that the
      program consults and never changes;
    - the listener is taken twice.  First with the answer to its call
      arriving before any other event ([onMessage], [run]): the one thing
      that can happen under it is that the client leaves while the call
      is pending.  Then in its two halves, before and after the [await]
      ([listener_begins], [listener_resumes]), with other messages and
      answers in between ([interleave]); the two agree where no messages
      overlap. *)

From Stdlib Require Import List NArith ZArith Arith Lia Bool String Ascii.
Import ListNotations.

Set Implicit Arguments.

(** ** JavaScript strings

    A JavaScript string is a sequence of UTF-16 code units.  Code units are
    kept as [N]; the functions below never do arithmetic on them, they only
    compare them and split them into hexadecimal digits. *)

Definition code_unit := N.
Definition jsstring := list code_unit.

Definition js (s : string) : jsstring :=
  map N_of_ascii (list_ascii_of_string s).

(** The quotation mark, which cannot be written inside a literal here. *)
Definition dq : jsstring := [34%N].

Fixpoint eqb_string (a b : jsstring) : bool :=
  match a, b with
  | [], [] => true
  | x :: a', y :: b' => N.eqb x y && eqb_string a' b'
  | _, _ => false
  end.

(** Decimal rendering of a natural number: what a template literal makes
    of an integer such as an HTTP status. *)
Fixpoint decimal_aux (fuel : nat) (n : N) (acc : jsstring) : jsstring :=
  match fuel with
  | O => acc
  | S fuel' =>
      let acc' := (48 + n mod 10)%N :: acc in
      if (n <? 10)%N then acc' else decimal_aux fuel' (n / 10)%N acc'
  end.

Definition decimal (n : N) : jsstring :=
  decimal_aux (S (N.to_nat (N.log2 n))) n [].

(** ** The engine

    What the program takes from the JavaScript engine without fixing it:
    the number type (IEEE doubles behind [StringToNumber],
    [Number::toString], ...) and the wording of the exceptions the engine
    itself raises. *)

Class Engine : Type := {
  num : Type;
  (** the Number denoted by a JSON number token *)
  StringToNumber : jsstring -> num;
  (** [ToBoolean] on a Number: false for zeros and NaN *)
  NumberToBoolean : num -> bool;
  (** [Number::toString] *)
  NumberToString : num -> jsstring;
  NumberIsFinite : num -> bool;
  (** message of the SyntaxError [JSON.parse] raises on a text *)
  JSONSyntaxErrorMessage : jsstring -> jsstring;
  (** message of the TypeError raised when a property is read from
      [null] (flag true) or [undefined] (flag false) *)
  NullishReadMessage : bool -> jsstring -> jsstring;
  (** message of the TypeError raised when an object has no primitive
      value *)
  NotPrimitiveMessage : jsstring
}.

(** A sample engine, for the examples.  Its numbers are the IEEE
    doubles: a token denotes the double nearest to its decimal value, ties
    to even, and a double is written with the shortest digits that denote
    it, laid out as [Number::toString] does.  The messages of the engine's
    own errors are worded in the manner of V8, without the details V8 adds
    to a SyntaxError (the unexpected token, an excerpt of the text). *)

(** A double that a JSON number can denote: a zero, an infinity, or
    [m * 2^e] with [0 < m < 2^53] and [-1074 <= e <= 971], [m] having 53
    bits unless [e] is the least exponent. *)
Inductive double :=
| DZero (negative : bool)
| DInfinity (negative : bool)
| DFinite (negative : bool) (m e : Z).

(** Round [M * 2^E], [M > 0], to the nearest double, ties to even. *)
Definition round_binary (negative : bool) (M E : Z) : double :=
  let e := Z.max (E + (Z.log2 M + 1) - 53) (-1074) in
  let (m, e') :=
    if (e <=? E)%Z then ((M * 2 ^ (E - e))%Z, e)
    else
      let d := (e - E)%Z in
      let m0 := (M / 2 ^ d)%Z in
      let rest := (M mod 2 ^ d)%Z in
      let half := (2 ^ (d - 1))%Z in
      let m1 := if ((half <? rest) || ((rest =? half) && Z.odd m0))%Z
                then (m0 + 1)%Z else m0 in
      if (m1 =? 2 ^ 53)%Z then ((2 ^ 52)%Z, (e + 1)%Z) else (m1, e) in
  if (m =? 0)%Z then DZero negative
  else if (971 <? e')%Z then DInfinity negative
  else DFinite negative m e'.

(** The double nearest to [D * 10^e10], [D >= 0]. *)
Definition round_decimal (negative : bool) (D e10 : Z) : double :=
  if (D =? 0)%Z then DZero negative
  else if (310 <? e10 + Z.log2 D / 4)%Z then DInfinity negative
  else if (e10 + (Z.log2 D + 1) / 3 + 1 <? -330)%Z then DZero negative
  else if (0 <=? e10)%Z then round_binary negative (D * 10 ^ e10) 0
  else
    let (q, r) := Z.div_eucl (D * 2 ^ 1200) (10 ^ (- e10)) in
    round_binary negative (2 * q + (if (r =? 0)%Z then 0 else 1)) (-1201).

(** The digits at the head of a text, read onto [acc]. *)
Fixpoint read_digits (s : jsstring) (acc count : Z) : Z * Z * jsstring :=
  match s with
  | c :: rest =>
      if ((48 <=? c) && (c <=? 57))%N
      then read_digits rest (10 * acc + (Z.of_N c - 48)) (count + 1)
      else (acc, count, s)
  | [] => (acc, count, [])
  end.

(** A number token: sign, digits, fraction, exponent. *)
Definition read_token (tok : jsstring) : double :=
  let (negative, s1) :=
    match tok with
    | 45%N :: rest => (true, rest)
    | _ => (false, tok)
    end in
  let '(whole, _, s2) := read_digits s1 0 0 in
  let '(D, fraction, s3) :=
    match s2 with
    | 46%N :: rest => read_digits rest whole 0
    | _ => (whole, 0%Z, s2)
    end in
  let exponent :=
    match s3 with
    | c :: rest =>
        if ((c =? 101) || (c =? 69))%N then
          match rest with
          | 45%N :: rest' => let '(x, _, _) := read_digits rest' 0 0 in (- x)%Z
          | 43%N :: rest' => let '(x, _, _) := read_digits rest' 0 0 in x
          | _ => let '(x, _, _) := read_digits rest 0 0 in x
          end
        else 0%Z
    | [] => 0%Z
    end in
  round_decimal negative D (exponent - fraction).

(** [Number::toString]: the shortest digits that denote the double, the
    nearest to it among those. *)
Definition same_double (a b : double) : bool :=
  match a, b with
  | DFinite _ m e, DFinite _ m' e' => ((m =? m') && (e =? e'))%Z
  | _, _ => false
  end.

Fixpoint first_above (fuel : nat) (A B n : Z) : Z :=
  match fuel with
  | O => n
  | S fuel' =>
      if (if (0 <=? n)%Z then (A <? 10 ^ n * B)%Z else (A * 10 ^ (- n) <? B)%Z)
      then n else first_above fuel' A B (n + 1)%Z
  end.

Fixpoint strip_zeros (fuel : nat) (s k : Z) : Z * Z :=
  match fuel with
  | O => (s, k)
  | S fuel' =>
      if ((1 <? k) && (s mod 10 =? 0))%Z then strip_zeros fuel' (s / 10)%Z (k - 1)%Z
      else (s, k)
  end.

Fixpoint shortest_from (fuel : nat) (m e A B n k : Z) : Z * Z * Z :=
  let p := (n - k)%Z in
  let num := if (0 <=? p)%Z then A else (A * 10 ^ (- p))%Z in
  let den := if (0 <=? p)%Z then (B * 10 ^ p)%Z else B in
  let lo := (num / den)%Z in
  let rest := (num mod den)%Z in
  let lo_ok := same_double (round_decimal false lo p) (DFinite false m e) in
  let hi_ok := same_double (round_decimal false (lo + 1) p) (DFinite false m e) in
  let take_hi :=
    if lo_ok && hi_ok
    then ((den <? 2 * rest) || ((2 * rest =? den) && Z.odd lo))%Z
    else hi_ok in
  match fuel with
  | O => (lo, k, n)
  | S fuel' =>
      if lo_ok || hi_ok then
        if take_hi then
          if (lo + 1 =? 10 ^ k)%Z then (1%Z, 1%Z, (n + 1)%Z) else ((lo + 1)%Z, k, n)
        else (lo, k, n)
      else shortest_from fuel' m e A B n (k + 1)%Z
  end.

Definition shortest (m e : Z) : Z * Z * Z :=
  let A := if (0 <=? e)%Z then (m * 2 ^ e)%Z else m in
  let B := if (0 <=? e)%Z then 1%Z else (2 ^ (- e))%Z in
  let estimate := ((Z.log2 A - Z.log2 B) * 30103 / 100000 - 2)%Z in
  let n := first_above 8 A B estimate in
  let '(s, k, n') := shortest_from 17 m e A B n 1 in
  let (s', k') := strip_zeros 17 s k in
  (s', k', n').

Definition zeros (n : Z) : jsstring := repeat 48%N (Z.to_nat n).

Definition write_double (x : double) : jsstring :=
  match x with
  | DZero _ => js "0"
  | DInfinity negative => (if negative then js "-" else []) ++ js "Infinity"
  | DFinite negative m e =>
      let '(s, k, n) := shortest m e in
      let ds := decimal (Z.to_N s) in
      (if negative then js "-" else []) ++
      if ((k <=? n) && (n <=? 21))%Z then ds ++ zeros (n - k)
      else if ((0 <? n) && (n <=? 21))%Z
      then firstn (Z.to_nat n) ds ++ js "." ++ skipn (Z.to_nat n) ds
      else if ((-6 <? n) && (n <=? 0))%Z then js "0." ++ zeros (- n) ++ ds
      else
        let x := (n - 1)%Z in
        firstn 1 ds ++ (if (k =? 1)%Z then [] else js "." ++ skipn 1 ds)
        ++ js "e" ++ (if (0 <=? x)%Z then js "+" else js "-")
        ++ decimal (Z.to_N (Z.abs x))
  end.

Definition SampleEngine : Engine := {|
  num := double;
  StringToNumber := read_token;
  NumberToBoolean := fun x => match x with DZero _ => false | _ => true end;
  NumberToString := write_double;
  NumberIsFinite := fun x => match x with DInfinity _ => false | _ => true end;
  JSONSyntaxErrorMessage := fun text => dq ++ text ++ dq ++ js " is not valid JSON";
  NullishReadMessage := fun is_null key =>
    js "Cannot read properties of "
    ++ (if is_null then js "null" else js "undefined")
    ++ js " (reading '" ++ key ++ js "')";
  NotPrimitiveMessage := js "Cannot convert object to primitive value"
|}.

(** ** Exceptions and completions *)

Inductive ErrorKind := PlainError | TypeError | SyntaxError | HostError.

Record JSError := mkError { err_kind : ErrorKind; err_message : jsstring }.

Inductive Completion (A : Type) :=
| Normal (a : A)
| Throw (e : JSError).

Arguments Normal {A} a.
Arguments Throw {A} e.

Definition and_then {A B} (c : Completion A) (k : A -> Completion B) : Completion B :=
  match c with
  | Normal a => k a
  | Throw e => Throw e
  end.

Notation "x <~ c ;; k" := (and_then c (fun x => k))
  (at level 61, c at next level, right associativity).

(** What a parser gives: a value and the text after it, a syntax error,
    or no answer for want of fuel. *)
Inductive parse_result (A : Type) :=
| Parsed (a : A) (rest : jsstring)
| Malformed
| OutOfFuel.

Arguments Parsed {A} a rest.
Arguments Malformed {A}.
Arguments OutOfFuel {A}.

Section Values.

Context {E : Engine}.

(** ** JSON values and JavaScript values

    [json] is what [JSON.parse] can return.  An object is its property
    table in enumeration order, every key once. *)

Unset Elimination Schemes.

Inductive json :=
| JNull
| JBool (b : bool)
| JNum (n : num)
| JStr (s : jsstring)
| JArr (elems : list json)
| JObj (props : list (jsstring * json)).

Set Elimination Schemes.

(** A value as the handler sees it: a property read can also give
    [undefined]. *)
Inductive JSValue :=
| Undefined
| Val (j : json).

(** [ToBoolean] *)
Definition ToBoolean (v : JSValue) : bool :=
  match v with
  | Undefined => false
  | Val JNull => false
  | Val (JBool b) => b
  | Val (JNum n) => NumberToBoolean n
  | Val (JStr s) => match s with [] => false | _ => true end
  | Val (JArr _) => true
  | Val (JObj _) => true
  end.

Fixpoint lookup (k : jsstring) (props : list (jsstring * json)) : option json :=
  match props with
  | [] => None
  | (k', v) :: rest => if eqb_string k k' then Some v else lookup k rest
  end.

Definition has_key (k : jsstring) (props : list (jsstring * json)) : bool :=
  match lookup k props with Some _ => true | None => false end.

(** [value.key] and [value[0]], for the keys the program reads ([agent],
    [prompt], [response], [choices], [0], [message], [content],
    [candidates], [parts], [text]): none of them is found on a prototype,
    so an object answers with its own property, an array and a string
    with the element at an index key, and everything else with
    [undefined].  Reading from [null] or [undefined] throws. *)
Definition index_key (k : jsstring) : option nat :=
  if eqb_string k (js "0") then Some O else None.

Definition Get (v : JSValue) (k : jsstring) : Completion JSValue :=
  match v with
  | Undefined => Throw (mkError TypeError (NullishReadMessage false k))
  | Val JNull => Throw (mkError TypeError (NullishReadMessage true k))
  | Val (JObj props) =>
      match lookup k props with
      | Some x => Normal (Val x)
      | None => Normal Undefined
      end
  | Val (JArr elems) =>
      match index_key k with
      | Some i =>
          match nth_error elems i with
          | Some x => Normal (Val x)
          | None => Normal Undefined
          end
      | None => Normal Undefined
      end
  | Val (JStr s) =>
      match index_key k with
      | Some i =>
          match nth_error s i with
          | Some c => Normal (Val (JStr [c]))
          | None => Normal Undefined
          end
      | None => Normal Undefined
      end
  | Val (JBool _) => Normal Undefined
  | Val (JNum _) => Normal Undefined
  end.

(** [v === 'literal'] *)
Definition StrictEqualsString (v : JSValue) (lit : jsstring) : bool :=
  match v with
  | Val (JStr s) => eqb_string s lit
  | _ => false
  end.

(** [ToString], as a template literal applies it.  An array joins its
    elements with commas, [null] elements giving the empty string; an
    object without an own [toString] property is [[object Object]]; with
    one (never callable in a parsed value) neither [toString] nor
    [valueOf] yields a primitive and a TypeError is thrown. *)
Fixpoint ToStringJson (j : json) : Completion jsstring :=
  match j with
  | JNull => Normal (js "null")
  | JBool true => Normal (js "true")
  | JBool false => Normal (js "false")
  | JNum n => Normal (NumberToString n)
  | JStr s => Normal s
  | JArr elems =>
      (fix join (first : bool) (l : list json) : Completion jsstring :=
         match l with
         | [] => Normal []
         | x :: rest =>
             let sep := if first then [] else js "," in
             let piece :=
               match x with
               | JNull => Normal []
               | _ => ToStringJson x
               end in
             match piece with
             | Throw e => Throw e
             | Normal p =>
                 match join false rest with
                 | Throw e => Throw e
                 | Normal q => Normal (sep ++ p ++ q)
                 end
             end
         end) true elems
  | JObj props =>
      if has_key (js "toString") props
      then Throw (mkError TypeError NotPrimitiveMessage)
      else Normal (js "[object Object]")
  end.

Definition ToString (v : JSValue) : Completion jsstring :=
  match v with
  | Undefined => Normal (js "undefined")
  | Val j => ToStringJson j
  end.

(** ** JSON.stringify

    [QuoteJSONString]: the string is read code point by code point; a
    surrogate pair is copied, a lone surrogate and a control character are
    written as an escape. *)

Definition hex_digit (d : N) : code_unit :=
  if (d <? 10)%N then (48 + d)%N else (87 + d)%N.

Definition UnicodeEscape (c : code_unit) : jsstring :=
  [92; 117;
   hex_digit ((c / 4096) mod 16); hex_digit ((c / 256) mod 16);
   hex_digit ((c / 16) mod 16); hex_digit (c mod 16)]%N.

Definition is_lead (c : code_unit) : bool :=
  ((55296 <=? c) && (c <=? 56319))%N.

Definition is_trail (c : code_unit) : bool :=
  ((56320 <=? c) && (c <=? 57343))%N.

Definition quote_unit (c : code_unit) : jsstring :=
  if (c =? 8)%N then [92; 98]%N
  else if (c =? 9)%N then [92; 116]%N
  else if (c =? 10)%N then [92; 110]%N
  else if (c =? 12)%N then [92; 102]%N
  else if (c =? 13)%N then [92; 114]%N
  else if (c =? 34)%N then [92; 34]%N
  else if (c =? 92)%N then [92; 92]%N
  else if (c <? 32)%N || is_lead c || is_trail c then UnicodeEscape c
  else [c].

Fixpoint quote_chars (s : jsstring) : jsstring :=
  match s with
  | [] => []
  | c :: rest =>
      if is_lead c then
        match rest with
        | d :: rest' =>
            if is_trail d then c :: d :: quote_chars rest'
            else UnicodeEscape c ++ quote_chars rest
        | [] => UnicodeEscape c
        end
      else quote_unit c ++ quote_chars rest
  end.

Definition QuoteJSONString (s : jsstring) : jsstring :=
  dq ++ quote_chars s ++ dq.

(** [SerializeJSONProperty] without replacer and indentation.  No parsed
    value carries a callable [toJSON]. *)
Fixpoint JSON_stringify (j : json) : jsstring :=
  match j with
  | JNull => js "null"
  | JBool true => js "true"
  | JBool false => js "false"
  | JNum n => if NumberIsFinite n then NumberToString n else js "null"
  | JStr s => QuoteJSONString s
  | JArr elems =>
      js "[" ++
      (fix items (first : bool) (l : list json) : jsstring :=
         match l with
         | [] => []
         | x :: rest =>
             (if first then [] else js ",") ++ JSON_stringify x ++ items false rest
         end) true elems
      ++ js "]"
  | JObj props =>
      js "{" ++
      (fix members (first : bool) (l : list (jsstring * json)) : jsstring :=
         match l with
         | [] => []
         | (k, x) :: rest =>
             (if first then [] else js ",") ++
             QuoteJSONString k ++ js ":" ++ JSON_stringify x ++ members false rest
         end) true props
      ++ js "}"
  end.

(** An object literal [{ k1: v1, ... }] handed to [JSON.stringify]: a
    property whose value is [undefined] is left out. *)
Fixpoint object_literal (fields : list (jsstring * JSValue)) : list (jsstring * json) :=
  match fields with
  | [] => []
  | (k, Undefined) :: rest => object_literal rest
  | (k, Val x) :: rest => (k, x) :: object_literal rest
  end.

(** ** JSON.parse

    The JSON grammar of ECMA-404, as [JSON.parse] reads it (no reviver).
    White space is tab, line feed, carriage return and space. *)

Definition is_ws (c : code_unit) : bool :=
  ((c =? 9) || (c =? 10) || (c =? 13) || (c =? 32))%N.

Fixpoint skip_ws (s : jsstring) : jsstring :=
  match s with
  | c :: rest => if is_ws c then skip_ws rest else s
  | [] => []
  end.

Definition is_digit (c : code_unit) : bool := ((48 <=? c) && (c <=? 57))%N.

Fixpoint span_digits (s : jsstring) : jsstring * jsstring :=
  match s with
  | c :: rest =>
      if is_digit c then let (ds, r) := span_digits rest in (c :: ds, r)
      else ([], s)
  | [] => ([], [])
  end.

Fixpoint strip_prefix (p s : jsstring) : option jsstring :=
  match p, s with
  | [], _ => Some s
  | x :: p', y :: s' => if (x =? y)%N then strip_prefix p' s' else None
  | _ :: _, [] => None
  end.

(** The value of a hexadecimal digit, either case. *)
Definition hex_value (c : code_unit) : option N :=
  if ((48 <=? c) && (c <=? 57))%N then Some (c - 48)%N
  else if ((97 <=? c) && (c <=? 102))%N then Some (c - 87)%N
  else if ((65 <=? c) && (c <=? 70))%N then Some (c - 55)%N
  else None.

Definition hex4 (a b c d : code_unit) : option code_unit :=
  match hex_value a, hex_value b, hex_value c, hex_value d with
  | Some x, Some y, Some z, Some w => Some (x * 4096 + y * 256 + z * 16 + w)%N
  | _, _, _, _ => None
  end.

Definition simple_escape (c : code_unit) : option code_unit :=
  if (c =? 34)%N then Some 34%N
  else if (c =? 92)%N then Some 92%N
  else if (c =? 47)%N then Some 47%N
  else if (c =? 98)%N then Some 8%N
  else if (c =? 102)%N then Some 12%N
  else if (c =? 110)%N then Some 10%N
  else if (c =? 114)%N then Some 13%N
  else if (c =? 116)%N then Some 9%N
  else None.

(** The characters of a string after its opening quotation mark, up to
    and including the closing one. *)
Fixpoint parse_chars (s : jsstring) : option (jsstring * jsstring) :=
  match s with
  | [] => None
  | c :: rest =>
      if (c =? 34)%N then Some ([], rest)
      else if (c =? 92)%N then
        match rest with
        | [] => None
        | e :: rest1 =>
            if (e =? 117)%N then
              match rest1 with
              | h1 :: h2 :: h3 :: h4 :: rest2 =>
                  match hex4 h1 h2 h3 h4 with
                  | Some u =>
                      match parse_chars rest2 with
                      | Some (t, r) => Some (u :: t, r)
                      | None => None
                      end
                  | None => None
                  end
              | _ => None
              end
            else
              match simple_escape e with
              | Some u =>
                  match parse_chars rest1 with
                  | Some (t, r) => Some (u :: t, r)
                  | None => None
                  end
              | None => None
              end
        end
      else if (c <? 32)%N then None
      else
        match parse_chars rest with
        | Some (t, r) => Some (c :: t, r)
        | None => None
        end
  end.

(** A number token: [-]? int frac? exp?, returned as written. *)
Definition scan_int (s : jsstring) : option (jsstring * jsstring) :=
  match s with
  | c :: rest =>
      if (c =? 48)%N then Some ([c], rest)
      else if is_digit c then let (ds, r) := span_digits rest in Some (c :: ds, r)
      else None
  | [] => None
  end.

Definition scan_frac (s : jsstring) : option (jsstring * jsstring) :=
  match s with
  | 46%N :: rest =>
      match span_digits rest with
      | ([], _) => None
      | (ds, r) => Some (46%N :: ds, r)
      end
  | _ => Some ([], s)
  end.

Definition scan_exp (s : jsstring) : option (jsstring * jsstring) :=
  match s with
  | c :: rest =>
      if ((c =? 101) || (c =? 69))%N then
        let (sign, rest1) :=
          match rest with
          | d :: rest' => if ((d =? 43) || (d =? 45))%N then ([d], rest') else ([], rest)
          | [] => ([], rest)
          end in
        match span_digits rest1 with
        | ([], _) => None
        | (ds, r) => Some (c :: sign ++ ds, r)
        end
      else Some ([], s)
  | [] => Some ([], s)
  end.

Definition scan_number (s : jsstring) : option (jsstring * jsstring) :=
  let (sign, s1) :=
    match s with
    | 45%N :: rest => ([45%N], rest)
    | _ => ([], s)
    end in
  match scan_int s1 with
  | None => None
  | Some (i, s2) =>
      match scan_frac s2 with
      | None => None
      | Some (f, s3) =>
          match scan_exp s3 with
          | None => None
          | Some (e, s4) => Some (sign ++ i ++ f ++ e, s4)
          end
      end
  end.

(** Property creation in a parsed object: a key read again replaces the
    value and keeps its place; an array index key goes before the other
    keys, in ascending order; any other new key goes last. *)
Fixpoint digits_value (ds : jsstring) (acc : N) : N :=
  match ds with
  | [] => acc
  | d :: rest => digits_value rest (acc * 10 + (d - 48))%N
  end.

Definition array_index (k : jsstring) : option N :=
  match k with
  | [] => None
  | c :: rest =>
      if forallb is_digit k && ((negb (c =? 48)%N) || match rest with [] => true | _ => false end)
         && (List.length k <=? 10)%nat
      then let v := digits_value k 0 in
           if (v <? 4294967295)%N then Some v else None
      else None
  end.

Fixpoint insert_index (i : N) (k : jsstring) (v : json)
    (props : list (jsstring * json)) : list (jsstring * json) :=
  match props with
  | [] => [(k, v)]
  | (k', v') :: rest =>
      match array_index k' with
      | Some i' => if (i <? i')%N then (k, v) :: props
                   else (k', v') :: insert_index i k v rest
      | None => (k, v) :: props
      end
  end.

Fixpoint replace_value (k : jsstring) (v : json)
    (props : list (jsstring * json)) : list (jsstring * json) :=
  match props with
  | [] => []
  | (k', v') :: rest =>
      if eqb_string k k' then (k', v) :: rest
      else (k', v') :: replace_value k v rest
  end.

Definition CreateDataProperty (props : list (jsstring * json))
    (kv : jsstring * json) : list (jsstring * json) :=
  let (k, v) := kv in
  if has_key k props then replace_value k v props
  else match array_index k with
       | Some i => insert_index i k v props
       | None => props ++ [(k, v)]
       end.

Definition parse_string (s : jsstring) : parse_result jsstring :=
  match s with
  | 34%N :: rest =>
      match parse_chars rest with
      | Some (t, r) => Parsed t r
      | None => Malformed
      end
  | _ => Malformed
  end.

Fixpoint parse_value (fuel : nat) (s : jsstring) : parse_result json :=
  match fuel with
  | O => OutOfFuel
  | S fuel' =>
      match skip_ws s with
      | [] => Malformed
      | c :: rest =>
          if (c =? 34)%N then
            match parse_chars rest with
            | Some (t, r) => Parsed (JStr t) r
            | None => Malformed
            end
          else if (c =? 91)%N then
            match skip_ws rest with
            | 93%N :: r => Parsed (JArr []) r
            | _ =>
                match parse_elements fuel' rest with
                | Parsed vs r => Parsed (JArr vs) r
                | Malformed => Malformed
                | OutOfFuel => OutOfFuel
                end
            end
          else if (c =? 123)%N then
            match skip_ws rest with
            | 125%N :: r => Parsed (JObj []) r
            | _ =>
                match parse_members fuel' rest with
                | Parsed kvs r => Parsed (JObj (fold_left CreateDataProperty kvs [])) r
                | Malformed => Malformed
                | OutOfFuel => OutOfFuel
                end
            end
          else if (c =? 116)%N then
            match strip_prefix (js "true") (c :: rest) with
            | Some r => Parsed (JBool true) r
            | None => Malformed
            end
          else if (c =? 102)%N then
            match strip_prefix (js "false") (c :: rest) with
            | Some r => Parsed (JBool false) r
            | None => Malformed
            end
          else if (c =? 110)%N then
            match strip_prefix (js "null") (c :: rest) with
            | Some r => Parsed JNull r
            | None => Malformed
            end
          else
            match scan_number (c :: rest) with
            | Some (tok, r) => Parsed (JNum (StringToNumber tok)) r
            | None => Malformed
            end
      end
  end

with parse_elements (fuel : nat) (s : jsstring) : parse_result (list json) :=
  match fuel with
  | O => OutOfFuel
  | S fuel' =>
      match parse_value fuel' s with
      | Parsed v r =>
          match skip_ws r with
          | 44%N :: r1 =>
              match parse_elements fuel' r1 with
              | Parsed vs r2 => Parsed (v :: vs) r2
              | Malformed => Malformed
              | OutOfFuel => OutOfFuel
              end
          | 93%N :: r1 => Parsed [v] r1
          | _ => Malformed
          end
      | Malformed => Malformed
      | OutOfFuel => OutOfFuel
      end
  end

with parse_members (fuel : nat) (s : jsstring) : parse_result (list (jsstring * json)) :=
  match fuel with
  | O => OutOfFuel
  | S fuel' =>
      match parse_string (skip_ws s) with
      | Parsed k r =>
          match skip_ws r with
          | 58%N :: r1 =>
              match parse_value fuel' r1 with
              | Parsed v r2 =>
                  match skip_ws r2 with
                  | 44%N :: r3 =>
                      match parse_members fuel' r3 with
                      | Parsed kvs r4 => Parsed ((k, v) :: kvs) r4
                      | Malformed => Malformed
                      | OutOfFuel => OutOfFuel
                      end
                  | 125%N :: r3 => Parsed [(k, v)] r3
                  | _ => Malformed
                  end
              | Malformed => Malformed
              | OutOfFuel => OutOfFuel
              end
          | _ => Malformed
          end
      | Malformed => Malformed
      | OutOfFuel => OutOfFuel
      end
  end.

(** Fuel that never runs out on a text of this length (see
    [parse_value_fuel]). *)
Definition parse_fuel (text : jsstring) : nat := 2 * List.length text + 1.

(** [JSON.parse(text)].  The last case stands for a syntax error only:
    the fuel never runs out ([parse_value_fuel]). *)
Definition JSON_parse (text : jsstring) : Completion json :=
  match parse_value (parse_fuel text) text with
  | Parsed v rest =>
      match skip_ws rest with
      | [] => Normal v
      | _ => Throw (mkError SyntaxError (JSONSyntaxErrorMessage text))
      end
  | _ => Throw (mkError SyntaxError (JSONSyntaxErrorMessage text))
  end.

(** A parser result leaves less text than it was given; a parser result
    is an answer when the fuel did not run out. *)
Definition shrinks {A} (res : parse_result A) (s : jsstring) : Prop :=
  match res with
  | Parsed _ r => List.length r < List.length s
  | _ => True
  end.

Definition answered {A} (res : parse_result A) : Prop :=
  match res with
  | OutOfFuel => False
  | _ => True
  end.

End Values.

(** ** The world around a session

    Everything the handler reaches outside its own code: the configuration
    handed to the Durable Object, the identifiers [crypto.randomUUID]
    returns, what the backends answer, whether the client goes away while
    a call is pending, and what [send] does on a connection that is no
    longer open (the runtime decides; the program never asks). *)

Inductive SocketState := Open | Closed.

Inductive MessageData :=
| TextData (text : jsstring)
| BinaryData (bytes : list N).

Inductive ClosedSend :=
| Discards
| Raises (e : JSError).

Record HttpResponse := mkResponse {
  status : N;
  (** what reading the body gives: its text, or a failed read *)
  body : Completion jsstring
}.

(** [response.ok] *)
Definition ok (r : HttpResponse) : bool :=
  ((200 <=? status r) && (status r <=? 299))%N.

Record HttpRequest := mkRequest {
  req_url : jsstring;
  req_method : jsstring;
  req_headers : list (jsstring * jsstring);
  req_body : jsstring
}.

Section Session.

Context {E : Engine}.

Inductive BackendCall :=
| AIRun (model : jsstring) (input : json)
| HttpFetch (request : HttpRequest).

Record World := mkWorld {
  OPENAI_API_KEY : jsstring;
  GEMINI_API_KEY : jsstring;
  (** the k-th identifier handed out *)
  uuid_source : nat -> jsstring;
  (** the answer to [env.AI.run] when k backend calls came before *)
  AI_answer : nat -> jsstring -> json -> Completion JSValue;
  (** the answer to [fetch] when k backend calls came before *)
  fetch_answer : nat -> HttpRequest -> Completion HttpResponse;
  (** does the connection close while that call is pending? *)
  client_leaves : nat -> bool;
  send_when_closed : ClosedSend
}.

Inductive LogEntry :=
| ConsoleError (label : jsstring) (detail : option JSError)
| ConsoleLog (line : jsstring).

Record Session := mkSession {
  socket : SocketState;
  (** frames written to the connection, oldest first *)
  outbox : list jsstring;
  console : list LogEntry;
  (** identifiers drawn so far *)
  uuids : nat;
  (** backend calls issued so far, oldest first *)
  calls : list BackendCall;
  (** exceptions that escaped a listener *)
  unhandled : list JSError
}.

(** Code that reads and changes the session and may throw. *)
Definition M (A : Type) : Type := Session -> Completion A * Session.

Definition ret {A} (a : A) : M A := fun s => (Normal a, s).

Definition bind {A B} (m : M A) (k : A -> M B) : M B :=
  fun s =>
    match m s with
    | (Normal a, s') => k a s'
    | (Throw e, s') => (Throw e, s')
    end.

Definition throw {A} (e : JSError) : M A := fun s => (Throw e, s).

Definition lift {A} (c : Completion A) : M A := fun s => (c, s).

Definition try_catch {A} (body : M A) (handler : JSError -> M A) : M A :=
  fun s =>
    match body s with
    | (Normal a, s') => (Normal a, s')
    | (Throw e, s') => handler e s'
    end.

Notation "x <- m ;; k" := (bind m (fun x => k))
  (at level 61, m at next level, right associativity).

(** [new Error(message)] *)
Definition Error (message : jsstring) : JSError := mkError PlainError message.

Definition console_error (label : jsstring) (detail : option JSError) : M unit :=
  fun s =>
    (Normal tt,
     mkSession (socket s) (outbox s) (console s ++ [ConsoleError label detail])
               (uuids s) (calls s) (unhandled s)).

Definition console_log (line : jsstring) : M unit :=
  fun s =>
    (Normal tt,
     mkSession (socket s) (outbox s) (console s ++ [ConsoleLog line])
               (uuids s) (calls s) (unhandled s)).

(** [crypto.randomUUID()] *)
Definition randomUUID (w : World) : M jsstring :=
  fun s =>
    (Normal (uuid_source w (uuids s)),
     mkSession (socket s) (outbox s) (console s) (S (uuids s)) (calls s)
               (unhandled s)).

(** [server.send(frame)] *)
Definition send (w : World) (frame : jsstring) : M unit :=
  fun s =>
    match socket s with
    | Open =>
        (Normal tt,
         mkSession Open (outbox s ++ [frame]) (console s) (uuids s) (calls s)
                   (unhandled s))
    | Closed =>
        match send_when_closed w with
        | Discards => (Normal tt, s)
        | Raises e => (Throw e, s)
        end
    end.

(** A backend call is a suspension point: the call is issued, and by the
    time its answer is there the client may have gone. *)
Definition suspend (w : World) (call : BackendCall) : Session -> Session :=
  fun s =>
    mkSession (if client_leaves w (List.length (calls s)) then Closed else socket s)
              (outbox s) (console s) (uuids s) (calls s ++ [call]) (unhandled s).

(** [await this.env.AI.run(model, input)] *)
Definition AI_run (w : World) (model : jsstring) (input : json) : M JSValue :=
  fun s => (AI_answer w (List.length (calls s)) model input, suspend w (AIRun model input) s).

(** [await fetch(url, init)] *)
Definition fetch (w : World) (request : HttpRequest) : M HttpResponse :=
  fun s => (fetch_answer w (List.length (calls s)) request, suspend w (HttpFetch request) s).

(** [await response.text()] and [await response.json()] *)
Definition response_text (r : HttpResponse) : Completion jsstring := body r.

Definition response_json (r : HttpResponse) : Completion json :=
  text <~ body r ;; JSON_parse text.

(** ** The program: [ChatSession.ts] *)

(** [new Error(message)] is [Error message] above.  The message object
    [{ role: 'user', content: prompt }] of the two chat backends: *)
Definition user_message (prompt : JSValue) : json :=
  JObj (object_literal [(js "role", Val (JStr (js "user"))); (js "content", prompt)]).

(** [generateWithCloudflare(prompt)] *)
Definition cloudflare_model : jsstring := js "@cf/meta/llama-3-8b-instruct".

Definition cloudflare_input (prompt : JSValue) : json :=
  JObj [(js "messages", JArr [user_message prompt])].

Definition cloudflare_failure : jsstring :=
  js "Failed to generate response with Cloudflare AI.".

(** [response.response] *)
Definition cloudflare_read (response : JSValue) : Completion JSValue :=
  Get response (js "response").

Definition generateWithCloudflare (w : World) (prompt : JSValue) : M JSValue :=
  try_catch
    (response <- AI_run w cloudflare_model (cloudflare_input prompt) ;;
     lift (cloudflare_read response))
    (fun err =>
       _ <- console_error (js "Cloudflare AI call failed:") (Some err) ;;
       throw (Error cloudflare_failure)).

(** [generateWithOpenAI(prompt)] *)
Definition openai_url : jsstring := js "https://api.openai.com/v1/chat/completions".

Definition openai_request (w : World) (prompt : JSValue) : HttpRequest :=
  mkRequest openai_url (js "POST")
    [(js "Content-Type", js "application/json");
     (js "Authorization", js "Bearer " ++ OPENAI_API_KEY w)]
    (JSON_stringify
       (JObj [(js "model", JStr (js "gpt-4o"));
              (js "messages", JArr [user_message prompt])])).

Definition openai_failure : jsstring :=
  js "Failed to generate response with OpenAI.".

(** [result.choices[0].message.content] *)
Definition openai_content (result : JSValue) : Completion JSValue :=
  choices <~ Get result (js "choices") ;;
  first <~ Get choices (js "0") ;;
  message <~ Get first (js "message") ;;
  Get message (js "content").

(** The rest of the [try] block once [fetch] has answered. *)
Definition openai_read (response : HttpResponse) : Completion JSValue :=
  if negb (ok response) then
    text <~ response_text response ;;
    Throw (Error (js "OpenAI API responded with status "
                  ++ decimal (status response) ++ js ": " ++ text))
  else
    result <~ response_json response ;;
    openai_content (Val result).

Definition generateWithOpenAI (w : World) (prompt : JSValue) : M JSValue :=
  try_catch
    (response <- fetch w (openai_request w prompt) ;;
     lift (openai_read response))
    (fun err =>
       _ <- console_error (js "OpenAI API call failed:") (Some err) ;;
       throw (Error openai_failure)).

(** [generateWithGemini(prompt)] *)
Definition gemini_url (w : World) : jsstring :=
  js "https://generativelanguage.googleapis.com/v1beta/models/gemini-2.5-flash:generateContent?key="
  ++ GEMINI_API_KEY w.

Definition gemini_request (w : World) (prompt : JSValue) : HttpRequest :=
  mkRequest (gemini_url w) (js "POST")
    [(js "Content-Type", js "application/json")]
    (JSON_stringify
       (JObj [(js "contents",
               JArr [JObj [(js "role", JStr (js "user"));
                           (js "parts",
                            JArr [JObj (object_literal [(js "text", prompt)])])]])])).

Definition gemini_failure : jsstring :=
  js "Failed to generate response with Gemini.".

(** [result.candidates[0].content.parts[0].text] *)
Definition gemini_text (result : JSValue) : Completion JSValue :=
  candidates <~ Get result (js "candidates") ;;
  first <~ Get candidates (js "0") ;;
  content <~ Get first (js "content") ;;
  parts <~ Get content (js "parts") ;;
  part <~ Get parts (js "0") ;;
  Get part (js "text").

Definition gemini_read (response : HttpResponse) : Completion JSValue :=
  if negb (ok response) then
    text <~ response_text response ;;
    Throw (Error (js "Gemini API responded with status "
                  ++ decimal (status response) ++ js ": " ++ text))
  else
    result <~ response_json response ;;
    gemini_text (Val result).

Definition generateWithGemini (w : World) (prompt : JSValue) : M JSValue :=
  try_catch
    (response <- fetch w (gemini_request w prompt) ;;
     lift (gemini_read response))
    (fun err =>
       _ <- console_error (js "Gemini API call failed:") (Some err) ;;
       throw (Error gemini_failure)).

(** [generate(message)]: the router. *)
Definition unsupported_agent (agent : jsstring) : jsstring :=
  js "Unsupported agent type: " ++ agent
  ++ js ". Please use 'cloudflare', 'openai', or 'gemini'.".

Definition generate (w : World) (message : JSValue) : M JSValue :=
  agent <- lift (Get message (js "agent")) ;;
  if StrictEqualsString agent (js "cloudflare") then
    prompt <- lift (Get message (js "prompt")) ;;
    generateWithCloudflare w prompt
  else if StrictEqualsString agent (js "openai") then
    prompt <- lift (Get message (js "prompt")) ;;
    generateWithOpenAI w prompt
  else if StrictEqualsString agent (js "gemini") then
    prompt <- lift (Get message (js "prompt")) ;;
    generateWithGemini w prompt
  else
    shown <- lift (ToString agent) ;;
    throw (Error (unsupported_agent shown)).

(** The listener [fetch] installs for [message] events. *)
Definition invalid_format : jsstring :=
  js "Invalid message format. Please provide both " ++ dq ++ js "agent" ++ dq
  ++ js " and " ++ dq ++ js "prompt" ++ dq ++ js ".".

Definition failed_to_process (message : jsstring) : jsstring :=
  js "Failed to process your request: " ++ message.

(** [JSON.stringify({ id, role, content })] *)
Definition response_frame (id role : jsstring) (content : JSValue) : jsstring :=
  JSON_stringify
    (JObj (object_literal [(js "id", Val (JStr id));
                           (js "role", Val (JStr role));
                           (js "content", content)])).

(** [evt.data as string]: the cast does nothing; [JSON.parse] applies
    [ToString] to what it is given, and a binary frame is an ArrayBuffer. *)
Definition data_text (data : MessageData) : jsstring :=
  match data with
  | TextData text => text
  | BinaryData _ => js "[object ArrayBuffer]"
  end.

(** [!message.agent || !message.prompt] *)
Definition incomplete (message : JSValue) : Completion bool :=
  agent <~ Get message (js "agent") ;;
  if negb (ToBoolean agent) then Normal true
  else prompt <~ Get message (js "prompt") ;;
       Normal (negb (ToBoolean prompt)).

Definition onMessage (w : World) (data : MessageData) : M unit :=
  try_catch
    (message <- lift (JSON_parse (data_text data)) ;;
     rejected <- lift (incomplete (Val message)) ;;
     if (rejected : bool) then
       id <- randomUUID w ;;
       send w (response_frame id (js "error") (Val (JStr invalid_format)))
     else
       response <- generate w (Val message) ;;
       id <- randomUUID w ;;
       send w (response_frame id (js "assistant") response))
    (fun err =>
       _ <- console_error (js "Error processing WebSocket message:") (Some err) ;;
       id <- randomUUID w ;;
       send w (response_frame id (js "error")
                 (Val (JStr (failed_to_process (err_message err)))))).

(** The listeners for [close] and [error] only log; that the connection
    is closed afterwards is the runtime's doing. *)
Definition onClose : M unit :=
  console_log (js "WebSocket connection closed.").

Definition onError (detail : option JSError) : M unit :=
  console_error (js "WebSocket error:") detail.

Inductive Event :=
| MessageEvent (data : MessageData)
| CloseEvent
| ErrorEvent (detail : option JSError).

Definition close_socket (s : Session) : Session :=
  mkSession Closed (outbox s) (console s) (uuids s) (calls s) (unhandled s).

Definition escaped (e : JSError) (s : Session) : Session :=
  mkSession (socket s) (outbox s) (console s) (uuids s) (calls s) (unhandled s ++ [e]).

Definition settle (r : Completion unit * Session) : Session :=
  match r with
  | (Normal _, s) => s
  | (Throw e, s) => escaped e s
  end.

(** One event delivered to a session in which no listener waits, with
    the answer to the call of its listener arriving before anything else:
    the listener runs to its end.  A closed connection delivers no
    further message.  Messages that arrive while a listener waits are in
    [step] below. *)
Definition deliver (w : World) (s : Session) (ev : Event) : Session :=
  match ev with
  | MessageEvent data =>
      match socket s with
      | Open => settle (onMessage w data s)
      | Closed => s
      end
  | CloseEvent => close_socket (settle (onClose s))
  | ErrorEvent detail => close_socket (settle (onError detail s))
  end.

Definition run (w : World) (s : Session) (events : list Event) : Session :=
  fold_left (deliver w) events s.

Definition fresh : Session := mkSession Open [] [] 0 [] [].

(** ** Vocabulary of the specification

    The three agents of [WebSocketMessage], each with the function
    [generate] routes it to, the call that function issues, the label it
    logs under and the message of the error it throws. *)

Inductive Agent := Cloudflare | OpenAI | Gemini.

Definition agent_name (a : Agent) : jsstring :=
  match a with
  | Cloudflare => js "cloudflare"
  | OpenAI => js "openai"
  | Gemini => js "gemini"
  end.

Definition adapter (a : Agent) : World -> JSValue -> M JSValue :=
  match a with
  | Cloudflare => generateWithCloudflare
  | OpenAI => generateWithOpenAI
  | Gemini => generateWithGemini
  end.

Definition adapter_call (a : Agent) (w : World) (prompt : JSValue) : BackendCall :=
  match a with
  | Cloudflare => AIRun cloudflare_model (cloudflare_input prompt)
  | OpenAI => HttpFetch (openai_request w prompt)
  | Gemini => HttpFetch (gemini_request w prompt)
  end.

Definition adapter_label (a : Agent) : jsstring :=
  match a with
  | Cloudflare => js "Cloudflare AI call failed:"
  | OpenAI => js "OpenAI API call failed:"
  | Gemini => js "Gemini API call failed:"
  end.

Definition adapter_failure (a : Agent) : jsstring :=
  match a with
  | Cloudflare => cloudflare_failure
  | OpenAI => openai_failure
  | Gemini => gemini_failure
  end.

(** What the [try] block of an adapter computes when its call is the
    k-th of the session. *)
Definition backend_reading (a : Agent) (w : World) (k : nat) (prompt : JSValue)
    : Completion JSValue :=
  match a with
  | Cloudflare =>
      response <~ AI_answer w k cloudflare_model (cloudflare_input prompt) ;;
      cloudflare_read response
  | OpenAI =>
      response <~ fetch_answer w k (openai_request w prompt) ;;
      openai_read response
  | Gemini =>
      response <~ fetch_answer w k (gemini_request w prompt) ;;
      gemini_read response
  end.

(** The kinds of backend failure.  A transport-level error: the call
    itself is rejected. *)
Definition call_rejected (a : Agent) (w : World) (k : nat) (prompt : JSValue) : Prop :=
  match a with
  | Cloudflare => exists e, AI_answer w k cloudflare_model (cloudflare_input prompt) = Throw e
  | OpenAI => exists e, fetch_answer w k (openai_request w prompt) = Throw e
  | Gemini => exists e, fetch_answer w k (gemini_request w prompt) = Throw e
  end.

Definition http_request (a : Agent) (w : World) (prompt : JSValue) : option HttpRequest :=
  match a with
  | Cloudflare => None
  | OpenAI => Some (openai_request w prompt)
  | Gemini => Some (gemini_request w prompt)
  end.

(** A non-success HTTP status. *)
Definition non_success_status (a : Agent) (w : World) (k : nat) (prompt : JSValue) : Prop :=
  exists request response,
    http_request a w prompt = Some request /\
    fetch_answer w k request = Normal response /\
    ok response = false.

(** When the provider answered with success: what is found at the place
    of its answer where the generated text is expected. *)
Definition provider_value (a : Agent) (w : World) (k : nat) (prompt : JSValue)
    : option (Completion JSValue) :=
  match a with
  | Cloudflare =>
      match AI_answer w k cloudflare_model (cloudflare_input prompt) with
      | Normal response => Some (cloudflare_read response)
      | Throw _ => None
      end
  | OpenAI =>
      match fetch_answer w k (openai_request w prompt) with
      | Normal response =>
          if ok response
          then Some (result <~ response_json response ;; openai_content (Val result))
          else None
      | Throw _ => None
      end
  | Gemini =>
      match fetch_answer w k (gemini_request w prompt) with
      | Normal response =>
          if ok response
          then Some (result <~ response_json response ;; gemini_text (Val result))
          else None
      | Throw _ => None
      end
  end.

(** The malformed answers on which reading throws: a body that cannot be
    read or is not JSON, or a missing field that is not the last of its
    path. *)
Definition unreadable_answer (a : Agent) (w : World) (k : nat) (prompt : JSValue) : Prop :=
  exists e, provider_value a w k prompt = Some (Throw e).

(** The message passed every stage. *)
Definition succeeds (w : World) (data : MessageData) (s : Session) (v : JSValue) : Prop :=
  exists message s1,
    JSON_parse (data_text data) = Normal message /\
    incomplete (Val message) = Normal false /\
    generate w (Val message) s = (Normal v, s1).

(** A field is present when reading it gives a value. *)
Definition has_field (message : json) (key : jsstring) : bool :=
  match Get (Val message) key with
  | Normal (Val _) => true
  | _ => false
  end.

Definition mentions (content piece : jsstring) : Prop :=
  exists before after, content = before ++ piece ++ after.

(** [server.send(JSON.stringify({ id: crypto.randomUUID(), role, content }))] *)
Definition reply (w : World) (role : jsstring) (content : JSValue) : M unit :=
  id <- randomUUID w ;;
  send w (response_frame id role content).

(** The session after a frame was written, and after an identifier was
    drawn for a frame that was not. *)
Definition written (w : World) (role : jsstring) (content : JSValue) (s : Session) : Session :=
  mkSession (socket s)
            (outbox s ++ [response_frame (uuid_source w (uuids s)) role content])
            (console s) (S (uuids s)) (calls s) (unhandled s).

Definition drawn (s : Session) : Session :=
  mkSession (socket s) (outbox s) (console s) (S (uuids s)) (calls s) (unhandled s).

(** The [catch] block of the listener. *)
Definition recover (w : World) (err : JSError) : M unit :=
  _ <- console_error (js "Error processing WebSocket message:") (Some err) ;;
  reply w (js "error") (Val (JStr (failed_to_process (err_message err)))).

(** What [generate] leaves of the session: it writes nothing and draws no
    identifier; it issues at most one call; the connection is as before
    unless the client left during that call. *)
Record untouched (w : World) (s s1 : Session) : Prop := mkUntouched {
  same_outbox : outbox s1 = outbox s;
  same_uuids : uuids s1 = uuids s;
  same_unhandled : unhandled s1 = unhandled s;
  same_socket : client_leaves w (List.length (calls s)) = false -> socket s1 = socket s;
  socket_or_closed : socket s1 = socket s \/ socket s1 = Closed;
  at_most_one_call : calls s1 = calls s \/ exists c, calls s1 = calls s ++ [c]
}.

Definition logged (entry : LogEntry) (s : Session) : Session :=
  mkSession (socket s) (outbox s) (console s ++ [entry]) (uuids s) (calls s)
            (unhandled s).

(** The same world with other answers to [fetch]. *)
Definition with_fetch (w : World)
    (answers : nat -> HttpRequest -> Completion HttpResponse) : World :=
  mkWorld (OPENAI_API_KEY w) (GEMINI_API_KEY w) (uuid_source w) (AI_answer w)
          answers (client_leaves w) (send_when_closed w).

(** The failures an adapter notices. *)
Definition noticed_failure (a : Agent) (w : World) (k : nat) (prompt : JSValue) : Prop :=
  call_rejected a w k prompt \/
  non_success_status a w k prompt \/
  unreadable_answer a w k prompt.

(** A result as the specification wants it: a non-empty text, or a
    failure. *)
Definition text_or_failure (r : Completion JSValue) : Prop :=
  (exists t, t <> [] /\ r = Normal (Val (JStr t))) \/ (exists e, r = Throw e).

(** ** The provider's answer, in the words of the specification

    The place of the generated text in an answer: the properties that
    [response.response], [result.choices[0].message.content] and
    [result.candidates[0].content.parts[0].text] read, in that order. *)
Definition text_path (a : Agent) : list jsstring :=
  match a with
  | Cloudflare => [js "response"]
  | OpenAI => [js "choices"; js "0"; js "message"; js "content"]
  | Gemini => [js "candidates"; js "0"; js "content"; js "parts"; js "0"; js "text"]
  end.

(** Reading the properties of a path one after the other, each from what
    the one before gave. *)
Fixpoint follow (path : list jsstring) (v : JSValue) : Completion JSValue :=
  match path with
  | [] => Normal v
  | key :: rest => x <~ Get v key ;; follow rest x
  end.

(** The provider answered_with the k-th call with a value: [AI.run] resolved
    to it, or [fetch] resolved to a response with a success status whose
    body is the JSON text of it. *)
Definition answered_with (a : Agent) (w : World) (k : nat) (prompt : JSValue)
    (answer : JSValue) : Prop :=
  match http_request a w prompt with
  | None => AI_answer w k cloudflare_model (cloudflare_input prompt) = Normal answer
  | Some request =>
      exists response result,
        fetch_answer w k request = Normal response /\
        ok response = true /\
        response_json response = Normal result /\
        answer = Val result
  end.

(** A success status with a body that cannot be read as JSON. *)
Definition body_not_json (a : Agent) (w : World) (k : nat) (prompt : JSValue) : Prop :=
  exists request response e,
    http_request a w prompt = Some request /\
    fetch_answer w k request = Normal response /\
    ok response = true /\
    response_json response = Throw e.

(** The first field of the path that an answer lacks: the fields
    [before] it are there, and nothing is found under [key] in what they
    lead to. *)
Definition lacks (a : Agent) (answer : JSValue)
    (before : list jsstring) (key : jsstring) (after : list jsstring) : Prop :=
  text_path a = before ++ key :: after /\
  exists holder, follow before answer = Normal holder /\ Get holder key = Normal Undefined.

(** The missing field is on the way to the text, or it is the text. *)
Definition missing_on_the_way (a : Agent) (answer : JSValue) : Prop :=
  exists before key after, after <> [] /\ lacks a answer before key after.

Definition text_missing (a : Agent) (answer : JSValue) : Prop :=
  exists before key, lacks a answer before key [].

(** A structurally malformed answer: an expected field is missing. *)
Definition missing_expected_field (a : Agent) (w : World) (k : nat) (prompt : JSValue)
    : Prop :=
  exists answer,
    answered_with a w k prompt answer /\
    (missing_on_the_way a answer \/ text_missing a answer).

Definition only_text_missing (a : Agent) (w : World) (k : nat) (prompt : JSValue)
    : Prop :=
  exists answer, answered_with a w k prompt answer /\ text_missing a answer.

(** A backend failure as the specification lists them: a transport-level
    error, a non-success status, a structurally malformed body. *)
Definition backend_failure (a : Agent) (w : World) (k : nat) (prompt : JSValue) : Prop :=
  call_rejected a w k prompt \/
  non_success_status a w k prompt \/
  body_not_json a w k prompt \/
  missing_expected_field a w k prompt.

(** The backend gave no value that can be read along the path: the call
    was rejected, the status is no success, the body is not JSON, or a
    property on the way is read from [undefined] or [null]. *)
Definition reading_fails (a : Agent) (w : World) (k : nat) (prompt : JSValue) : Prop :=
  call_rejected a w k prompt \/
  non_success_status a w k prompt \/
  body_not_json a w k prompt \/
  exists answer e, answered_with a w k prompt answer /\ follow (text_path a) answer = Throw e.

(** What the response to a message has to be, from the text of the
    message and the world alone, when the k-th call is the next one: the
    role and the content, path by path. *)
Inductive verdict (w : World) (k : nat) (text : jsstring) : jsstring -> JSValue -> Prop :=
| not_json (e : JSError) :
    JSON_parse text = Throw e ->
    verdict w k text (js "error") (Val (JStr (failed_to_process (err_message e))))
| not_readable (message : json) (e : JSError) :
    JSON_parse text = Normal message ->
    Get (Val message) (js "agent") = Throw e ->
    verdict w k text (js "error") (Val (JStr (failed_to_process (err_message e))))
| not_complete (message : json) (agent prompt : JSValue) :
    JSON_parse text = Normal message ->
    Get (Val message) (js "agent") = Normal agent ->
    Get (Val message) (js "prompt") = Normal prompt ->
    ToBoolean agent && ToBoolean prompt = false ->
    verdict w k text (js "error") (Val (JStr invalid_format))
| not_supported (message : json) (agent prompt : JSValue) :
    JSON_parse text = Normal message ->
    Get (Val message) (js "agent") = Normal agent ->
    Get (Val message) (js "prompt") = Normal prompt ->
    ToBoolean agent && ToBoolean prompt = true ->
    (forall a, agent <> Val (JStr (agent_name a))) ->
    verdict w k text (js "error")
      (Val (JStr (failed_to_process
                    match ToString agent with
                    | Normal shown => unsupported_agent shown
                    | Throw e => err_message e
                    end)))
| backend_failed (message : json) (a : Agent) (prompt : JSValue) :
    JSON_parse text = Normal message ->
    Get (Val message) (js "agent") = Normal (Val (JStr (agent_name a))) ->
    Get (Val message) (js "prompt") = Normal prompt ->
    ToBoolean prompt = true ->
    reading_fails a w k prompt ->
    verdict w k text (js "error") (Val (JStr (failed_to_process (adapter_failure a))))
| backend_answered (message : json) (a : Agent) (prompt answer v : JSValue) :
    JSON_parse text = Normal message ->
    Get (Val message) (js "agent") = Normal (Val (JStr (agent_name a))) ->
    Get (Val message) (js "prompt") = Normal prompt ->
    ToBoolean prompt = true ->
    answered_with a w k prompt answer ->
    follow (text_path a) answer = Normal v ->
    verdict w k text (js "assistant") v.

(** A write that was dropped: the listener ends normally and the outbox
    is as it was. *)
Definition silently_dropped (w : World) (data : MessageData) (s : Session) : Prop :=
  exists s', onMessage w data s = (Normal tt, s') /\ outbox s' = outbox s.

(** ** Outbound responses on the wire *)

Inductive Role := Assistant | Failure.

Definition role_name (r : Role) : jsstring :=
  match r with
  | Assistant => js "assistant"
  | Failure => js "error"
  end.

(** A canonical response: an identifier, a role, a text. *)
Record OutboundResponse := mkOutbound {
  resp_id : jsstring;
  resp_role : Role;
  resp_content : jsstring
}.

Definition encode (r : OutboundResponse) : jsstring :=
  response_frame (resp_id r) (role_name (resp_role r)) (Val (JStr (resp_content r))).

(** Modelled from the spec: the reader of an outbound frame, which is the
    client side of the wire protocol and is not among the sources.  It
    parses the frame and takes [id], [role] and [content] from it, all
    three strings, the role one of [assistant] and [error]. *)
Definition decode (frame : jsstring) : option OutboundResponse :=
  match JSON_parse frame with
  | Throw _ => None
  | Normal message =>
      match Get (Val message) (js "id"),
            Get (Val message) (js "role"),
            Get (Val message) (js "content") with
      | Normal (Val (JStr i)), Normal (Val (JStr r)), Normal (Val (JStr c)) =>
          if eqb_string r (js "assistant") then Some (mkOutbound i Assistant c)
          else if eqb_string r (js "error") then Some (mkOutbound i Failure c)
          else None
      | _, _, _ => None
      end
  end.

End Session.

(** ** The rest of the worker

    [ChatSession.fetch], which answers the upgrade request; the chat
    route of [index.ts], which picks the session a request goes to; and
    the first version of the session, which echoes. *)

Section Worker.

Context {E : Engine}.

Notation "x <- m ;; k" := (bind m (fun x => k))
  (at level 61, m at next level, right associativity).

(** A header name is compared without regard to the case of its ASCII
    letters. *)
Definition lower (c : code_unit) : code_unit :=
  if ((65 <=? c) && (c <=? 90))%N then (c + 32)%N else c.

Definition lower_string (s : jsstring) : jsstring := map lower s.

(** [headers.get(name)]: the values of the headers of that name, in
    order, joined by a comma and a space; [null] when there is none.
    [headers] is the list as the [Headers] object of the request holds it:
    its values are already stripped of the white space around them. *)
Fixpoint values_of (name : jsstring) (headers : list (jsstring * jsstring))
    : list jsstring :=
  match headers with
  | [] => []
  | (n, v) :: rest =>
      if eqb_string (lower_string n) (lower_string name)
      then v :: values_of name rest
      else values_of name rest
  end.

Fixpoint join_values (values : list jsstring) : jsstring :=
  match values with
  | [] => []
  | [v] => v
  | v :: rest => v ++ js ", " ++ join_values rest
  end.

Definition Headers_get (headers : list (jsstring * jsstring)) (name : jsstring)
    : option jsstring :=
  match values_of name headers with
  | [] => None
  | values => Some (join_values values)
  end.

(** What [fetch] answers: 101 with the client end of a new connection,
    whose server end is accepted and has its listeners, or a plain
    response. *)
Inductive HttpAnswer :=
| Switching (connection : Session)
| Plain (status : N) (text : jsstring).

(** [ChatSession.fetch(request)] *)
Definition ChatSession_fetch (headers : list (jsstring * jsstring)) : HttpAnswer :=
  match Headers_get headers (js "Upgrade") with
  | Some value =>
      if eqb_string value (js "websocket") then Switching fresh
      else Plain 200 (js "Chat session active")
  | None => Plain 200 (js "Chat session active")
  end.

(** The chat route of [index.ts]:
    [c.req.query('id') || crypto.randomUUID()] names the Durable Object
    the request is forwarded to.  [drawn] counts the identifiers the
    worker has drawn. *)
Definition session_name (ids : nat -> jsstring) (query_id : option jsstring)
    (drawn : nat) : jsstring * nat :=
  match query_id with
  | Some (c :: rest) => (c :: rest, drawn)
  | _ => (ids drawn, S drawn)
  end.

(** The failures of the HTTP adapters on a status that is no success:
    the message of the error thrown inside the [try] block. *)
Definition status_report (a : Agent) (response : HttpResponse) (text : jsstring)
    : jsstring :=
  match a with
  | Cloudflare => []
  | OpenAI =>
      js "OpenAI API responded with status " ++ decimal (status response)
      ++ js ": " ++ text
  | Gemini =>
      js "Gemini API responded with status " ++ decimal (status response)
      ++ js ": " ++ text
  end.

(** The frames of a conversation: the k-th carries the k-th identifier. *)
Fixpoint numbered_frames (w : World) (k : nat) (answers : list (jsstring * JSValue))
    : list jsstring :=
  match answers with
  | [] => []
  | (role, content) :: rest =>
      response_frame (uuid_source w k) role content :: numbered_frames w (S k) rest
  end.

(** The same world with other API keys. *)
Definition with_keys (w : World) (openai gemini : jsstring) : World :=
  mkWorld openai gemini (uuid_source w) (AI_answer w) (fetch_answer w)
          (client_leaves w) (send_when_closed w).

(** Two sessions that differ at most in which calls they issued, not in
    how many. *)
Record same_but_calls (s1 s2 : Session) : Prop := mkSame {
  same_socket' : socket s1 = socket s2;
  same_outbox' : outbox s1 = outbox s2;
  same_console' : console s1 = console s2;
  same_uuids' : uuids s1 = uuids s2;
  same_unhandled' : unhandled s1 = unhandled s2;
  same_count : List.length (calls s1) = List.length (calls s2)
}.

End Worker.

(** The first version of the session: [generate] echoes the prompt, and
    the listener has no [try]. *)
Module Echo.

Section Echo.

Context {E : Engine}.

Notation "x <- m ;; k" := (bind m (fun x => k))
  (at level 61, m at next level, right associativity).

(** [generate(prompt)]: the template literal applies [ToString] to what
    the event carried. *)
Definition generate (prompt : MessageData) : M jsstring :=
  ret (js "You said: " ++ data_text prompt).

Definition onMessage (w : World) (data : MessageData) : M unit :=
  response <- generate data ;;
  id <- randomUUID w ;;
  send w (response_frame id (js "assistant") (Val (JStr response))).

End Echo.

End Echo.

(** ** Messages that overlap

    The listener is an [async] function.  It runs by itself up to
    [await this.generate(message)], where the adapter has issued its call
    and waits for the answer; the rest of it runs when the answer is
    there.  In between the session takes other events: further messages,
    the answers to other calls, the client going away.  The answer to
    [fetch] and the body of the response are awaited one after the other;
    the adapter touches nothing of the session in between, so the two
    waits are taken as one.  Answers arrive one at a time. *)

Section Overlap.

Context {E : Engine}.

Notation "x <- m ;; k" := (bind m (fun x => k))
  (at level 61, m at next level, right associativity).

(** A listener that waits: the adapter it is in, the prompt, and the
    number of its call. *)
Record Task := mkTask {
  task_agent : Agent;
  task_prompt : JSValue;
  task_call : nat
}.

(** An adapter up to its [await]: the call is issued. *)
Definition issue (a : Agent) (w : World) (prompt : JSValue) : M Task :=
  fun s =>
    (Normal (mkTask a prompt (List.length (calls s))),
     mkSession (socket s) (outbox s) (console s) (uuids s)
               (calls s ++ [adapter_call a w prompt]) (unhandled s)).

(** [generate(message)] up to there. *)
Definition route (w : World) (message : JSValue) : M Task :=
  agent <- lift (Get message (js "agent")) ;;
  if StrictEqualsString agent (js "cloudflare") then
    prompt <- lift (Get message (js "prompt")) ;;
    issue Cloudflare w prompt
  else if StrictEqualsString agent (js "openai") then
    prompt <- lift (Get message (js "prompt")) ;;
    issue OpenAI w prompt
  else if StrictEqualsString agent (js "gemini") then
    prompt <- lift (Get message (js "prompt")) ;;
    issue Gemini w prompt
  else
    shown <- lift (ToString agent) ;;
    throw (Error (unsupported_agent shown)).

(** The listener up to there: it has answered by itself, or it waits. *)
Definition listener_begins (w : World) (data : MessageData) : M (option Task) :=
  try_catch
    (message <- lift (JSON_parse (data_text data)) ;;
     rejected <- lift (incomplete (Val message)) ;;
     if (rejected : bool) then
       id <- randomUUID w ;;
       _ <- send w (response_frame id (js "error") (Val (JStr invalid_format))) ;;
       ret None
     else
       task <- route w (Val message) ;;
       ret (Some task))
    (fun err =>
       _ <- console_error (js "Error processing WebSocket message:") (Some err) ;;
       id <- randomUUID w ;;
       _ <- send w (response_frame id (js "error")
                      (Val (JStr (failed_to_process (err_message err))))) ;;
       ret None).

(** The adapter from its [await] on: the rest of its [try] block, on the
    answer to its call, and its [catch]. *)
Definition adapter_resumes (w : World) (t : Task) : M JSValue :=
  try_catch
    (lift (backend_reading (task_agent t) w (task_call t) (task_prompt t)))
    (fun err =>
       _ <- console_error (adapter_label (task_agent t)) (Some err) ;;
       throw (Error (adapter_failure (task_agent t)))).

(** The listener from [await this.generate(message)] on. *)
Definition listener_resumes (w : World) (t : Task) : M unit :=
  try_catch
    (response <- adapter_resumes w t ;;
     id <- randomUUID w ;;
     send w (response_frame id (js "assistant") response))
    (fun err =>
       _ <- console_error (js "Error processing WebSocket message:") (Some err) ;;
       id <- randomUUID w ;;
       send w (response_frame id (js "error")
                 (Val (JStr (failed_to_process (err_message err)))))).

(** A listener that needed no backend is at its end. *)
Definition on_its_own (r : Completion unit * Session)
    : Completion (option Task) * Session :=
  match r with
  | (Normal _, s) => (Normal None, s)
  | (Throw e, s) => (Throw e, s)
  end.

(** What happens to a session: a message arrives, the backend answers
    the i-th of the calls still pending, the client leaves. *)
Inductive Step :=
| Arrives (data : MessageData)
| Answers (i : nat)
| Leaves.

Record Conversation := mkConversation {
  session : Session;
  pending : list Task
}.

Fixpoint remove_nth {A : Type} (i : nat) (l : list A) : list A :=
  match l, i with
  | [], _ => []
  | _ :: rest, O => rest
  | x :: rest, S i' => x :: remove_nth i' rest
  end.

Definition step (w : World) (c : Conversation) (ev : Step) : Conversation :=
  match ev with
  | Arrives data =>
      match socket (session c) with
      | Closed => c
      | Open =>
          match listener_begins w data (session c) with
          | (Normal (Some t), s) => mkConversation s (pending c ++ [t])
          | (Normal None, s) => mkConversation s (pending c)
          | (Throw e, s) => mkConversation (escaped e s) (pending c)
          end
      end
  | Answers i =>
      match nth_error (pending c) i with
      | Some t =>
          mkConversation (settle (listener_resumes w t (session c)))
                         (remove_nth i (pending c))
      | None => c
      end
  | Leaves => mkConversation (close_socket (settle (onClose (session c)))) (pending c)
  end.

Definition interleave (w : World) (c : Conversation) (steps : list Step) : Conversation :=
  fold_left (step w) steps c.

(** The messages among the steps. *)
Fixpoint arrivals (steps : list Step) : nat :=
  match steps with
  | [] => 0
  | Arrives _ :: rest => S (arrivals rest)
  | _ :: rest => arrivals rest
  end.

(** The schedule in which every call is answered before the next message
    arrives. *)
Definition one_by_one (datas : list MessageData) : list Step :=
  flat_map (fun data => [Arrives data; Answers 0]) datas.

End Overlap.

(** ** Sample worlds, for the examples *)

Definition quoted (s : jsstring) : jsstring := dq ++ s ++ dq.

(** The text [{ agent: <agent>, prompt: <prompt> }], both given as JSON. *)
Definition wire_message (agent prompt : jsstring) : MessageData :=
  TextData (js "{" ++ quoted (js "agent") ++ js ":" ++ agent ++ js ","
            ++ quoted (js "prompt") ++ js ":" ++ prompt ++ js "}").

Definition sample_ids (k : nat) : jsstring := js "id-" ++ decimal (N.of_nat k).

Definition hello_answer : JSValue (E := SampleEngine) :=
  Val (JObj [(js "response", JStr (js "hello"))]).

Definition sample_world
    (answers : nat -> HttpRequest -> Completion HttpResponse)
    (leaves : nat -> bool) (closed_send : ClosedSend) : World (E := SampleEngine) :=
  mkWorld (E := SampleEngine) (js "sk-test") (js "g-test") sample_ids
          (fun _ _ _ => Normal hello_answer) answers leaves closed_send.

(** Workers AI answers [hello]; every HTTP provider answers 500. *)
Definition calm : World (E := SampleEngine) :=
  sample_world (fun _ _ => Normal (mkResponse 500 (Normal (js "upstream exploded"))))
               (fun _ => false) Discards.

Definition other_body : nat -> HttpRequest -> Completion HttpResponse :=
  fun _ _ => Normal (mkResponse 500 (Normal (js "secret stack trace"))).

(** The HTTP provider answers 200 with [{ choices: [{ message: {} }] }]:
    the message has no [content]. *)
Definition headless : World (E := SampleEngine) :=
  sample_world
    (fun _ _ => Normal (mkResponse 200
       (Normal (js "{" ++ quoted (js "choices") ++ js ":[{" ++ quoted (js "message")
                ++ js ":{}}]}"))))
    (fun _ => false) Discards.

(** The HTTP provider answers 200 with a body that is not JSON. *)
Definition garbled : World (E := SampleEngine) :=
  sample_world (fun _ _ => Normal (mkResponse 200 (Normal (js "<html>"))))
               (fun _ => false) Discards.

(** The client leaves during the first backend call; [send] then raises,
    as the Workers runtime does once the connection was closed. *)
Definition after_close : JSError :=
  mkError TypeError (js "Can't call WebSocket send() after close().").

Definition abrupt : World (E := SampleEngine) :=
  sample_world (fun _ _ => Normal (mkResponse 500 (Normal (js "upstream exploded"))))
               (fun k => Nat.eqb k 0) (Raises after_close).

(** The client leaves during the first backend call; [send] then discards
    the frame. *)
Definition departed : World (E := SampleEngine) :=
  sample_world (fun _ _ => Normal (mkResponse 500 (Normal (js "upstream exploded"))))
               (fun k => Nat.eqb k 0) Discards.

Definition hi_cloudflare : MessageData := wire_message (quoted (js "cloudflare")) (quoted (js "hi")).
Definition hi_openai : MessageData := wire_message (quoted (js "openai")) (quoted (js "hi")).
Definition hi_bogus : MessageData := wire_message (quoted (js "bogus")) (quoted (js "hi")).
Definition hi_nobody : MessageData :=
  TextData (js "{" ++ quoted (js "prompt") ++ js ":" ++ quoted (js "hi") ++ js "}").
Definition list_openai : MessageData := wire_message (quoted (js "openai")) (js "[1]").

(** A session that has just been opened. *)
Definition start : Session (E := SampleEngine) := fresh.

Definition hi : JSValue (E := SampleEngine) := Val (JStr (js "hi")).

(** What the sample messages parse to. *)
Definition parsed_hi (agent : jsstring) : json (E := SampleEngine) :=
  JObj [(js "agent", JStr agent); (js "prompt", JStr (js "hi"))].

Definition parsed_nobody : json (E := SampleEngine) :=
  JObj [(js "prompt", JStr (js "hi"))].

Definition one : json (E := SampleEngine) :=
  JNum (E := SampleEngine) (read_token (js "1")).

Definition parsed_list : json (E := SampleEngine) :=
  JObj [(js "agent", JStr (js "openai")); (js "prompt", JArr [one])].

(** More sample data. *)
Definition list_agent : MessageData :=
  wire_message (js "[" ++ quoted (js "openai") ++ js "]") (quoted (js "hi")).

Definition parsed_list_agent : json (E := SampleEngine) :=
  JObj [(js "agent", JArr [JStr (js "openai")]); (js "prompt", JStr (js "hi"))].

Definition bare_list : MessageData := TextData (js "[1]").

Definition three_bytes : MessageData := BinaryData [1; 2; 3]%N.

(** The HTTP provider answers 204 with an empty body. *)
Definition no_content : World (E := SampleEngine) :=
  sample_world (fun _ _ => Normal (mkResponse 204 (Normal [])))
               (fun _ => false) Discards.

(** Workers AI resolves to [null]. *)
Definition null_answer : World (E := SampleEngine) :=
  mkWorld (E := SampleEngine) (js "sk-test") (js "g-test") sample_ids
          (fun _ _ _ => Normal (Val JNull))
          (fun _ _ => Normal (mkResponse 500 (Normal (js "upstream exploded"))))
          (fun _ => false) Discards.

(** The HTTP provider answers 200 with [{ choices: [] }]: there is no
    first choice to read [message] from. *)
Definition hollow : World (E := SampleEngine) :=
  sample_world
    (fun _ _ => Normal (mkResponse 200
       (Normal (js "{" ++ quoted (js "choices") ++ js ":[]}"))))
    (fun _ => false) Discards.

(** The HTTP provider answers 200 with
    [{ choices: [{ message: { content: hello } }] }]. *)
Definition fluent : World (E := SampleEngine) :=
  sample_world
    (fun _ _ => Normal (mkResponse 200
       (Normal (js "{" ++ quoted (js "choices") ++ js ":[{" ++ quoted (js "message")
                ++ js ":{" ++ quoted (js "content") ++ js ":" ++ quoted (js "hello")
                ++ js "}}]}"))))
    (fun _ => false) Discards.

(** What the bodies of these answers parse to. *)
Definition headless_answer : json (E := SampleEngine) :=
  JObj [(js "choices", JArr [JObj [(js "message", JObj [])]])].

Definition hollow_answer : json (E := SampleEngine) :=
  JObj [(js "choices", JArr [])].

Definition fluent_answer : json (E := SampleEngine) :=
  JObj [(js "choices",
         JArr [JObj [(js "message", JObj [(js "content", JStr (js "hello"))])]])].

(** * Properties *)

Unset Implicit Arguments.

Section Proofs.

Context {E : Engine}.

(** Reading past a character that is known. *)
Ltac lex := cbn [skip_ws is_ws N.eqb Pos.eqb orb].

Lemma eqb_string_refl (a : jsstring) : eqb_string a a = true.
Proof.
  induction a as [|x a IH]; simpl; [reflexivity|].
  now rewrite N.eqb_refl.
Qed.

Lemma eqb_string_eq (a b : jsstring) : eqb_string a b = true <-> a = b.
Proof.
  split.
  - revert b; induction a as [|x a IH]; intros [|y b]; simpl; try discriminate; auto.
    intros H; apply andb_true_iff in H as [H1 H2].
    apply N.eqb_eq in H1; subst; f_equal; auto.
  - intros ->; apply eqb_string_refl.
Qed.

Lemma eqb_string_neq (a b : jsstring) : eqb_string a b = false <-> a <> b.
Proof.
  split.
  - intros H Heq; apply eqb_string_eq in Heq; congruence.
  - intros H; destruct (eqb_string a b) eqn:Heq; [|reflexivity].
    apply eqb_string_eq in Heq; contradiction.
Qed.

(** ** Strings on the wire

    Reading back what [QuoteJSONString] wrote. *)

Lemma hex_digit_value (d : N) : (d < 16)%N -> hex_value (hex_digit d) = Some d.
Proof.
  intros H.
  assert (d = 0 \/ d = 1 \/ d = 2 \/ d = 3 \/ d = 4 \/ d = 5 \/ d = 6 \/ d = 7 \/
          d = 8 \/ d = 9 \/ d = 10 \/ d = 11 \/ d = 12 \/ d = 13 \/ d = 14 \/
          d = 15)%N as Hd by lia.
  repeat (destruct Hd as [->|Hd]; [reflexivity|]). subst; reflexivity.
Qed.

Lemma hex4_digits (c : code_unit) :
  (c < 65536)%N ->
  hex4 (hex_digit ((c / 4096) mod 16)) (hex_digit ((c / 256) mod 16))
       (hex_digit ((c / 16) mod 16)) (hex_digit (c mod 16)) = Some c.
Proof.
  intros H. unfold hex4.
  rewrite !hex_digit_value by (apply N.mod_lt; discriminate).
  f_equal.
  pose proof (N.div_mod c 16 ltac:(discriminate)) as H0.
  pose proof (N.div_mod (c / 16) 16 ltac:(discriminate)) as H1.
  pose proof (N.div_mod (c / 16 / 16) 16 ltac:(discriminate)) as H2.
  rewrite !N.Div0.div_div in H1, H2.
  change (16 * 16)%N with 256%N in *.
  rewrite N.Div0.div_div in H2.
  change (256 * 16)%N with 4096%N in *.
  assert (c / 4096 < 16)%N as H3
    by (apply N.Div0.div_lt_upper_bound; exact H).
  rewrite (N.mod_small (c / 4096) 16) by exact H3.
  lia.
Qed.

Lemma parse_chars_escape (c : code_unit) (tail : jsstring) :
  (c < 65536)%N ->
  parse_chars (UnicodeEscape c ++ tail) =
  match parse_chars tail with
  | Some (t, r) => Some (c :: t, r)
  | None => None
  end.
Proof.
  intros H. unfold UnicodeEscape.
  cbn [app parse_chars N.eqb Pos.eqb].
  rewrite (hex4_digits c H). reflexivity.
Qed.

Lemma parse_chars_plain (c : code_unit) (tail : jsstring) :
  (c =? 34)%N = false -> (c =? 92)%N = false -> (c <? 32)%N = false ->
  parse_chars (c :: tail) =
  match parse_chars tail with
  | Some (t, r) => Some (c :: t, r)
  | None => None
  end.
Proof. intros H1 H2 H3. cbn [parse_chars]. now rewrite H1, H2, H3. Qed.

Lemma parse_chars_unit (c : code_unit) (tail : jsstring) :
  is_lead c = false ->
  parse_chars (quote_unit c ++ tail) =
  match parse_chars tail with
  | Some (t, r) => Some (c :: t, r)
  | None => None
  end.
Proof.
  intros Hlead. unfold quote_unit.
  destruct (c =? 8)%N eqn:H8; [apply N.eqb_eq in H8; subst; reflexivity|].
  destruct (c =? 9)%N eqn:H9; [apply N.eqb_eq in H9; subst; reflexivity|].
  destruct (c =? 10)%N eqn:H10; [apply N.eqb_eq in H10; subst; reflexivity|].
  destruct (c =? 12)%N eqn:H12; [apply N.eqb_eq in H12; subst; reflexivity|].
  destruct (c =? 13)%N eqn:H13; [apply N.eqb_eq in H13; subst; reflexivity|].
  destruct (c =? 34)%N eqn:H34; [apply N.eqb_eq in H34; subst; reflexivity|].
  destruct (c =? 92)%N eqn:H92; [apply N.eqb_eq in H92; subst; reflexivity|].
  rewrite Hlead.
  destruct (c <? 32)%N eqn:H32; simpl.
  - apply parse_chars_escape. apply N.ltb_lt in H32. lia.
  - destruct (is_trail c) eqn:Ht.
    + apply parse_chars_escape. unfold is_trail in Ht.
      apply andb_true_iff in Ht as [_ Ht]. apply N.leb_le in Ht. lia.
    + apply parse_chars_plain; assumption.
Qed.

Lemma surrogate_plain (c : code_unit) :
  (55296 <=? c)%N = true ->
  (c =? 34)%N = false /\ (c =? 92)%N = false /\ (c <? 32)%N = false.
Proof.
  intros H. apply N.leb_le in H.
  repeat split; [apply N.eqb_neq|apply N.eqb_neq|apply N.ltb_ge]; lia.
Qed.

(** The closing quotation mark ends the string, and the characters read
    up to it are the ones that were written. *)
Lemma parse_chars_quote (s tail : jsstring) :
  parse_chars (quote_chars s ++ 34%N :: tail) = Some (s, tail).
Proof.
  remember (List.length s) as n eqn:Hn.
  assert (List.length s <= n) as Hle by lia. clear Hn.
  revert s Hle. induction n as [|n IH]; intros s Hle.
  - destruct s; [reflexivity|simpl in Hle; lia].
  - destruct s as [|c rest]; [reflexivity|].
    simpl in Hle. cbn [quote_chars].
    destruct (is_lead c) eqn:Hlead.
    + assert ((55296 <=? c)%N = true /\ (c < 65536)%N) as [Hc Hc'].
      { unfold is_lead in Hlead. apply andb_true_iff in Hlead as [H1 H2].
        split; [exact H1|]. apply N.leb_le in H2. lia. }
      destruct rest as [|d rest'].
      * rewrite parse_chars_escape by exact Hc'. reflexivity.
      * destruct (is_trail d) eqn:Htrail.
        -- assert ((55296 <=? d)%N = true) as Hd.
           { unfold is_trail in Htrail. apply andb_true_iff in Htrail as [H1 _].
             apply N.leb_le in H1. apply N.leb_le. lia. }
           destruct (surrogate_plain c Hc) as (A1 & A2 & A3).
           destruct (surrogate_plain d Hd) as (B1 & B2 & B3).
           cbn [app].
           rewrite (parse_chars_plain c _ A1 A2 A3), (parse_chars_plain d _ B1 B2 B3).
           rewrite IH by (simpl in Hle; lia). reflexivity.
        -- rewrite <- app_assoc, parse_chars_escape by exact Hc'.
           rewrite IH by lia. reflexivity.
    + rewrite <- app_assoc, parse_chars_unit by exact Hlead.
      rewrite IH by lia. reflexivity.
Qed.

(** ** The parser

    It consumes what it reads, and [parse_fuel] is fuel enough. *)

Lemma skip_ws_length (s : jsstring) : List.length (skip_ws s) <= List.length s.
Proof.
  induction s as [|c s IH]; simpl; [lia|].
  destruct (is_ws c); simpl; lia.
Qed.

Lemma parse_chars_length (s t r : jsstring) :
  parse_chars s = Some (t, r) -> List.length r < List.length s.
Proof.
  remember (List.length s) as n eqn:Hn.
  assert (List.length s <= n) as Hle by lia. rewrite Hn. clear Hn.
  revert s t r Hle. induction n as [|n IH]; intros s t r Hle H.
  - destruct s; [discriminate H|simpl in Hle; lia].
  - destruct s as [|c rest]; [discriminate H|].
    simpl in Hle. cbn [parse_chars] in H.
    destruct (c =? 34)%N.
    { injection H as _ <-. simpl. lia. }
    destruct (c =? 92)%N.
    { destruct rest as [|e rest1]; [discriminate H|].
      destruct (e =? 117)%N.
      - destruct rest1 as [|h1 [|h2 [|h3 [|h4 rest2]]]]; try discriminate H.
        destruct (hex4 h1 h2 h3 h4); [|discriminate H].
        destruct (parse_chars rest2) as [[t' r']|] eqn:Hrec; [|discriminate H].
        injection H as _ <-. apply IH in Hrec; simpl in *; lia.
      - destruct (simple_escape e); [|discriminate H].
        destruct (parse_chars rest1) as [[t' r']|] eqn:Hrec; [|discriminate H].
        injection H as _ <-. apply IH in Hrec; simpl in *; lia. }
    destruct (c <? 32)%N; [discriminate H|].
    destruct (parse_chars rest) as [[t' r']|] eqn:Hrec; [|discriminate H].
    injection H as _ <-. apply IH in Hrec; simpl in *; lia.
Qed.

Lemma span_digits_length (s ds r : jsstring) :
  span_digits s = (ds, r) -> List.length r <= List.length s.
Proof.
  revert ds r. induction s as [|c s IH]; intros ds r H; simpl in H.
  - injection H as _ <-. simpl; lia.
  - destruct (is_digit c).
    + destruct (span_digits s) as [ds' r'] eqn:Hrec.
      injection H as _ <-. specialize (IH _ _ eq_refl). simpl; lia.
    + injection H as _ <-. simpl; lia.
Qed.

Lemma scan_int_length (s i r : jsstring) :
  scan_int s = Some (i, r) -> List.length r < List.length s.
Proof.
  unfold scan_int. destruct s as [|c rest]; [discriminate|].
  destruct (c =? 48)%N.
  - intros H; injection H as _ <-. simpl; lia.
  - destruct (is_digit c); [|discriminate].
    destruct (span_digits rest) as [ds r'] eqn:Hs.
    intros H; injection H as _ <-. apply span_digits_length in Hs. simpl; lia.
Qed.

Lemma scan_frac_length (s f r : jsstring) :
  scan_frac s = Some (f, r) -> List.length r <= List.length s.
Proof.
  unfold scan_frac. destruct s as [|c rest].
  - intros H; injection H as _ <-. lia.
  - destruct c as [|p]; [intros H; injection H as _ <-; lia|].
    repeat (destruct p as [p|p|]; try (intros H; injection H as _ <-; lia)).
    destruct (span_digits rest) as [[|d ds] r'] eqn:Hs; [discriminate|].
    intros H; injection H as _ <-. apply span_digits_length in Hs. simpl; lia.
Qed.

Lemma scan_exp_length (s e r : jsstring) :
  scan_exp s = Some (e, r) -> List.length r <= List.length s.
Proof.
  unfold scan_exp. destruct s as [|c rest].
  - intros H; injection H as _ <-. lia.
  - destruct ((c =? 101) || (c =? 69))%N.
    + destruct rest as [|d rest'].
      * simpl. discriminate.
      * destruct ((d =? 43) || (d =? 45))%N.
        -- destruct (span_digits rest') as [[|x ds] r'] eqn:Hs; [discriminate|].
           intros H; injection H as _ <-. apply span_digits_length in Hs. simpl; lia.
        -- destruct (span_digits (d :: rest')) as [[|x ds] r'] eqn:Hs; [discriminate|].
           intros H; injection H as _ <-. apply span_digits_length in Hs. simpl in *; lia.
    + intros H; injection H as _ <-. lia.
Qed.

Lemma scan_number_length (s tok r : jsstring) :
  scan_number s = Some (tok, r) -> List.length r < List.length s.
Proof.
  unfold scan_number.
  assert (forall sign s1, List.length s1 <= List.length s ->
            match scan_int s1 with
            | Some (i, s2) =>
                match scan_frac s2 with
                | Some (f, s3) =>
                    match scan_exp s3 with
                    | Some (e, s4) => Some (sign ++ i ++ f ++ e, s4)
                    | None => None
                    end
                | None => None
                end
            | None => None
            end = Some (tok, r) -> List.length r < List.length s) as Hgen.
  { intros sign s1 Hle.
    destruct (scan_int s1) as [[i s2]|] eqn:H1; [|discriminate].
    destruct (scan_frac s2) as [[f s3]|] eqn:H2; [|discriminate].
    destruct (scan_exp s3) as [[e s4]|] eqn:H3; [|discriminate].
    intros H; injection H as _ <-.
    apply scan_int_length in H1. apply scan_frac_length in H2.
    apply scan_exp_length in H3. lia. }
  destruct s as [|c rest].
  - apply Hgen. lia.
  - destruct c as [|p]; [apply Hgen; lia|].
    repeat (destruct p as [p|p|]; try (apply Hgen; lia)).
    apply Hgen. simpl; lia.
Qed.

Lemma strip_prefix_length (p s r : jsstring) :
  strip_prefix p s = Some r -> List.length r + List.length p = List.length s.
Proof.
  revert s. induction p as [|x p IH]; intros s H; simpl in H.
  - injection H as <-. simpl; lia.
  - destruct s as [|y s]; [discriminate H|].
    destruct (x =? y)%N; [|discriminate H]. apply IH in H. simpl; lia.
Qed.



Lemma parse_string_length (s k r : jsstring) :
  parse_string s = Parsed k r -> List.length r < List.length s.
Proof.
  unfold parse_string. destruct s as [|c rest]; [discriminate|].
  destruct c as [|p]; [discriminate|].
  repeat (destruct p as [p|p|]; try discriminate).
  destruct (parse_chars rest) as [[t r']|] eqn:H; [|discriminate].
  intros H'; injection H' as _ <-. apply parse_chars_length in H. simpl; lia.
Qed.

Lemma parse_string_fuel (s : jsstring) : parse_string s <> OutOfFuel.
Proof.
  unfold parse_string. destruct s as [|c rest]; [discriminate|].
  destruct c as [|p]; [discriminate|].
  repeat (destruct p as [p|p|]; try discriminate).
  destruct (parse_chars rest) as [[t r']|]; discriminate.
Qed.

Lemma skip_ws_cons (s r : jsstring) (c : code_unit) :
  skip_ws s = c :: r -> List.length r < List.length s.
Proof. intros H. pose proof (skip_ws_length s) as L. rewrite H in L. simpl in L. lia. Qed.

Lemma parse_shrinks (fuel : nat) :
  (forall s, shrinks (parse_value fuel s) s) /\
  (forall s, shrinks (parse_elements fuel s) s) /\
  (forall s, shrinks (parse_members fuel s) s).
Proof.
  induction fuel as [|fuel (IHv & IHe & IHm)]; [repeat split; intros; exact I|].
  repeat split; intros s.
  - cbn [parse_value].
    destruct (skip_ws s) as [|c rest] eqn:Hs; [exact I|].
    apply skip_ws_cons in Hs.
    destruct (c =? 34)%N.
    { destruct (parse_chars rest) as [[t r]|] eqn:H; [|exact I].
      apply parse_chars_length in H. simpl; lia. }
    destruct (c =? 91)%N.
    { assert (shrinks (match parse_elements fuel rest with
                       | Parsed vs r => Parsed (JArr vs) r
                       | Malformed => Malformed
                       | OutOfFuel => OutOfFuel end) s) as Hrec.
      { specialize (IHe rest). destruct (parse_elements fuel rest); simpl in *; auto; lia. }
      destruct (skip_ws rest) as [|c1 r1] eqn:H1; [exact Hrec|].
      apply skip_ws_cons in H1.
      destruct c1 as [|p]; [exact Hrec|].
      repeat (destruct p as [p|p|]; try exact Hrec). simpl; lia. }
    destruct (c =? 123)%N.
    { assert (shrinks (match parse_members fuel rest with
                       | Parsed kvs r => Parsed (JObj (fold_left CreateDataProperty kvs [])) r
                       | Malformed => Malformed
                       | OutOfFuel => OutOfFuel end) s) as Hrec.
      { specialize (IHm rest). destruct (parse_members fuel rest); simpl in *; auto; lia. }
      destruct (skip_ws rest) as [|c1 r1] eqn:H1; [exact Hrec|].
      apply skip_ws_cons in H1.
      destruct c1 as [|p]; [exact Hrec|].
      repeat (destruct p as [p|p|]; try exact Hrec). simpl; lia. }
    destruct (c =? 116)%N.
    { destruct (strip_prefix (js "true") (c :: rest)) eqn:H; [|exact I].
      apply strip_prefix_length in H. simpl in *; lia. }
    destruct (c =? 102)%N.
    { destruct (strip_prefix (js "false") (c :: rest)) eqn:H; [|exact I].
      apply strip_prefix_length in H. simpl in *; lia. }
    destruct (c =? 110)%N.
    { destruct (strip_prefix (js "null") (c :: rest)) eqn:H; [|exact I].
      apply strip_prefix_length in H. simpl in *; lia. }
    destruct (scan_number (c :: rest)) as [[tok r]|] eqn:H; [|exact I].
    apply scan_number_length in H. simpl in *; lia.
  - cbn [parse_elements].
    pose proof (IHv s) as Hv.
    destruct (parse_value fuel s) as [v r| |]; [|exact I|exact I].
    simpl in Hv.
    destruct (skip_ws r) as [|c1 r1] eqn:H1; [exact I|].
    apply skip_ws_cons in H1.
    assert (shrinks (match parse_elements fuel r1 with
                     | Parsed vs r2 => Parsed (v :: vs) r2
                     | Malformed => Malformed
                     | OutOfFuel => OutOfFuel end) s) as Hrec.
    { specialize (IHe r1). destruct (parse_elements fuel r1); simpl in *; auto; lia. }
    destruct c1 as [|p]; [exact I|].
    repeat (destruct p as [p|p|]; try exact I); [simpl; lia|exact Hrec].
  - cbn [parse_members].
    destruct (parse_string (skip_ws s)) as [k r| |] eqn:Hk; [|exact I|exact I].
    apply parse_string_length in Hk. pose proof (skip_ws_length s) as Hs.
    destruct (skip_ws r) as [|c1 r1] eqn:H1; [exact I|].
    apply skip_ws_cons in H1.
    assert (shrinks (match parse_value fuel r1 with
         | Parsed v r2 =>
             match skip_ws r2 with
             | 44%N :: r3 =>
                 match parse_members fuel r3 with
                 | Parsed kvs r4 => Parsed ((k, v) :: kvs) r4
                 | Malformed => Malformed
                 | OutOfFuel => OutOfFuel
                 end
             | 125%N :: r3 => Parsed [(k, v)] r3
             | _ => Malformed
             end
         | Malformed => Malformed
         | OutOfFuel => OutOfFuel
         end) s) as Hrec.
    { pose proof (IHv r1) as Hv.
      destruct (parse_value fuel r1) as [v r2| |]; [|exact I|exact I].
      simpl in Hv.
      destruct (skip_ws r2) as [|c2 r3] eqn:H2; [exact I|].
      apply skip_ws_cons in H2.
      assert (shrinks (match parse_members fuel r3 with
                 | Parsed kvs r4 => Parsed ((k, v) :: kvs) r4
                 | Malformed => Malformed
                 | OutOfFuel => OutOfFuel
                 end) s) as Hrec.
      { specialize (IHm r3). destruct (parse_members fuel r3); simpl in *; auto; lia. }
      destruct c2 as [|p]; [exact I|].
      repeat (destruct p as [p|p|]; try exact I); [simpl; lia|exact Hrec]. }
    destruct c1 as [|p]; [exact I|].
    repeat (destruct p as [p|p|]; try exact I). exact Hrec.
Qed.


Lemma parse_answered (fuel : nat) :
  (forall s, 2 * List.length s + 1 <= fuel -> answered (parse_value fuel s)) /\
  (forall s, 2 * List.length s + 2 <= fuel -> answered (parse_elements fuel s)) /\
  (forall s, 2 * List.length s + 2 <= fuel -> answered (parse_members fuel s)).
Proof.
  induction fuel as [|fuel (IHv & IHe & IHm)]; [repeat split; intros; lia|].
  destruct (parse_shrinks fuel) as (Sv & Se & Sm).
  repeat split; intros s Hfuel.
  - cbn [parse_value].
    destruct (skip_ws s) as [|c rest] eqn:Hs; [exact I|].
    apply skip_ws_cons in Hs.
    destruct (c =? 34)%N.
    { destruct (parse_chars rest) as [[t r]|]; exact I. }
    destruct (c =? 91)%N.
    { assert (answered (match parse_elements fuel rest with
                       | Parsed vs r => Parsed (JArr vs) r
                       | Malformed => Malformed
                       | OutOfFuel => OutOfFuel end)) as Hrec.
      { specialize (IHe rest ltac:(lia)). destruct (parse_elements fuel rest); simpl in *; auto. }
      destruct (skip_ws rest) as [|c1 r1]; [exact Hrec|].
      destruct c1 as [|p]; [exact Hrec|].
      repeat (destruct p as [p|p|]; try exact Hrec). exact I. }
    destruct (c =? 123)%N.
    { assert (answered (match parse_members fuel rest with
                       | Parsed kvs r => Parsed (JObj (fold_left CreateDataProperty kvs [])) r
                       | Malformed => Malformed
                       | OutOfFuel => OutOfFuel end)) as Hrec.
      { specialize (IHm rest ltac:(lia)). destruct (parse_members fuel rest); simpl in *; auto. }
      destruct (skip_ws rest) as [|c1 r1]; [exact Hrec|].
      destruct c1 as [|p]; [exact Hrec|].
      repeat (destruct p as [p|p|]; try exact Hrec). exact I. }
    destruct (c =? 116)%N.
    { destruct (strip_prefix (js "true") (c :: rest)); exact I. }
    destruct (c =? 102)%N.
    { destruct (strip_prefix (js "false") (c :: rest)); exact I. }
    destruct (c =? 110)%N.
    { destruct (strip_prefix (js "null") (c :: rest)); exact I. }
    destruct (scan_number (c :: rest)) as [[tok r]|]; exact I.
  - cbn [parse_elements].
    pose proof (IHv s ltac:(lia)) as Hv. pose proof (Sv s) as Lv.
    destruct (parse_value fuel s) as [v r| |]; [|exact I|exact Hv].
    simpl in Lv.
    destruct (skip_ws r) as [|c1 r1] eqn:H1; [exact I|].
    apply skip_ws_cons in H1.
    assert (answered (match parse_elements fuel r1 with
                     | Parsed vs r2 => Parsed (v :: vs) r2
                     | Malformed => Malformed
                     | OutOfFuel => OutOfFuel end)) as Hrec.
    { specialize (IHe r1 ltac:(lia)). destruct (parse_elements fuel r1); simpl in *; auto. }
    destruct c1 as [|p]; [exact I|].
    repeat (destruct p as [p|p|]; try exact I). exact Hrec.
  - cbn [parse_members].
    pose proof (parse_string_fuel (skip_ws s)) as Hk0.
    destruct (parse_string (skip_ws s)) as [k r| |] eqn:Hk; [|exact I|congruence].
    apply parse_string_length in Hk. pose proof (skip_ws_length s) as Hs.
    destruct (skip_ws r) as [|c1 r1] eqn:H1; [exact I|].
    apply skip_ws_cons in H1.
    assert (answered (match parse_value fuel r1 with
         | Parsed v r2 =>
             match skip_ws r2 with
             | 44%N :: r3 =>
                 match parse_members fuel r3 with
                 | Parsed kvs r4 => Parsed ((k, v) :: kvs) r4
                 | Malformed => Malformed
                 | OutOfFuel => OutOfFuel
                 end
             | 125%N :: r3 => Parsed [(k, v)] r3
             | _ => Malformed
             end
         | Malformed => Malformed
         | OutOfFuel => OutOfFuel
         end)) as Hrec.
    { pose proof (IHv r1 ltac:(lia)) as Hv. pose proof (Sv r1) as Lv.
      destruct (parse_value fuel r1) as [v r2| |]; [|exact I|exact Hv].
      simpl in Lv.
      destruct (skip_ws r2) as [|c2 r3] eqn:H2; [exact I|].
      apply skip_ws_cons in H2.
      assert (answered (match parse_members fuel r3 with
                 | Parsed kvs r4 => Parsed ((k, v) :: kvs) r4
                 | Malformed => Malformed
                 | OutOfFuel => OutOfFuel
                 end)) as Hrec.
      { specialize (IHm r3 ltac:(lia)). destruct (parse_members fuel r3); simpl in *; auto. }
      destruct c2 as [|p]; [exact I|].
      repeat (destruct p as [p|p|]; try exact I). exact Hrec. }
    destruct c1 as [|p]; [exact I|].
    repeat (destruct p as [p|p|]; try exact I). exact Hrec.
Qed.

(** [JSON.parse] always has enough fuel. *)
Lemma parse_value_fuel (text : jsstring) :
  parse_value (parse_fuel text) text <> OutOfFuel.
Proof.
  destruct (parse_answered (parse_fuel text)) as (H & _ & _).
  specialize (H text ltac:(unfold parse_fuel; lia)).
  intros Heq. rewrite Heq in H. exact H.
Qed.

Lemma parse_value_S (fuel : nat) (s : jsstring) :
  parse_value (S fuel) s =
  match skip_ws s with
  | [] => Malformed
  | c :: rest =>
      if (c =? 34)%N then
        match parse_chars rest with
        | Some (t, r) => Parsed (JStr t) r
        | None => Malformed
        end
      else if (c =? 91)%N then
        match skip_ws rest with
        | 93%N :: r => Parsed (JArr []) r
        | _ =>
            match parse_elements fuel rest with
            | Parsed vs r => Parsed (JArr vs) r
            | Malformed => Malformed
            | OutOfFuel => OutOfFuel
            end
        end
      else if (c =? 123)%N then
        match skip_ws rest with
        | 125%N :: r => Parsed (JObj []) r
        | _ =>
            match parse_members fuel rest with
            | Parsed kvs r => Parsed (JObj (fold_left CreateDataProperty kvs [])) r
            | Malformed => Malformed
            | OutOfFuel => OutOfFuel
            end
        end
      else if (c =? 116)%N then
        match strip_prefix (js "true") (c :: rest) with
        | Some r => Parsed (JBool true) r
        | None => Malformed
        end
      else if (c =? 102)%N then
        match strip_prefix (js "false") (c :: rest) with
        | Some r => Parsed (JBool false) r
        | None => Malformed
        end
      else if (c =? 110)%N then
        match strip_prefix (js "null") (c :: rest) with
        | Some r => Parsed JNull r
        | None => Malformed
        end
      else
        match scan_number (c :: rest) with
        | Some (tok, r) => Parsed (JNum (StringToNumber tok)) r
        | None => Malformed
        end
  end.
Proof. reflexivity. Qed.

Lemma parse_elements_S (fuel : nat) (s : jsstring) :
  parse_elements (S fuel) s =
  match parse_value fuel s with
  | Parsed v r =>
      match skip_ws r with
      | 44%N :: r1 =>
          match parse_elements fuel r1 with
          | Parsed vs r2 => Parsed (v :: vs) r2
          | Malformed => Malformed
          | OutOfFuel => OutOfFuel
          end
      | 93%N :: r1 => Parsed [v] r1
      | _ => Malformed
      end
  | Malformed => Malformed
  | OutOfFuel => OutOfFuel
  end.
Proof. reflexivity. Qed.

Lemma parse_members_S (fuel : nat) (s : jsstring) :
  parse_members (S fuel) s =
  match parse_string (skip_ws s) with
  | Parsed k r =>
      match skip_ws r with
      | 58%N :: r1 =>
          match parse_value fuel r1 with
          | Parsed v r2 =>
              match skip_ws r2 with
              | 44%N :: r3 =>
                  match parse_members fuel r3 with
                  | Parsed kvs r4 => Parsed ((k, v) :: kvs) r4
                  | Malformed => Malformed
                  | OutOfFuel => OutOfFuel
                  end
              | 125%N :: r3 => Parsed [(k, v)] r3
              | _ => Malformed
              end
          | Malformed => Malformed
          | OutOfFuel => OutOfFuel
          end
      | _ => Malformed
      end
  | Malformed => Malformed
  | OutOfFuel => OutOfFuel
  end.
Proof. reflexivity. Qed.

Lemma answered_inner {A B} (res : parse_result A) (k : A -> jsstring -> parse_result B) :
  answered (match res with
            | Parsed a r => k a r
            | Malformed => Malformed
            | OutOfFuel => OutOfFuel
            end) ->
  answered res.
Proof. destruct res; simpl; auto. Qed.

(** More fuel does not change an answer. *)
Lemma parse_more_fuel (fuel : nat) :
  (forall s, answered (parse_value fuel s) -> parse_value (S fuel) s = parse_value fuel s) /\
  (forall s, answered (parse_elements fuel s) -> parse_elements (S fuel) s = parse_elements fuel s) /\
  (forall s, answered (parse_members fuel s) -> parse_members (S fuel) s = parse_members fuel s).
Proof.
  induction fuel as [|fuel (IHv & IHe & IHm)]; [repeat split; intros s []|].
  repeat split; intros s.
  - rewrite (parse_value_S (S fuel)), (parse_value_S fuel).
    destruct (skip_ws s) as [|c rest]; [reflexivity|].
    destruct (c =? 34)%N; [reflexivity|].
    destruct (c =? 91)%N.
    { assert (answered (match parse_elements fuel rest with
                       | Parsed vs r => Parsed (JArr vs) r
                       | Malformed => Malformed
                       | OutOfFuel => OutOfFuel end) ->
              match parse_elements (S fuel) rest with
                       | Parsed vs r => Parsed (JArr vs) r
                       | Malformed => Malformed
                       | OutOfFuel => OutOfFuel end =
              match parse_elements fuel rest with
                       | Parsed vs r => Parsed (JArr vs) r
                       | Malformed => Malformed
                       | OutOfFuel => OutOfFuel end) as Hrec.
      { intros Ha. apply answered_inner in Ha. now rewrite IHe. }
      destruct (skip_ws rest) as [|c1 r1]; [exact Hrec|].
      destruct c1 as [|p]; [exact Hrec|].
      repeat (destruct p as [p|p|]; try exact Hrec). reflexivity. }
    destruct (c =? 123)%N.
    { assert (answered (match parse_members fuel rest with
                       | Parsed kvs r => Parsed (JObj (fold_left CreateDataProperty kvs [])) r
                       | Malformed => Malformed
                       | OutOfFuel => OutOfFuel end) ->
              match parse_members (S fuel) rest with
                       | Parsed kvs r => Parsed (JObj (fold_left CreateDataProperty kvs [])) r
                       | Malformed => Malformed
                       | OutOfFuel => OutOfFuel end =
              match parse_members fuel rest with
                       | Parsed kvs r => Parsed (JObj (fold_left CreateDataProperty kvs [])) r
                       | Malformed => Malformed
                       | OutOfFuel => OutOfFuel end) as Hrec.
      { intros Ha. apply answered_inner in Ha. now rewrite IHm. }
      destruct (skip_ws rest) as [|c1 r1]; [exact Hrec|].
      destruct c1 as [|p]; [exact Hrec|].
      repeat (destruct p as [p|p|]; try exact Hrec). reflexivity. }
    reflexivity.
  - rewrite (parse_elements_S (S fuel)), (parse_elements_S fuel). intros Ha.
    rewrite IHv by (apply answered_inner in Ha; exact Ha).
    destruct (parse_value fuel s) as [v r| |]; [|reflexivity|reflexivity].
    destruct (skip_ws r) as [|c1 r1]; [reflexivity|].
    destruct c1 as [|p]; [reflexivity|].
    repeat (destruct p as [p|p|]; try reflexivity).
    apply answered_inner in Ha. now rewrite IHe.
  - rewrite (parse_members_S (S fuel)), (parse_members_S fuel). intros Ha.
    destruct (parse_string (skip_ws s)) as [k r| |]; [|reflexivity|reflexivity].
    destruct (skip_ws r) as [|c1 r1]; [reflexivity|].
    destruct c1 as [|p]; [reflexivity|].
    repeat (destruct p as [p|p|]; try reflexivity).
    rewrite IHv by (apply answered_inner in Ha; exact Ha).
    destruct (parse_value fuel r1) as [v r2| |]; [|reflexivity|reflexivity].
    destruct (skip_ws r2) as [|c2 r3]; [reflexivity|].
    destruct c2 as [|p]; [reflexivity|].
    repeat (destruct p as [p|p|]; try reflexivity).
    apply answered_inner in Ha. now rewrite IHm.
Qed.

(** Whatever fuel is given beyond [parse_fuel], the answer is the same. *)
Lemma parse_value_any_fuel (text : jsstring) (extra : nat) :
  parse_value (parse_fuel text + extra) text = parse_value (parse_fuel text) text.
Proof.
  induction extra as [|n IH]; [now rewrite Nat.add_0_r|].
  rewrite Nat.add_succ_r.
  destruct (parse_more_fuel (parse_fuel text + n)) as (H & _ & _).
  rewrite H; [exact IH|]. rewrite IH.
  pose proof (parse_value_fuel text) as Hf.
  destruct (parse_value (parse_fuel text) text); simpl; auto.
Qed.

(** ** Responses on the wire *)

Lemma parse_string_quote (s tail : jsstring) :
  parse_string (34%N :: quote_chars s ++ 34%N :: tail) = Parsed s tail.
Proof. unfold parse_string. now rewrite parse_chars_quote. Qed.

Lemma parse_value_quote (fuel : nat) (s tail : jsstring) :
  parse_value (S fuel) (34%N :: quote_chars s ++ 34%N :: tail) = Parsed (JStr s) tail.
Proof. cbn [parse_value]; lex. now rewrite parse_chars_quote. Qed.

Lemma parse_member_more (fuel : nat) (k v tail : jsstring) :
  parse_members (S (S fuel))
    (34%N :: quote_chars k ++ 34%N :: 58%N :: 34%N :: quote_chars v ++ 34%N :: 44%N :: tail) =
  match parse_members (S fuel) tail with
  | Parsed kvs r => Parsed ((k, JStr v) :: kvs) r
  | Malformed => Malformed
  | OutOfFuel => OutOfFuel
  end.
Proof.
  remember (S fuel) as f1 eqn:Hf. cbn [parse_members]; lex.
  rewrite parse_string_quote; lex. subst f1. rewrite parse_value_quote; lex.
  reflexivity.
Qed.

Lemma parse_member_last (fuel : nat) (k v tail : jsstring) :
  parse_members (S (S fuel))
    (34%N :: quote_chars k ++ 34%N :: 58%N :: 34%N :: quote_chars v ++ 34%N :: 125%N :: tail) =
  Parsed [(k, JStr v)] tail.
Proof.
  remember (S fuel) as f1 eqn:Hf. cbn [parse_members]; lex.
  rewrite parse_string_quote; lex. subst f1. rewrite parse_value_quote; lex.
  reflexivity.
Qed.

Lemma parse_frame (fuel : nat) (i r c : jsstring) :
  parse_value (S (S (S (S (S fuel))))) (response_frame i r (Val (JStr c))) =
  Parsed (JObj [(js "id", JStr i); (js "role", JStr r); (js "content", JStr c)]) [].
Proof.
  unfold response_frame. cbn [object_literal JSON_stringify QuoteJSONString].
  unfold QuoteJSONString, dq.
  repeat rewrite <- app_assoc.
  change (js "{") with [123%N]. change (js "}") with [125%N].
  change (js ":") with [58%N]. change (js ",") with [44%N].
  cbn [app].
  remember (S (S (S (S fuel)))) as f1 eqn:Hf.
  cbn [parse_value]; lex. subst f1.
  rewrite parse_member_more, parse_member_more, parse_member_last.
  reflexivity.
Qed.

Lemma frame_fuel (i r : jsstring) (content : JSValue) :
  exists fuel,
    parse_fuel (response_frame i r content) = S (S (S (S (S fuel)))).
Proof.
  unfold parse_fuel, response_frame. cbn [JSON_stringify].
  change (js "{") with [123%N]. change (js "}") with [125%N].
  rewrite !length_app. cbn [List.length].
  match goal with
  | |- exists fuel, 2 * (1 + (?n + 1)) + 1 = _ => exists (2 * n); lia
  end.
Qed.

(** A response with a text for content, parsed back. *)
Lemma JSON_parse_frame (i r c : jsstring) :
  JSON_parse (response_frame i r (Val (JStr c))) =
  Normal (JObj [(js "id", JStr i); (js "role", JStr r); (js "content", JStr c)]).
Proof.
  unfold JSON_parse.
  destruct (frame_fuel i r (Val (JStr c))) as [fuel ->].
  rewrite parse_frame. reflexivity.
Qed.

Lemma decode_encode (r : OutboundResponse) : decode (encode r) = Some r.
Proof.
  unfold decode, encode. rewrite JSON_parse_frame.
  destruct r as [i [] c]; reflexivity.
Qed.

(** ** The adapters and the router *)

(** An adapter issues its call once, and gives either what it read from
    the answer or its own error, after logging the one it caught. *)
Lemma adapter_equation (a : Agent) (w : World) (prompt : JSValue) (s : Session) :
  adapter a w prompt s =
  match backend_reading a w (List.length (calls s)) prompt with
  | Normal v => (Normal v, suspend w (adapter_call a w prompt) s)
  | Throw e =>
      (Throw (Error (adapter_failure a)),
       logged (ConsoleError (adapter_label a) (Some e))
              (suspend w (adapter_call a w prompt) s))
  end.
Proof.
  destruct a; simpl;
    unfold generateWithCloudflare, generateWithOpenAI, generateWithGemini,
      try_catch, bind, AI_run, fetch, lift, throw, console_error, logged.
  - destruct (AI_answer w (List.length (calls s)) cloudflare_model (cloudflare_input prompt));
      simpl; [|reflexivity].
    destruct (cloudflare_read a); reflexivity.
  - destruct (fetch_answer w (List.length (calls s)) (openai_request w prompt));
      simpl; [|reflexivity].
    destruct (openai_read a); reflexivity.
  - destruct (fetch_answer w (List.length (calls s)) (gemini_request w prompt));
      simpl; [|reflexivity].
    destruct (gemini_read a); reflexivity.
Qed.

Lemma agent_name_distinct (a b : Agent) :
  eqb_string (agent_name a) (agent_name b) = true -> a = b.
Proof. destruct a, b; simpl; intros H; try reflexivity; discriminate H. Qed.

(** The router on a supported agent. *)
Lemma generate_supported (a : Agent) (w : World) (message : JSValue) (s : Session) :
  Get message (js "agent") = Normal (Val (JStr (agent_name a))) ->
  generate w message s =
  match Get message (js "prompt") with
  | Normal prompt => adapter a w prompt s
  | Throw e => (Throw e, s)
  end.
Proof.
  intros H. unfold generate, bind, lift. rewrite H.
  destruct a; simpl; destruct (Get message (js "prompt")); reflexivity.
Qed.

(** The router on anything else. *)
Lemma generate_unsupported (w : World) (message agent : JSValue) (s : Session) :
  Get message (js "agent") = Normal agent ->
  (forall a, StrictEqualsString agent (agent_name a) = false) ->
  generate w message s =
  match ToString agent with
  | Normal shown => (Throw (Error (unsupported_agent shown)), s)
  | Throw e => (Throw e, s)
  end.
Proof.
  intros H Hno. unfold generate, bind, lift. rewrite H.
  pose proof (Hno Cloudflare) as H1. pose proof (Hno OpenAI) as H2.
  pose proof (Hno Gemini) as H3. simpl in H1, H2, H3.
  rewrite H1, H2, H3. destruct (ToString agent); reflexivity.
Qed.

Lemma supported_or_not (agent : JSValue) :
  (exists a, agent = Val (JStr (agent_name a))) \/
  (forall a, StrictEqualsString agent (agent_name a) = false).
Proof.
  destruct agent as [|[| | |t| |]]; try (right; intros []; reflexivity).
  destruct (eqb_string t (agent_name Cloudflare)) eqn:H1;
    [left; exists Cloudflare; apply eqb_string_eq in H1; now subst|].
  destruct (eqb_string t (agent_name OpenAI)) eqn:H2;
    [left; exists OpenAI; apply eqb_string_eq in H2; now subst|].
  destruct (eqb_string t (agent_name Gemini)) eqn:H3;
    [left; exists Gemini; apply eqb_string_eq in H3; now subst|].
  right; intros []; simpl; assumption.
Qed.

Lemma untouched_refl (w : World) (s : Session) : untouched w s s.
Proof. constructor; auto. Qed.

Lemma untouched_suspend (w : World) (c : BackendCall) (s : Session) :
  untouched w s (suspend w c s).
Proof.
  constructor; simpl; auto.
  - intros ->; reflexivity.
  - destruct (client_leaves w (List.length (calls s))); auto.
  - right; now exists c.
Qed.

Lemma untouched_logged (w : World) (entry : LogEntry) (s s1 : Session) :
  untouched w s s1 -> untouched w s (logged entry s1).
Proof. intros [? ? ? ? ? ?]; constructor; simpl; auto. Qed.

Lemma adapter_untouched (a : Agent) (w : World) (prompt : JSValue) (s : Session) :
  untouched w s (snd (adapter a w prompt s)).
Proof.
  rewrite adapter_equation.
  destruct (backend_reading a w (List.length (calls s)) prompt); simpl.
  - apply untouched_suspend.
  - apply untouched_logged, untouched_suspend.
Qed.

Lemma generate_untouched (w : World) (message : JSValue) (s : Session) :
  untouched w s (snd (generate w message s)).
Proof.
  destruct (Get message (js "agent")) as [agent|e] eqn:Hagent.
  - destruct (supported_or_not agent) as [[a ->]|Hno].
    + rewrite (generate_supported a w message s Hagent).
      destruct (Get message (js "prompt")); [apply adapter_untouched|apply untouched_refl].
    + rewrite (generate_unsupported w message agent s Hagent Hno).
      destruct (ToString agent); apply untouched_refl.
  - unfold generate, bind, lift. rewrite Hagent. apply untouched_refl.
Qed.

(** ** The listener *)

Lemma reply_open (w : World) (role : jsstring) (content : JSValue) (s : Session) :
  socket s = Open ->
  reply w role content s = (Normal tt, written w role content s).
Proof.
  intros H. unfold reply, bind, randomUUID, send, written. simpl. rewrite H.
  reflexivity.
Qed.

Lemma reply_closed (w : World) (role : jsstring) (content : JSValue) (s : Session) :
  socket s = Closed ->
  reply w role content s =
  match send_when_closed w with
  | Discards => (Normal tt, drawn s)
  | Raises e => (Throw e, drawn s)
  end.
Proof.
  intros H. unfold reply, bind, randomUUID, send, drawn. simpl. rewrite H.
  destruct (send_when_closed w); reflexivity.
Qed.

(** The listener, stage by stage. *)
Lemma onMessage_equation (w : World) (data : MessageData) (s : Session) :
  onMessage w data s =
  match JSON_parse (data_text data) with
  | Throw e => recover w e s
  | Normal message =>
      match incomplete (Val message) with
      | Throw e => recover w e s
      | Normal true =>
          try_catch (reply w (js "error") (Val (JStr invalid_format))) (recover w) s
      | Normal false =>
          match generate w (Val message) s with
          | (Normal v, s1) => try_catch (reply w (js "assistant") v) (recover w) s1
          | (Throw e, s1) => recover w e s1
          end
      end
  end.
Proof.
  unfold onMessage, try_catch, bind, lift.
  destruct (JSON_parse (data_text data)) as [message|e]; [|reflexivity].
  destruct (incomplete (Val message)) as [[|]|e]; try reflexivity.
  destruct (generate w (Val message) s) as [[v|e] s1]; reflexivity.
Qed.

Lemma recover_open (w : World) (e : JSError) (s : Session) :
  socket s = Open ->
  recover w e s =
  (Normal tt,
   written w (js "error") (Val (JStr (failed_to_process (err_message e))))
     (logged (ConsoleError (js "Error processing WebSocket message:") (Some e)) s)).
Proof.
  intros H. unfold recover, bind, console_error.
  change (mkSession (socket s) (outbox s)
            (console s ++ [ConsoleError (js "Error processing WebSocket message:") (Some e)])
            (uuids s) (calls s) (unhandled s))
    with (logged (ConsoleError (js "Error processing WebSocket message:") (Some e)) s).
  apply reply_open. exact H.
Qed.

Lemma guarded_reply_open (w : World) (role : jsstring) (content : JSValue) (s : Session) :
  socket s = Open ->
  try_catch (reply w role content) (recover w) s = (Normal tt, written w role content s).
Proof. intros H. unfold try_catch. now rewrite reply_open. Qed.

(** On an open connection that stays open, the listener ends normally
    with one more frame in the outbox: the assistant's when every stage
    passed, an error otherwise. *)
Lemma onMessage_open (w : World) (data : MessageData) (s : Session) :
  socket s = Open ->
  client_leaves w (List.length (calls s)) = false ->
  exists role content s',
    onMessage w data s = (Normal tt, s') /\
    outbox s' = outbox s ++ [response_frame (uuid_source w (uuids s)) role content] /\
    socket s' = Open /\
    unhandled s' = unhandled s /\
    uuids s' = S (uuids s) /\
    ((succeeds w data s content /\ role = js "assistant") \/
     ((forall v, ~ succeeds w data s v) /\ role = js "error")).
Proof.
  intros Hopen Hstay. rewrite onMessage_equation.
  destruct (JSON_parse (data_text data)) as [message|e] eqn:Hparse.
  - destruct (incomplete (Val message)) as [[|]|e] eqn:Hinc.
    + rewrite guarded_reply_open by assumption.
      eexists _, _, _. split; [reflexivity|]. simpl.
      repeat (split; [reflexivity || assumption|]).
      right. split; [|reflexivity].
      intros v (m' & s1 & H1 & H2 & _). congruence.
    + destruct (generate w (Val message) s) as [[v|e] s1] eqn:Hgen.
      * pose proof (generate_untouched w (Val message) s) as U.
        rewrite Hgen in U. simpl in U. destruct U as [Uo Uu Uh Us _ _].
        specialize (Us Hstay).
        rewrite guarded_reply_open by congruence.
        eexists _, _, _. split; [reflexivity|]. simpl.
        rewrite Uo, Uu, Uh.
        repeat (split; [reflexivity || congruence|]).
        left. split; [|reflexivity]. now exists message, s1.
      * pose proof (generate_untouched w (Val message) s) as U.
        rewrite Hgen in U. simpl in U. destruct U as [Uo Uu Uh Us _ _].
        specialize (Us Hstay).
        rewrite recover_open by congruence.
        eexists _, _, _. split; [reflexivity|]. simpl.
        rewrite Uo, Uu, Uh.
        repeat (split; [reflexivity || congruence|]).
        right. split; [|reflexivity].
        intros v (m' & s2 & H1 & _ & H3). congruence.
    + rewrite recover_open by assumption.
      eexists _, _, _. split; [reflexivity|]. simpl.
      repeat (split; [reflexivity || assumption|]).
      right. split; [|reflexivity].
      intros v (m' & s1 & H1 & H2 & _). congruence.
  - rewrite recover_open by assumption.
    eexists _, _, _. split; [reflexivity|]. simpl.
    repeat (split; [reflexivity || assumption|]).
    right. split; [|reflexivity].
    intros v (m' & s1 & H1 & _). congruence.
Qed.

(** Over a whole conversation: as long as the client stays, every
    message adds one frame and one identifier, the connection stays open
    and no exception escapes a listener. *)
Lemma one_response_each (w : World) (datas : list MessageData) :
  (forall k, client_leaves w k = false) ->
  forall s,
    socket s = Open ->
    socket (run w s (map MessageEvent datas)) = Open /\
    List.length (outbox (run w s (map MessageEvent datas))) =
      List.length (outbox s) + List.length datas /\
    uuids (run w s (map MessageEvent datas)) = uuids s + List.length datas /\
    unhandled (run w s (map MessageEvent datas)) = unhandled s.
Proof.
  intros Hstay. unfold run.
  induction datas as [|data datas IH]; intros s Hopen; cbn [map fold_left List.length].
  - rewrite !Nat.add_0_r. auto.
  - destruct (onMessage_open w data s Hopen (Hstay _))
      as (role & content & s' & H1 & H2 & H3 & H4 & H5 & _).
    cbn [deliver]. rewrite Hopen, H1. cbn [settle].
    destruct (IH s' H3) as (I1 & I2 & I3 & I4).
    rewrite I1, I2, I3, I4, H2, H4, H5, length_app. cbn [List.length].
    repeat split; lia.
Qed.

(** C2.  A well-formed message for one of the three agents, whose
    backend call succeeds with the text [t], gets exactly one response,
    of role [assistant], whose content is [t]. *)
Theorem assistant_response_carries_text
    (w : World) (data : MessageData) (s : Session) (message : json)
    (a : Agent) (prompt t : jsstring) :
  socket s = Open ->
  client_leaves w (List.length (calls s)) = false ->
  JSON_parse (data_text data) = Normal message ->
  Get (Val message) (js "agent") = Normal (Val (JStr (agent_name a))) ->
  Get (Val message) (js "prompt") = Normal (Val (JStr prompt)) ->
  prompt <> [] ->
  backend_reading a w (List.length (calls s)) (Val (JStr prompt)) = Normal (Val (JStr t)) ->
  exists s',
    onMessage w data s = (Normal tt, s') /\
    outbox s' = outbox s ++ [encode (mkOutbound (uuid_source w (uuids s)) Assistant t)] /\
    calls s' = calls s ++ [adapter_call a w (Val (JStr prompt))].
Proof.
  intros Hopen Hstay Hparse Hagent Hprompt Hne Hback.
  rewrite onMessage_equation, Hparse.
  assert (incomplete (Val message) = Normal false) as ->.
  { unfold incomplete. rewrite Hagent. cbn [and_then].
    replace (ToBoolean (Val (JStr (agent_name a)))) with true
      by (destruct a; reflexivity).
    cbn [negb]. rewrite Hprompt. cbn [and_then ToBoolean].
    destruct prompt; [contradiction|reflexivity]. }
  rewrite (generate_supported a w (Val message) s Hagent), Hprompt.
  rewrite adapter_equation, Hback.
  rewrite guarded_reply_open by (simpl; now rewrite Hstay).
  eexists. split; [reflexivity|]. split; reflexivity.
Qed.

Lemma Get_total (message : json) (key : jsstring) :
  message <> JNull -> exists v, Get (Val message) key = Normal v.
Proof.
  intros H. destruct message as [|b|n|t|elems|props]; [contradiction| | | | |];
    cbn [Get]; try (eexists; reflexivity).
  - destruct (index_key key); [|eexists; reflexivity].
    destruct (nth_error t n); eexists; reflexivity.
  - destruct (index_key key); [|eexists; reflexivity].
    destruct (nth_error elems n); eexists; reflexivity.
  - destruct (lookup key props); eexists; reflexivity.
Qed.

Lemma incomplete_missing (message : json) :
  message <> JNull ->
  has_field message (js "agent") = false \/
  has_field message (js "prompt") = false \/
  Get (Val message) (js "prompt") = Normal (Val (JStr [])) ->
  incomplete (Val message) = Normal true.
Proof.
  intros Hnull H. unfold incomplete, has_field in *.
  destruct (Get_total message (js "agent") Hnull) as [agent Ha].
  destruct (Get_total message (js "prompt") Hnull) as [prompt Hp].
  rewrite Ha, Hp in *. cbn [and_then].
  destruct (ToBoolean agent) eqn:Hb; [|reflexivity]. cbn.
  destruct H as [H|[H|H]].
  - destruct agent; [discriminate Hb|discriminate H].
  - destruct prompt; [reflexivity|discriminate H].
  - injection H as ->. reflexivity.
Qed.

(** C3.  A payload without [agent], without [prompt] or with an empty
    [prompt] gets exactly one response, of role [error]; no backend is
    called, the connection stays open, and the next message is answered
    as well. *)
Theorem incomplete_payload_gets_error
    (w : World) (data : MessageData) (s : Session) (message : json) :
  socket s = Open ->
  JSON_parse (data_text data) = Normal message ->
  has_field message (js "agent") = false \/
  has_field message (js "prompt") = false \/
  Get (Val message) (js "prompt") = Normal (Val (JStr [])) ->
  exists content s',
    onMessage w data s = (Normal tt, s') /\
    outbox s' = outbox s ++ [encode (mkOutbound (uuid_source w (uuids s)) Failure content)] /\
    socket s' = Open /\
    calls s' = calls s /\
    forall next,
      client_leaves w (List.length (calls s)) = false ->
      exists frame,
        outbox (run w s [MessageEvent data; MessageEvent next]) =
        outbox s ++ [encode (mkOutbound (uuid_source w (uuids s)) Failure content); frame].
Proof.
  intros Hopen Hparse Hmissing.
  assert (exists content s',
            onMessage w data s = (Normal tt, s') /\
            outbox s' = outbox s ++ [encode (mkOutbound (uuid_source w (uuids s)) Failure content)] /\
            socket s' = Open /\ calls s' = calls s) as (content & s' & H1 & H2 & H3 & H4).
  { rewrite onMessage_equation, Hparse.
    destruct message as [|b|n|t|elems|props] eqn:Hm.
    1:{ unfold incomplete. cbn [Get and_then]. rewrite recover_open by assumption.
        eexists _, _. split; [reflexivity|].
        repeat split; try reflexivity; assumption. }
    all: rewrite incomplete_missing by (assumption || discriminate);
      rewrite guarded_reply_open by assumption;
      eexists _, _; (split; [reflexivity|]);
      repeat split; try reflexivity; assumption. }
  exists content, s'. repeat (split; [assumption|]).
  intros next Hstay. unfold run. cbn [fold_left deliver].
  rewrite Hopen, H1. cbn [settle]. rewrite H3.
  destruct (onMessage_open w next s' H3 ltac:(now rewrite H4))
    as (role & c2 & s2 & E1 & E2 & _).
  rewrite E1. cbn [settle]. rewrite E2, H2, <- app_assoc.
  eexists. reflexivity.
Qed.

Lemma mentions_unsupported (agent : jsstring) :
  mentions (failed_to_process (unsupported_agent agent)) agent.
Proof.
  unfold mentions, failed_to_process, unsupported_agent.
  eexists (js "Failed to process your request: " ++ js "Unsupported agent type: "), _.
  rewrite <- app_assoc. reflexivity.
Qed.

(** C4.  A message whose [agent] and [prompt] are present and non-empty
    but whose agent is none of [cloudflare], [openai], [gemini] passes
    validation; the router fails with an error that carries the agent,
    without calling any backend; and the session writes one error
    response whose content mentions the agent. *)
Theorem unsupported_agent_is_reported
    (w : World) (data : MessageData) (s : Session) (message : json)
    (agent : jsstring) (prompt : JSValue) :
  socket s = Open ->
  JSON_parse (data_text data) = Normal message ->
  Get (Val message) (js "agent") = Normal (Val (JStr agent)) ->
  agent <> [] ->
  (forall a, agent <> agent_name a) ->
  Get (Val message) (js "prompt") = Normal prompt ->
  ToBoolean prompt = true ->
  incomplete (Val message) = Normal false /\
  generate w (Val message) s = (Throw (Error (unsupported_agent agent)), s) /\
  mentions (unsupported_agent agent) agent /\
  exists s',
    onMessage w data s = (Normal tt, s') /\
    outbox s' =
      outbox s ++ [encode (mkOutbound (uuid_source w (uuids s)) Failure
                             (failed_to_process (unsupported_agent agent)))] /\
    mentions (failed_to_process (unsupported_agent agent)) agent.
Proof.
  intros Hopen Hparse Hagent Hne Hnone Hprompt Htruthy.
  assert (incomplete (Val message) = Normal false) as Hinc.
  { unfold incomplete. rewrite Hagent. cbn [and_then].
    destruct agent; [contradiction|]. cbn [ToBoolean negb].
    rewrite Hprompt. cbn [and_then]. now rewrite Htruthy. }
  assert (generate w (Val message) s = (Throw (Error (unsupported_agent agent)), s)) as Hgen.
  { rewrite (generate_unsupported w (Val message) (Val (JStr agent)) s Hagent);
      [reflexivity|].
    intros a. cbn. apply eqb_string_neq, Hnone. }
  split; [exact Hinc|]. split; [exact Hgen|].
  split; [unfold mentions, unsupported_agent; eexists _, _; reflexivity|].
  rewrite onMessage_equation, Hparse, Hinc, Hgen.
  rewrite recover_open by assumption.
  eexists. split; [reflexivity|]. split; [reflexivity|].
  apply mentions_unsupported.
Qed.

(** ** Backend failures *)

(** A failure the adapter notices is one on which its [try] block
    throws, and conversely. *)
Lemma noticed_failure_throws (a : Agent) (w : World) (k : nat) (prompt : JSValue) :
  noticed_failure a w k prompt <-> exists e, backend_reading a w k prompt = Throw e.
Proof.
  unfold noticed_failure, call_rejected, non_success_status, unreadable_answer,
    provider_value, backend_reading.
  split.
  - intros [H|[H|H]].
    + destruct a; destruct H as [e ->]; now exists e.
    + destruct H as (request & response & Hreq & Hans & Hok).
      destruct a; cbn [http_request] in Hreq; try discriminate Hreq;
        injection Hreq as <-; rewrite Hans; cbn [and_then];
        unfold openai_read, gemini_read; rewrite Hok; cbn [negb];
        destruct (response_text response); cbn [and_then]; eexists; reflexivity.
    + destruct H as [e H].
      destruct a.
      * destruct (AI_answer w k cloudflare_model (cloudflare_input prompt));
          [|discriminate H]. injection H as H. exists e. exact H.
      * destruct (fetch_answer w k (openai_request w prompt)) as [r|];
          [|discriminate H]. cbn [and_then]. unfold openai_read.
        destruct (ok r); [|discriminate H]. injection H as H. exists e. exact H.
      * destruct (fetch_answer w k (gemini_request w prompt)) as [r|];
          [|discriminate H]. cbn [and_then]. unfold gemini_read.
        destruct (ok r); [|discriminate H]. injection H as H. exists e. exact H.
  - intros [e H]. destruct a.
    + destruct (AI_answer w k cloudflare_model (cloudflare_input prompt)) as [v|e'].
      * right; right. exists e. now f_equal.
      * left. now exists e'.
    + destruct (fetch_answer w k (openai_request w prompt)) as [r|e'] eqn:Hans.
      * cbn [and_then] in H. unfold openai_read in H.
        destruct (ok r) eqn:Hok.
        -- right; right. exists e. now f_equal.
        -- right; left. exists (openai_request w prompt), r. auto.
      * left. now exists e'.
    + destruct (fetch_answer w k (gemini_request w prompt)) as [r|e'] eqn:Hans.
      * cbn [and_then] in H. unfold gemini_read in H.
        destruct (ok r) eqn:Hok.
        -- right; right. exists e. now f_equal.
        -- right; left. exists (gemini_request w prompt), r. auto.
      * left. now exists e'.
Qed.

Lemma valid_message (message : json) (a : Agent) (prompt : JSValue) :
  Get (Val message) (js "agent") = Normal (Val (JStr (agent_name a))) ->
  Get (Val message) (js "prompt") = Normal prompt ->
  ToBoolean prompt = true ->
  incomplete (Val message) = Normal false.
Proof.
  intros Hagent Hprompt Htruthy. unfold incomplete. rewrite Hagent. cbn [and_then].
  replace (ToBoolean (Val (JStr (agent_name a)))) with true
    by (destruct a; reflexivity).
  cbn [negb]. rewrite Hprompt. cbn [and_then]. now rewrite Htruthy.
Qed.

(** The listener on a valid message for a supported agent whose backend
    fails: one call, one error response with the adapter's own message. *)
Lemma onMessage_backend_failure
    (w : World) (data : MessageData) (s : Session) (message : json)
    (a : Agent) (prompt : JSValue) (e : JSError) :
  socket s = Open ->
  client_leaves w (List.length (calls s)) = false ->
  JSON_parse (data_text data) = Normal message ->
  Get (Val message) (js "agent") = Normal (Val (JStr (agent_name a))) ->
  Get (Val message) (js "prompt") = Normal prompt ->
  ToBoolean prompt = true ->
  backend_reading a w (List.length (calls s)) prompt = Throw e ->
  exists s',
    onMessage w data s = (Normal tt, s') /\
    calls s' = calls s ++ [adapter_call a w prompt] /\
    outbox s' =
      outbox s ++ [encode (mkOutbound (uuid_source w (uuids s)) Failure
                             (failed_to_process (adapter_failure a)))] /\
    socket s' = Open /\
    uuids s' = S (uuids s).
Proof.
  intros Hopen Hstay Hparse Hagent Hprompt Htruthy Hback.
  rewrite onMessage_equation, Hparse.
  rewrite (valid_message message a prompt Hagent Hprompt Htruthy).
  rewrite (generate_supported a w (Val message) s Hagent), Hprompt.
  rewrite adapter_equation, Hback.
  rewrite recover_open by (simpl; now rewrite Hstay).
  eexists. split; [reflexivity|]. simpl. rewrite Hstay.
  repeat split; try reflexivity; assumption.
Qed.

(** ** A connection closed under a running listener *)

Lemma reply_discards (w : World) (role : jsstring) (content : JSValue) (s : Session) :
  send_when_closed w = Discards ->
  reply w role content s =
  (Normal tt, match socket s with
              | Open => written w role content s
              | Closed => drawn s
              end).
Proof.
  intros H. destruct (socket s) eqn:Hs.
  - now apply reply_open.
  - rewrite reply_closed by assumption. now rewrite H.
Qed.

Lemma recover_discards (w : World) (e : JSError) (s : Session) :
  send_when_closed w = Discards ->
  exists s',
    recover w e s = (Normal tt, s') /\
    socket s' = socket s /\
    unhandled s' = unhandled s /\
    (socket s = Closed -> outbox s' = outbox s).
Proof.
  intros H. unfold recover, bind, console_error.
  rewrite reply_discards by assumption. cbn [socket].
  eexists. split; [reflexivity|].
  destruct (socket s) eqn:Hs; cbn; rewrite ?Hs; repeat split; auto. discriminate.
Qed.

Lemma guarded_reply_discards (w : World) (role : jsstring) (content : JSValue) (s : Session) :
  send_when_closed w = Discards ->
  exists s',
    try_catch (reply w role content) (recover w) s = (Normal tt, s') /\
    socket s' = socket s /\
    unhandled s' = unhandled s /\
    (socket s = Closed -> outbox s' = outbox s).
Proof.
  intros H. unfold try_catch. rewrite reply_discards by assumption.
  eexists. split; [reflexivity|].
  destruct (socket s) eqn:Hs; cbn; rewrite ?Hs; repeat split; auto. discriminate.
Qed.

(** C6, as the code has it.  The listener does not look at the state of
    the connection: it calls [send] all the same.  When [send] on a closed
    connection discards the frame, a listener that finds the connection
    closed when it comes to write ends normally and leaves the outbox as
    it was. *)
Theorem closed_write_is_dropped_when_send_discards
    (w : World) (data : MessageData) (s : Session) :
  send_when_closed w = Discards ->
  exists s',
    onMessage w data s = (Normal tt, s') /\
    unhandled s' = unhandled s /\
    (socket s' = Closed -> outbox s' = outbox s).
Proof.
  intros Hd. rewrite onMessage_equation.
  assert (forall e, exists s',
            recover w e s = (Normal tt, s') /\ unhandled s' = unhandled s /\
            (socket s' = Closed -> outbox s' = outbox s)) as Hrec.
  { intros e. destruct (recover_discards w e s Hd) as (s' & H1 & H2 & H3 & H4).
    exists s'. repeat split; auto. intros Hc. apply H4. congruence. }
  destruct (JSON_parse (data_text data)) as [message|e]; [|apply Hrec].
  destruct (incomplete (Val message)) as [[|]|e]; [| |apply Hrec].
  - destruct (guarded_reply_discards w (js "error") (Val (JStr invalid_format)) s Hd)
      as (s' & H1 & H2 & H3 & H4).
    exists s'. repeat split; auto. intros Hc. apply H4. congruence.
  - pose proof (generate_untouched w (Val message) s) as U.
    destruct (generate w (Val message) s) as [[v|e] s1]. 
    + cbn [snd] in U. destruct U as [Uo _ Uh _ _ _].
      destruct (guarded_reply_discards w (js "assistant") v s1 Hd)
        as (s' & H1 & H2 & H3 & H4).
      exists s'. repeat split; try congruence.
      intros Hc. rewrite H4 by congruence. exact Uo.
    + cbn [snd] in U. destruct U as [Uo _ Uh _ _ _].
      destruct (recover_discards w e s1 Hd) as (s' & H1 & H2 & H3 & H4).
      exists s'. repeat split; try congruence.
      intros Hc. rewrite H4 by congruence. exact Uo.
Qed.

(** ** What the client sees of a backend failure *)

(** C7.  After a backend failure the content of the error response is
    the adapter's fixed message: it depends on the agent and on nothing
    the provider sent.  In particular two runs that differ only in what
    the provider answered with a non-success status write the same
    frames. *)
Theorem provider_body_is_not_disclosed
    (w : World) (data : MessageData) (s : Session) (message : json)
    (a : Agent) (prompt : JSValue) :
  socket s = Open ->
  client_leaves w (List.length (calls s)) = false ->
  JSON_parse (data_text data) = Normal message ->
  Get (Val message) (js "agent") = Normal (Val (JStr (agent_name a))) ->
  Get (Val message) (js "prompt") = Normal prompt ->
  ToBoolean prompt = true ->
  (noticed_failure a w (List.length (calls s)) prompt ->
   outbox (snd (onMessage w data s)) =
     outbox s ++ [encode (mkOutbound (uuid_source w (uuids s)) Failure
                            (failed_to_process (adapter_failure a)))]) /\
  (forall answers,
     non_success_status a w (List.length (calls s)) prompt ->
     non_success_status a (with_fetch w answers) (List.length (calls s)) prompt ->
     outbox (snd (onMessage (with_fetch w answers) data s)) =
     outbox (snd (onMessage w data s))).
Proof.
  intros Hopen Hstay Hparse Hagent Hprompt Htruthy.
  assert (forall w', uuid_source w' = uuid_source w ->
            client_leaves w' = client_leaves w ->
            noticed_failure a w' (List.length (calls s)) prompt ->
            outbox (snd (onMessage w' data s)) =
            outbox s ++ [encode (mkOutbound (uuid_source w (uuids s)) Failure
                                   (failed_to_process (adapter_failure a)))]) as Hany.
  { intros w' Hu Hl Hfail.
    apply noticed_failure_throws in Hfail as [e Hback].
    destruct (onMessage_backend_failure w' data s message a prompt e Hopen
                ltac:(now rewrite Hl) Hparse Hagent Hprompt Htruthy Hback)
      as (s' & H1 & _ & H3 & _).
    rewrite H1. cbn [snd]. now rewrite H3, Hu. }
  split.
  - apply Hany; reflexivity.
  - intros answers H1 H2.
    rewrite (Hany (with_fetch w answers) eq_refl eq_refl) by (right; left; exact H2).
    rewrite (Hany w eq_refl eq_refl) by (right; left; exact H1).
    reflexivity.
Qed.

(** C9.  A canonical response survives the wire: decoding its encoded
    form gives a response with the same role and content (and the same
    identifier), and encoding that again gives the same frame. *)
Theorem response_round_trip (r : OutboundResponse) :
  exists r',
    decode (encode r) = Some r' /\
    resp_role r' = resp_role r /\
    resp_content r' = resp_content r /\
    encode r' = encode r.
Proof. exists r. rewrite decode_encode. repeat split; reflexivity. Qed.

(** ** Validation *)

Lemma incomplete_truthiness (message : json) (agent prompt : JSValue) :
  Get (Val message) (js "agent") = Normal agent ->
  Get (Val message) (js "prompt") = Normal prompt ->
  incomplete (Val message) = Normal (negb (ToBoolean agent && ToBoolean prompt)).
Proof.
  intros Ha Hp. unfold incomplete. rewrite Ha. cbn [and_then].
  destruct (ToBoolean agent); cbn [negb andb]; [|reflexivity].
  rewrite Hp. reflexivity.
Qed.

(** C10.  Validation looks at the truthiness of [agent] and [prompt] and
    at nothing else.  A payload in which both are truthy, strings or not,
    goes on to the router, and from there to the backend of its agent with
    the prompt as it is; a prompt that is the empty string, zero or
    [false] is answered with the invalid-format error and goes nowhere. *)
Theorem validation_is_truthiness
    (w : World) (data : MessageData) (s : Session) (message : json)
    (agent prompt : JSValue) :
  socket s = Open ->
  JSON_parse (data_text data) = Normal message ->
  Get (Val message) (js "agent") = Normal agent ->
  Get (Val message) (js "prompt") = Normal prompt ->
  incomplete (Val message) = Normal (negb (ToBoolean agent && ToBoolean prompt)) /\
  (ToBoolean agent = true -> ToBoolean prompt = true ->
   onMessage w data s =
     match generate w (Val message) s with
     | (Normal v, s1) => try_catch (reply w (js "assistant") v) (recover w) s1
     | (Throw e, s1) => recover w e s1
     end /\
   forall a, agent = Val (JStr (agent_name a)) ->
     calls (snd (generate w (Val message) s)) = calls s ++ [adapter_call a w prompt]) /\
  (prompt = Val (JStr []) \/
   (exists n, prompt = Val (JNum n) /\ NumberToBoolean n = false) \/
   prompt = Val (JBool false) ->
   onMessage w data s =
     (Normal tt, written w (js "error") (Val (JStr invalid_format)) s)).
Proof.
  intros Hopen Hparse Hagent Hprompt.
  pose proof (incomplete_truthiness message agent prompt Hagent Hprompt) as Hinc.
  split; [exact Hinc|]. split.
  - intros Ha Hp. rewrite Ha, Hp in Hinc. cbn [andb negb] in Hinc.
    split.
    + now rewrite onMessage_equation, Hparse, Hinc.
    + intros a ->.
      rewrite (generate_supported a w (Val message) s Hagent), Hprompt.
      rewrite adapter_equation.
      destruct (backend_reading a w (List.length (calls s)) prompt); reflexivity.
  - intros Hfalsy.
    assert (ToBoolean prompt = false) as Hp.
    { destruct Hfalsy as [->|[(n & -> & Hn)| ->]]; [reflexivity|exact Hn|reflexivity]. }
    rewrite Hp, andb_false_r in Hinc. cbn [negb] in Hinc.
    rewrite onMessage_equation, Hparse, Hinc.
    now apply guarded_reply_open.
Qed.

(** ** The answer of the provider, and the response it leads to *)

Lemma and_then_Normal {A} (c : Completion A) : (x <~ c ;; Normal x) = c.
Proof. destruct c; reflexivity. Qed.

Lemma follow_app (p q : list jsstring) (v : JSValue) :
  follow (p ++ q) v = (x <~ follow p v ;; follow q x).
Proof.
  revert v. induction p as [|key p IH]; intros v; cbn [app follow and_then];
    [reflexivity|].
  destruct (Get v key); cbn [and_then]; [apply IH|reflexivity].
Qed.

(** Each adapter reads the text where [text_path] has it. *)
Lemma cloudflare_read_path (response : JSValue) :
  cloudflare_read response = follow (text_path Cloudflare) response.
Proof. unfold cloudflare_read. cbn [text_path follow]. now rewrite and_then_Normal. Qed.

Lemma openai_content_path (result : JSValue) :
  openai_content result = follow (text_path OpenAI) result.
Proof.
  unfold openai_content. cbn [text_path follow].
  repeat match goal with
         | |- context [Get ?v ?k] => destruct (Get v k); cbn [and_then]; try reflexivity
         end.
Qed.

Lemma gemini_text_path (result : JSValue) :
  gemini_text result = follow (text_path Gemini) result.
Proof.
  unfold gemini_text. cbn [text_path follow].
  repeat match goal with
         | |- context [Get ?v ?k] => destruct (Get v k); cbn [and_then]; try reflexivity
         end.
Qed.

(** Once the provider has answered, what the [try] block of the adapter
    computes is what is found along the path. *)
Lemma reading_answered (a : Agent) (w : World) (k : nat) (prompt answer : JSValue) :
  answered_with a w k prompt answer ->
  backend_reading a w k prompt = follow (text_path a) answer.
Proof.
  destruct a; unfold answered_with; cbn [http_request backend_reading].
  - intros ->. cbn [and_then]. apply cloudflare_read_path.
  - intros (response & result & -> & Hok & Hjson & ->). cbn [and_then].
    unfold openai_read. rewrite Hok. cbn [negb]. rewrite Hjson. cbn [and_then].
    apply openai_content_path.
  - intros (response & result & -> & Hok & Hjson & ->). cbn [and_then].
    unfold gemini_read. rewrite Hok. cbn [negb]. rewrite Hjson. cbn [and_then].
    apply gemini_text_path.
Qed.

Lemma body_not_json_throws (a : Agent) (w : World) (k : nat) (prompt : JSValue) :
  body_not_json a w k prompt -> exists e, backend_reading a w k prompt = Throw e.
Proof.
  intros (request & response & e & Hreq & Hans & Hok & Hjson).
  destruct a; cbn [http_request] in Hreq; try discriminate Hreq;
    injection Hreq as <-; cbn [backend_reading]; rewrite Hans; cbn [and_then];
    unfold openai_read, gemini_read; rewrite Hok; cbn [negb]; rewrite Hjson;
    exists e; reflexivity.
Qed.

Lemma reading_fails_throws (a : Agent) (w : World) (k : nat) (prompt : JSValue) :
  reading_fails a w k prompt -> exists e, backend_reading a w k prompt = Throw e.
Proof.
  intros [H|[H|[H|(answer & e & H & Hf)]]].
  - apply noticed_failure_throws. left. exact H.
  - apply noticed_failure_throws. right; left. exact H.
  - apply body_not_json_throws. exact H.
  - exists e. now rewrite (reading_answered a w k prompt answer H).
Qed.

(** Every call ends in one of the two ways. *)
Lemma reading_cases (a : Agent) (w : World) (k : nat) (prompt : JSValue) :
  reading_fails a w k prompt \/
  exists answer v, answered_with a w k prompt answer /\ follow (text_path a) answer = Normal v.
Proof.
  assert (forall request,
            http_request a w prompt = Some request ->
            reading_fails a w k prompt \/
            exists answer v,
              answered_with a w k prompt answer /\ follow (text_path a) answer = Normal v)
    as Hhttp.
  { intros request Hreq. unfold reading_fails, call_rejected, non_success_status,
      body_not_json, answered_with. rewrite Hreq.
    destruct (fetch_answer w k request) as [response|e] eqn:Hans.
    - destruct (ok response) eqn:Hok.
      + destruct (response_json response) as [result|e] eqn:Hjson.
        * destruct (follow (text_path a) (Val result)) as [v|e] eqn:Hf.
          -- right. exists (Val result), v. split; [|exact Hf].
             exists response, result. auto.
          -- left. right; right; right. exists (Val result), e. split; [|exact Hf].
             exists response, result. auto.
        * left. right; right; left. exists request, response, e. auto.
      + left. right; left. exists request, response. auto.
    - left. left.
      destruct a; cbn [http_request] in Hreq; try discriminate Hreq;
        injection Hreq as <-; now exists e. }
  destruct a; try (apply (Hhttp _ eq_refl)).
  unfold reading_fails, call_rejected, answered_with. cbn [http_request].
  destruct (AI_answer w k cloudflare_model (cloudflare_input prompt)) as [answer|e] eqn:Hans.
  - destruct (follow (text_path Cloudflare) answer) as [v|e] eqn:Hf.
    + right. exists answer, v. auto.
    + left. right; right; right. exists answer, e. auto.
  - left. left. now exists e.
Qed.

(** A field missing on the way makes the next read throw; a missing last
    field is read as [undefined]. *)
Lemma missing_on_the_way_throws (a : Agent) (answer : JSValue) :
  missing_on_the_way a answer -> exists e, follow (text_path a) answer = Throw e.
Proof.
  intros (before & key & after & Hafter & Hpath & holder & Hbefore & Hkey).
  rewrite Hpath, follow_app, Hbefore. cbn [and_then follow]. rewrite Hkey.
  cbn [and_then]. destruct after as [|next after]; [contradiction|].
  cbn [follow Get and_then]. eexists. reflexivity.
Qed.

Lemma text_missing_undefined (a : Agent) (answer : JSValue) :
  text_missing a answer -> follow (text_path a) answer = Normal Undefined.
Proof.
  intros (before & key & Hpath & holder & Hbefore & Hkey).
  rewrite Hpath, follow_app, Hbefore. cbn [and_then follow]. rewrite Hkey.
  reflexivity.
Qed.



(** The listener on a valid message for a supported agent whose adapter
    returns: one call, one assistant response with what it returned. *)
Lemma onMessage_backend_value
    (w : World) (data : MessageData) (s : Session) (message : json)
    (a : Agent) (prompt v : JSValue) :
  socket s = Open ->
  client_leaves w (List.length (calls s)) = false ->
  JSON_parse (data_text data) = Normal message ->
  Get (Val message) (js "agent") = Normal (Val (JStr (agent_name a))) ->
  Get (Val message) (js "prompt") = Normal prompt ->
  ToBoolean prompt = true ->
  backend_reading a w (List.length (calls s)) prompt = Normal v ->
  exists s',
    onMessage w data s = (Normal tt, s') /\
    calls s' = calls s ++ [adapter_call a w prompt] /\
    outbox s' = outbox s ++ [response_frame (uuid_source w (uuids s)) (js "assistant") v] /\
    socket s' = Open /\
    uuids s' = S (uuids s).
Proof.
  intros Hopen Hstay Hparse Hagent Hprompt Htruthy Hback.
  rewrite onMessage_equation, Hparse.
  rewrite (valid_message message a prompt Hagent Hprompt Htruthy).
  rewrite (generate_supported a w (Val message) s Hagent), Hprompt.
  rewrite adapter_equation, Hback.
  rewrite guarded_reply_open by (simpl; now rewrite Hstay).
  eexists. split; [reflexivity|]. simpl. rewrite Hstay.
  repeat split; try reflexivity; assumption.
Qed.

Lemma unsupported_differs (agent : JSValue) :
  (forall a, StrictEqualsString agent (agent_name a) = false) ->
  forall a, agent <> Val (JStr (agent_name a)).
Proof.
  intros Hno a ->. specialize (Hno a). cbn [StrictEqualsString] in Hno.
  now rewrite eqb_string_refl in Hno.
Qed.

(** The listener on an open connection that stays open: it ends
    normally, with one more frame, whose role and content are those the
    text of the message and the world call for. *)
Lemma onMessage_verdict (w : World) (data : MessageData) (s : Session) :
  socket s = Open ->
  client_leaves w (List.length (calls s)) = false ->
  exists role content s',
    onMessage w data s = (Normal tt, s') /\
    outbox s' = outbox s ++ [response_frame (uuid_source w (uuids s)) role content] /\
    verdict w (List.length (calls s)) (data_text data) role content.
Proof.
  intros Hopen Hstay.
  destruct (JSON_parse (data_text data)) as [message|e] eqn:Hparse.
  - destruct (Get (Val message) (js "agent")) as [agent|e] eqn:Hagent.
    + assert (message <> JNull) as Hnull by (intros ->; discriminate Hagent).
      destruct (Get_total message (js "prompt") Hnull) as [prompt Hprompt].
      pose proof (incomplete_truthiness message agent prompt Hagent Hprompt) as Hinc.
      destruct (ToBoolean agent && ToBoolean prompt) eqn:Htruthy; cbn [negb] in Hinc.
      * apply andb_prop in Htruthy as Hboth. destruct Hboth as [Ha Hp].
        destruct (supported_or_not agent) as [[a ->]|Hno].
        -- destruct (reading_cases a w (List.length (calls s)) prompt)
             as [Hfail|(answer & v & Hans & Hf)].
           ++ destruct (reading_fails_throws _ _ _ _ Hfail) as [e Hback].
              destruct (onMessage_backend_failure w data s message a prompt e
                          Hopen Hstay Hparse Hagent Hprompt Hp Hback)
                as (s' & H1 & _ & H3 & _).
              exists (js "error"), (Val (JStr (failed_to_process (adapter_failure a)))), s'.
              split; [exact H1|]. split; [exact H3|].
              eapply backend_failed; eassumption.
           ++ pose proof (reading_answered a w _ prompt answer Hans) as Hback.
              rewrite Hf in Hback.
              destruct (onMessage_backend_value w data s message a prompt v
                          Hopen Hstay Hparse Hagent Hprompt Hp Hback)
                as (s' & H1 & _ & H3 & _).
              exists (js "assistant"), v, s'.
              split; [exact H1|]. split; [exact H3|].
              eapply backend_answered; eassumption.
        -- rewrite onMessage_equation, Hparse, Hinc.
           rewrite (generate_unsupported w (Val message) agent s Hagent Hno).
           assert (verdict w (List.length (calls s)) (data_text data) (js "error")
                     (Val (JStr (failed_to_process
                                   match ToString agent with
                                   | Normal shown => unsupported_agent shown
                                   | Throw e => err_message e
                                   end)))) as Hv
             by (eapply not_supported; try eassumption;
                 now apply unsupported_differs).
           destruct (ToString agent) as [shown|e];
             rewrite recover_open by assumption;
             eexists _, _, _; (split; [reflexivity|]); (split; [reflexivity|]);
             exact Hv.
      * rewrite onMessage_equation, Hparse, Hinc.
        rewrite guarded_reply_open by assumption.
        eexists _, _, _. split; [reflexivity|]. split; [reflexivity|].
        eapply not_complete; eassumption.
    + rewrite onMessage_equation, Hparse.
      assert (incomplete (Val message) = Throw e) as ->
        by (unfold incomplete; now rewrite Hagent).
      rewrite recover_open by assumption.
      eexists _, _, _. split; [reflexivity|]. split; [reflexivity|].
      eapply not_readable; eassumption.
  - rewrite onMessage_equation, Hparse.
    rewrite recover_open by assumption.
    eexists _, _, _. split; [reflexivity|]. split; [reflexivity|].
    eapply not_json; eassumption.
Qed.

(** C1, as the code has it.  Every message delivered to an open session
    gets exactly one response written to the connection.  Its role is
    [error] when the text is not JSON, when the payload is [null] or lacks
    a truthy [agent] or [prompt], when the agent is none of the three, and
    when the backend call is rejected, answers with a non-success status,
    with a body that is not JSON, or with an answer in which a property on
    the way to the text is read from nothing.  In every other case, also
    when the answer lacks the text itself, its role is [assistant] and its
    content is what is found where the text is expected. *)
Theorem one_response_per_message (w : World) (data : MessageData) (s : Session) :
  socket s = Open ->
  client_leaves w (List.length (calls s)) = false ->
  exists role content s',
    onMessage w data s = (Normal tt, s') /\
    outbox s' = outbox s ++ [response_frame (uuid_source w (uuids s)) role content] /\
    verdict w (List.length (calls s)) (data_text data) role content.
Proof.
  intros Hopen Hstay. exact (onMessage_verdict w data s Hopen Hstay).
Qed.


(** C8, as the code has it.  An adapter gives either what is found at
    the place of the text in the provider's answer, whatever that is, or
    its one failure, an [Error] with the adapter's fixed message.  It
    fails in that way when there is no answer to read (the call is
    rejected, the status is no success, the body is not JSON) and when the
    answer lacks a field on the way to the text; when the answer lacks
    the text itself it returns [undefined]. *)
Theorem adapter_reads_or_fails
    (a : Agent) (w : World) (prompt : JSValue) (s : Session) :
  ((exists answer v,
      answered_with a w (List.length (calls s)) prompt answer /\
      follow (text_path a) answer = Normal v /\
      fst (adapter a w prompt s) = Normal v) \/
   fst (adapter a w prompt s) = Throw (Error (adapter_failure a))) /\
  (forall answer,
     answered_with a w (List.length (calls s)) prompt answer ->
     fst (adapter a w prompt s) =
       match follow (text_path a) answer with
       | Normal v => Normal v
       | Throw _ => Throw (Error (adapter_failure a))
       end) /\
  ((forall answer, ~ answered_with a w (List.length (calls s)) prompt answer) ->
   fst (adapter a w prompt s) = Throw (Error (adapter_failure a))) /\
  (body_not_json a w (List.length (calls s)) prompt ->
   fst (adapter a w prompt s) = Throw (Error (adapter_failure a))) /\
  (forall answer,
     answered_with a w (List.length (calls s)) prompt answer ->
     (missing_on_the_way a answer ->
      fst (adapter a w prompt s) = Throw (Error (adapter_failure a))) /\
     (text_missing a answer ->
      fst (adapter a w prompt s) = Normal Undefined)).
Proof.
  rewrite adapter_equation. split; [|split; [|split; [|split]]].
  - destruct (reading_cases a w (List.length (calls s)) prompt)
      as [Hfail|(answer & v & Hans & Hv)].
    + right. apply reading_fails_throws in Hfail as [e ->]. reflexivity.
    + left. exists answer, v. split; [exact Hans|]. split; [exact Hv|].
      now rewrite (reading_answered a w _ prompt answer Hans), Hv.
  - intros answer Hans. rewrite (reading_answered a w _ prompt answer Hans).
    destruct (follow (text_path a) answer); reflexivity.
  - intros Hnone.
    destruct (reading_cases a w (List.length (calls s)) prompt)
      as [Hfail|(answer & v & Hans & _)]; [|now destruct (Hnone answer)].
    apply reading_fails_throws in Hfail as [e ->]. reflexivity.
  - intros H. apply body_not_json_throws in H as [e ->]. reflexivity.
  - intros answer Hans. rewrite (reading_answered a w _ prompt answer Hans). split.
    + intros H. destruct (missing_on_the_way_throws a answer H) as [e ->]. reflexivity.
    + intros H. rewrite (text_missing_undefined a answer H). reflexivity.
Qed.

End Proofs.

(** * More of the worker

    The router and the adapters beyond the claims, the listener's edges,
    messages that overlap, [fetch], the chat route and the first version
    of the session. *)

Section Coverage.

Context {E : Engine}.

Ltac lex := cbn [skip_ws is_ws N.eqb Pos.eqb orb].

(** A JSON text as a list of characters, brackets and separators first. *)
Ltac wire :=
  unfold QuoteJSONString, dq;
  repeat rewrite <- app_assoc;
  change (js "{") with [123%N]; change (js "}") with [125%N];
  change (js "[") with [91%N]; change (js "]") with [93%N];
  change (js ":") with [58%N]; change (js ",") with [44%N];
  cbn [app].

Lemma Get_again (message v : JSValue) (key other : jsstring) :
  Get message key = Normal v -> exists v', Get message other = Normal v'.
Proof.
  intros H. destruct message as [|j]; [discriminate H|].
  destruct j; [discriminate H| | | | |]; apply Get_total; discriminate.
Qed.

Lemma strict_equals_false (agent : JSValue) :
  (forall a, agent <> Val (JStr (agent_name a))) ->
  forall a, StrictEqualsString agent (agent_name a) = false.
Proof.
  intros H a. destruct agent as [|[| | |t| |]]; try reflexivity.
  cbn. apply eqb_string_neq. intros ->. now apply (H a).
Qed.

Lemma calls_grow (c : BackendCall) (l : list BackendCall) : l ++ [c] <> l.
Proof.
  intros H. apply (f_equal (@List.length _)) in H.
  rewrite length_app in H. simpl in H. lia.
Qed.

(** X1.  The router calls a backend exactly when [agent] is one of the
    three strings, compared as they are (no trimming, no folding of case,
    no conversion of a value that is not a string).  Then it issues one
    call, carrying the prompt; otherwise it leaves the session as it was
    and throws, naming what [ToString] makes of the agent. *)
Theorem router_is_exact
    (w : World) (message agent : JSValue) (s : Session) :
  Get message (js "agent") = Normal agent ->
  ((exists a, agent = Val (JStr (agent_name a))) ->
   exists a prompt,
     Get message (js "prompt") = Normal prompt /\
     calls (snd (generate w message s)) = calls s ++ [adapter_call a w prompt]) /\
  ((forall a, agent <> Val (JStr (agent_name a))) ->
   generate w message s =
   (Throw match ToString agent with
          | Normal shown => Error (unsupported_agent shown)
          | Throw e => e
          end, s)) /\
  (calls (snd (generate w message s)) <> calls s <->
   exists a, agent = Val (JStr (agent_name a))).
Proof.
  intros Hagent.
  assert ((exists a, agent = Val (JStr (agent_name a))) ->
          exists a prompt,
            Get message (js "prompt") = Normal prompt /\
            calls (snd (generate w message s)) = calls s ++ [adapter_call a w prompt]) as Hyes.
  { intros [a ->].
    destruct (Get_again message _ (js "agent") (js "prompt") Hagent) as [prompt Hp].
    exists a, prompt. split; [exact Hp|].
    rewrite (generate_supported a w message s Hagent), Hp, adapter_equation.
    destruct (backend_reading a w (List.length (calls s)) prompt); reflexivity. }
  assert ((forall a, agent <> Val (JStr (agent_name a))) ->
          generate w message s =
          (Throw match ToString agent with
                 | Normal shown => Error (unsupported_agent shown)
                 | Throw e => e
                 end, s)) as Hno.
  { intros H.
    rewrite (generate_unsupported w message agent s Hagent (strict_equals_false agent H)).
    destruct (ToString agent); reflexivity. }
  split; [exact Hyes|]. split; [exact Hno|].
  split.
  - intros Hcalls. destruct (supported_or_not agent) as [Hs|Hn]; [exact Hs|].
    exfalso. apply Hcalls.
    rewrite (generate_unsupported w message agent s Hagent Hn).
    destruct (ToString agent); reflexivity.
  - intros Hs. destruct (Hyes Hs) as (a & prompt & _ & ->). apply calls_grow.
Qed.

Lemma reply_throws (w : World) (role : jsstring) (content : JSValue)
    (s s' : Session) (e : JSError) :
  reply w role content s = (Throw e, s') ->
  send_when_closed w = Raises e /\ socket s' = Closed /\ socket s = Closed.
Proof.
  destruct (socket s) eqn:Hs.
  - rewrite reply_open by assumption. discriminate.
  - rewrite reply_closed by assumption.
    destruct (send_when_closed w) as [|e']; [discriminate|].
    intros H. injection H as -> <-. auto.
Qed.

Lemma recover_throws (w : World) (e0 e : JSError) (s s' : Session) :
  recover w e0 s = (Throw e, s') ->
  send_when_closed w = Raises e /\ socket s' = Closed.
Proof.
  unfold recover, bind, console_error. intros H.
  apply reply_throws in H as (H1 & H2 & _). auto.
Qed.

Lemma guarded_reply_throws (w : World) (role : jsstring) (content : JSValue)
    (s s' : Session) (e : JSError) :
  try_catch (reply w role content) (recover w) s = (Throw e, s') ->
  send_when_closed w = Raises e /\ socket s' = Closed.
Proof.
  unfold try_catch.
  destruct (reply w role content s) as [[[]|e0] s0]; [discriminate|].
  apply recover_throws.
Qed.

(** X2.  The one exception that can leave the listener is the one [send]
    raises on a closed connection: everything else is caught and answered. *)
Theorem only_send_escapes
    (w : World) (data : MessageData) (s : Session) (e : JSError) :
  fst (onMessage w data s) = Throw e ->
  send_when_closed w = Raises e /\ socket (snd (onMessage w data s)) = Closed.
Proof.
  rewrite onMessage_equation.
  destruct (JSON_parse (data_text data)) as [message|e0].
  - destruct (incomplete (Val message)) as [[|]|e0].
    + destruct (try_catch _ _ s) as [r s'] eqn:H. cbn [fst snd]. intros ->.
      eapply guarded_reply_throws; eassumption.
    + destruct (generate w (Val message) s) as [[v|e0] s1].
      * destruct (try_catch _ _ s1) as [r s'] eqn:H. cbn [fst snd]. intros ->.
        eapply guarded_reply_throws; eassumption.
      * destruct (recover w e0 s1) as [r s'] eqn:H. cbn [fst snd]. intros ->.
        eapply recover_throws; eassumption.
    + destruct (recover w e0 s) as [r s'] eqn:H. cbn [fst snd]. intros ->.
      eapply recover_throws; eassumption.
  - destruct (recover w e0 s) as [r s'] eqn:H. cbn [fst snd]. intros ->.
    eapply recover_throws; eassumption.
Qed.


Lemma parse_member (fuel : nat) (k tail : jsstring) :
  parse_members (S fuel) (34%N :: quote_chars k ++ 34%N :: 58%N :: tail) =
  match parse_value fuel tail with
  | Parsed v r2 =>
      match skip_ws r2 with
      | 44%N :: r3 =>
          match parse_members fuel r3 with
          | Parsed kvs r4 => Parsed ((k, v) :: kvs) r4
          | Malformed => Malformed
          | OutOfFuel => OutOfFuel
          end
      | 125%N :: r3 => Parsed [(k, v)] r3
      | _ => Malformed
      end
  | Malformed => Malformed
  | OutOfFuel => OutOfFuel
  end.
Proof.
  rewrite parse_members_S; lex. rewrite parse_string_quote; lex. reflexivity.
Qed.

Lemma parse_object_open (fuel : nat) (tail : jsstring) :
  parse_value (S fuel) (123%N :: 34%N :: tail) =
  match parse_members fuel (34%N :: tail) with
  | Parsed kvs r => Parsed (JObj (fold_left CreateDataProperty kvs [])) r
  | Malformed => Malformed
  | OutOfFuel => OutOfFuel
  end.
Proof. rewrite parse_value_S; lex. reflexivity. Qed.

Lemma parse_array_open (fuel : nat) (tail : jsstring) :
  parse_value (S fuel) (91%N :: 123%N :: tail) =
  match parse_elements fuel (123%N :: tail) with
  | Parsed vs r => Parsed (JArr vs) r
  | Malformed => Malformed
  | OutOfFuel => OutOfFuel
  end.
Proof. rewrite parse_value_S; lex. reflexivity. Qed.

Lemma fuel_split (n : nat) (text : jsstring) :
  n <= 2 * List.length text + 1 -> exists f, parse_fuel text = n + f.
Proof. intros H. exists (parse_fuel text - n). unfold parse_fuel. lia. Qed.


Lemma openai_body_parse (w : World) (p : jsstring) (fuel : nat) :
  parse_value (12 + fuel) (req_body (openai_request w (Val (JStr p)))) =
  Parsed (JObj [(js "model", JStr (js "gpt-4o"));
                (js "messages",
                 JArr [JObj [(js "role", JStr (js "user")); (js "content", JStr p)]])]) [].
Proof.
  cbn [req_body openai_request user_message object_literal JSON_stringify Nat.add].
  wire.
  rewrite parse_object_open, parse_member, parse_value_quote; lex.
  rewrite parse_member, parse_array_open, parse_elements_S, parse_object_open.
  rewrite parse_member_more, parse_member_last; lex.
  reflexivity.
Qed.


Lemma body_length (n : nat) (head text : jsstring) :
  n <= List.length head -> n <= 2 * List.length (head ++ text) + 1.
Proof. rewrite length_app. lia. Qed.

(** X3.  Whatever the prompt and whatever the answer, the OpenAI adapter
    issues one request, and the body of that request is JSON for
    [{ model: 'gpt-4o', messages: [{ role: 'user', content: prompt }] }]:
    no character of the prompt can change the shape of the body. *)
Theorem openai_request_carries_prompt (w : World) (p : jsstring) (s : Session) :
  calls (snd (generateWithOpenAI w (Val (JStr p)) s)) =
    calls s ++ [HttpFetch (openai_request w (Val (JStr p)))] /\
  JSON_parse (req_body (openai_request w (Val (JStr p)))) =
  Normal (JObj [(js "model", JStr (js "gpt-4o"));
                (js "messages",
                 JArr [JObj [(js "role", JStr (js "user")); (js "content", JStr p)]])]).
Proof.
  split.
  { change (generateWithOpenAI w (Val (JStr p)) s)
      with (adapter OpenAI w (Val (JStr p)) s).
    rewrite adapter_equation.
    destruct (backend_reading OpenAI w (List.length (calls s)) (Val (JStr p)));
      reflexivity. }
  unfold JSON_parse.
  destruct (fuel_split 12 (req_body (openai_request w (Val (JStr p))))) as [f ->].
  { cbn [req_body openai_request user_message object_literal JSON_stringify].
    wire. repeat (rewrite length_app || cbn [List.length]). lia. }
  rewrite openai_body_parse. reflexivity.
Qed.

Lemma gemini_body_parse (w : World) (p : jsstring) (fuel : nat) :
  parse_value (14 + fuel) (req_body (gemini_request w (Val (JStr p)))) =
  Parsed (JObj [(js "contents",
                 JArr [JObj [(js "role", JStr (js "user"));
                             (js "parts", JArr [JObj [(js "text", JStr p)]])]])]) [].
Proof.
  cbn [req_body gemini_request object_literal JSON_stringify Nat.add].
  wire.
  rewrite parse_object_open, parse_member, parse_array_open, parse_elements_S.
  rewrite parse_object_open, parse_member, parse_value_quote; lex.
  rewrite parse_member, parse_array_open, parse_elements_S, parse_object_open.
  rewrite parse_member, parse_value_quote; lex.
  reflexivity.
Qed.

(** X4.  The same for Gemini: one request, whose body is JSON for
    [{ contents: [{ role: 'user', parts: [{ text: prompt }] }] }]. *)
Theorem gemini_request_carries_prompt (w : World) (p : jsstring) (s : Session) :
  calls (snd (generateWithGemini w (Val (JStr p)) s)) =
    calls s ++ [HttpFetch (gemini_request w (Val (JStr p)))] /\
  JSON_parse (req_body (gemini_request w (Val (JStr p)))) =
  Normal (JObj [(js "contents",
                 JArr [JObj [(js "role", JStr (js "user"));
                             (js "parts", JArr [JObj [(js "text", JStr p)]])]])]).
Proof.
  split.
  { change (generateWithGemini w (Val (JStr p)) s)
      with (adapter Gemini w (Val (JStr p)) s).
    rewrite adapter_equation.
    destruct (backend_reading Gemini w (List.length (calls s)) (Val (JStr p)));
      reflexivity. }
  unfold JSON_parse.
  destruct (fuel_split 14 (req_body (gemini_request w (Val (JStr p))))) as [f ->].
  { cbn [req_body gemini_request object_literal JSON_stringify].
    wire. repeat (rewrite length_app || cbn [List.length]). lia. }
  rewrite gemini_body_parse. reflexivity.
Qed.

Lemma bare_frame_parse (i r : jsstring) :
  JSON_parse (response_frame i r Undefined) =
  Normal (JObj [(js "id", JStr i); (js "role", JStr r)]).
Proof.
  unfold JSON_parse.
  destruct (frame_fuel i r Undefined) as [fuel ->].
  unfold response_frame. cbn [object_literal JSON_stringify].
  wire.
  rewrite parse_object_open, parse_member_more, parse_member_last.
  reflexivity.
Qed.

(** X6.  A payload that is JSON but no object is turned away without a
    backend call: [null] through the [catch] block, with the engine's
    TypeError for reading [agent] (and one log entry); a number, a string,
    a boolean or an array with the invalid-format message (and none). *)
Theorem non_object_payload_is_rejected
    (w : World) (data : MessageData) (s : Session) (message : json) :
  socket s = Open ->
  JSON_parse (data_text data) = Normal message ->
  (forall props, message <> JObj props) ->
  (message = JNull ->
   onMessage w data s =
   (Normal tt,
    written w (js "error")
      (Val (JStr (failed_to_process (NullishReadMessage true (js "agent")))))
      (logged (ConsoleError (js "Error processing WebSocket message:")
                 (Some (mkError TypeError (NullishReadMessage true (js "agent"))))) s))) /\
  (message <> JNull ->
   onMessage w data s =
   (Normal tt, written w (js "error") (Val (JStr invalid_format)) s)).
Proof.
  intros Hopen Hparse Hobj. rewrite onMessage_equation, Hparse. split.
  - intros ->. unfold incomplete. cbn [Get and_then].
    now rewrite recover_open.
  - intros Hnull.
    assert (incomplete (Val message) = Normal true) as ->.
    { destruct message as [|b|n|t|elems|props];
        [contradiction| | | | |exfalso; now apply (Hobj props)]; reflexivity. }
    now rewrite guarded_reply_open.
Qed.

Lemma array_buffer_is_not_json :
  JSON_parse (js "[object ArrayBuffer]") =
  Throw (mkError SyntaxError (JSONSyntaxErrorMessage (js "[object ArrayBuffer]"))).
Proof. reflexivity. Qed.

(** X7.  A binary frame is never processed: the cast to a string
    converts nothing, [JSON.parse] sees the name of the ArrayBuffer, and
    the client gets an error response whatever the bytes. *)
Theorem binary_frame_is_rejected
    (w : World) (bytes : list N) (s : Session) :
  socket s = Open ->
  onMessage w (BinaryData bytes) s =
  (Normal tt,
   written w (js "error")
     (Val (JStr (failed_to_process (JSONSyntaxErrorMessage (js "[object ArrayBuffer]")))))
     (logged (ConsoleError (js "Error processing WebSocket message:")
                (Some (mkError SyntaxError
                         (JSONSyntaxErrorMessage (js "[object ArrayBuffer]"))))) s)).
Proof.
  intros Hopen. rewrite onMessage_equation. cbn [data_text].
  rewrite array_buffer_is_not_json. now rewrite recover_open.
Qed.

(** X10.  A success status with an empty body is a failure of the HTTP
    adapters: the empty text is not JSON. *)
Theorem empty_body_is_a_failure
    (a : Agent) (w : World) (prompt : JSValue) (s : Session)
    (request : HttpRequest) (response : HttpResponse) :
  http_request a w prompt = Some request ->
  fetch_answer w (List.length (calls s)) request = Normal response ->
  ok response = true ->
  body response = Normal [] ->
  fst (adapter a w prompt s) = Throw (Error (adapter_failure a)).
Proof.
  intros Hreq Hans Hok Hbody. rewrite adapter_equation.
  destruct a; cbn [http_request] in Hreq; [discriminate Hreq| |];
    injection Hreq as <-; cbn [backend_reading]; rewrite Hans; cbn [and_then];
    unfold openai_read, gemini_read, response_json; rewrite Hok, Hbody; reflexivity.
Qed.

(** X11.  The Workers AI adapter fails exactly when the call is rejected
    or resolves to [undefined] or [null].  Any other answer is a success,
    and the result is whatever is under [response] in it, [undefined] when
    nothing is. *)
Theorem cloudflare_fails_iff (w : World) (prompt : JSValue) (s : Session) :
  (fst (generateWithCloudflare w prompt s) = Throw (Error cloudflare_failure) <->
   (exists e, AI_answer w (List.length (calls s)) cloudflare_model (cloudflare_input prompt)
              = Throw e) \/
   AI_answer w (List.length (calls s)) cloudflare_model (cloudflare_input prompt)
     = Normal Undefined \/
   AI_answer w (List.length (calls s)) cloudflare_model (cloudflare_input prompt)
     = Normal (Val JNull)) /\
  (forall answer,
     AI_answer w (List.length (calls s)) cloudflare_model (cloudflare_input prompt)
       = Normal (Val answer) ->
     answer <> JNull ->
     exists v, Get (Val answer) (js "response") = Normal v /\
               fst (generateWithCloudflare w prompt s) = Normal v).
Proof.
  change (generateWithCloudflare w prompt s) with (adapter Cloudflare w prompt s).
  rewrite adapter_equation. cbn [backend_reading adapter_failure].
  destruct (AI_answer w (List.length (calls s)) cloudflare_model (cloudflare_input prompt))
    as [[|answer]|e]; cbn [and_then]; unfold cloudflare_read.
  - split.
    + split; [auto|reflexivity].
    + intros answer H; discriminate H.
  - split.
    + destruct answer; cbn [Get fst]; split; auto;
        try (intros H; discriminate H);
        try (intros [[e H]|[H|H]]; discriminate H).
      all: try (destruct (index_key _); [destruct (nth_error _ _)|]; intros H; discriminate H).
      all: try (destruct (lookup _ _); intros H; discriminate H).
    + intros answer' H Hn. injection H as <-.
      destruct (Get_total answer (js "response") Hn) as [v Hv].
      exists v. now rewrite Hv.
  - split.
    + split; [left; now exists e|reflexivity].
    + intros answer H; discriminate H.
Qed.

Lemma numbered_frames_length (w : World) (answers : list (jsstring * JSValue)) (k : nat) :
  List.length (numbered_frames w k answers) = List.length answers.
Proof.
  revert k. induction answers as [|[r c] rest IH]; intros k; cbn; [reflexivity|].
  now rewrite IH.
Qed.

(** The identifier can be read off a frame. *)
Lemma response_frame_id (i r i' r' : jsstring) (c c' : JSValue) :
  response_frame i r c = response_frame i' r' c' -> i = i'.
Proof.
  unfold response_frame. intros H.
  assert (forall (j : jsstring) (rest : list (jsstring * json)),
            exists tail,
              JSON_stringify (JObj ((js "id", JStr j) :: rest)) =
              [123; 34; 105; 100; 34; 58; 34]%N ++ quote_chars j ++ 34%N :: tail) as Hshape.
  { intros j rest. cbn [JSON_stringify]. unfold QuoteJSONString, dq.
    repeat rewrite <- app_assoc. cbn [app].
    eexists. reflexivity. }
  cbn [object_literal] in H.
  destruct (Hshape i (object_literal [(js "role", Val (JStr r)); (js "content", c)]))
    as [t1 H1].
  destruct (Hshape i' (object_literal [(js "role", Val (JStr r')); (js "content", c')]))
    as [t2 H2].
  cbn [object_literal] in H1, H2. rewrite H1, H2 in H.
  apply app_inv_head in H.
  apply (f_equal parse_chars) in H. rewrite !parse_chars_quote in H.
  now injection H.
Qed.

Lemma numbered_frames_In (w : World) (answers : list (jsstring * JSValue)) (k : nat)
    (frame : jsstring) :
  In frame (numbered_frames w k answers) ->
  exists n r c, k <= n /\ frame = response_frame (uuid_source w n) r c.
Proof.
  revert k. induction answers as [|[r c] rest IH]; intros k; cbn; [contradiction|].
  intros [<-|H].
  - exists k, r, c. auto.
  - destruct (IH _ H) as (n & r' & c' & Hn & ->). exists n, r', c'. split; [lia|reflexivity].
Qed.

Lemma numbered_frames_NoDup (w : World) (answers : list (jsstring * JSValue)) (k : nat) :
  (forall m n, uuid_source w m = uuid_source w n -> m = n) ->
  NoDup (numbered_frames w k answers).
Proof.
  intros Hinj. revert k.
  induction answers as [|[r c] rest IH]; intros k; cbn; constructor; [|apply IH].
  intros Hin. apply numbered_frames_In in Hin as (n & r' & c' & Hn & Heq).
  apply response_frame_id, Hinj in Heq. lia.
Qed.

(** ** Messages that overlap *)

Lemma route_supported (a : Agent) (w : World) (message : JSValue) (s : Session) :
  Get message (js "agent") = Normal (Val (JStr (agent_name a))) ->
  route w message s =
  match Get message (js "prompt") with
  | Normal prompt => issue a w prompt s
  | Throw e => (Throw e, s)
  end.
Proof.
  intros H. unfold route, bind, lift. rewrite H.
  destruct a; simpl; destruct (Get message (js "prompt")); reflexivity.
Qed.

Lemma route_unsupported (w : World) (message agent : JSValue) (s : Session) :
  Get message (js "agent") = Normal agent ->
  (forall a, StrictEqualsString agent (agent_name a) = false) ->
  route w message s =
  match ToString agent with
  | Normal shown => (Throw (Error (unsupported_agent shown)), s)
  | Throw e => (Throw e, s)
  end.
Proof.
  intros H Hno. unfold route, bind, lift. rewrite H.
  pose proof (Hno Cloudflare) as H1. pose proof (Hno OpenAI) as H2.
  pose proof (Hno Gemini) as H3. simpl in H1, H2, H3.
  rewrite H1, H2, H3. destruct (ToString agent); reflexivity.
Qed.

(** The adapter in its two halves is the adapter. *)
Lemma adapter_in_two_halves (a : Agent) (w : World) (prompt : JSValue) (s : Session) :
  client_leaves w (List.length (calls s)) = false ->
  adapter a w prompt s =
  match issue a w prompt s with
  | (Normal t, s1) => adapter_resumes w t s1
  | (Throw e, s1) => (Throw e, s1)
  end.
Proof.
  intros Hstay. rewrite adapter_equation.
  unfold issue, adapter_resumes, try_catch, lift, bind, console_error, throw, suspend,
    logged.
  cbn [task_agent task_call task_prompt]. rewrite Hstay.
  destruct (backend_reading a w (List.length (calls s)) prompt); reflexivity.
Qed.

Lemma generate_in_two_halves (w : World) (message : JSValue) (s : Session) :
  client_leaves w (List.length (calls s)) = false ->
  generate w message s =
  match route w message s with
  | (Normal t, s1) => adapter_resumes w t s1
  | (Throw e, s1) => (Throw e, s1)
  end.
Proof.
  intros Hstay.
  destruct (Get message (js "agent")) as [agent|e] eqn:Hagent.
  - destruct (supported_or_not agent) as [[a ->]|Hno].
    + rewrite (generate_supported a w message s Hagent).
      rewrite (route_supported a w message s Hagent).
      destruct (Get message (js "prompt")); [|reflexivity].
      now apply adapter_in_two_halves.
    + rewrite (generate_unsupported w message agent s Hagent Hno).
      rewrite (route_unsupported w message agent s Hagent Hno).
      destruct (ToString agent); reflexivity.
  - unfold generate, route, bind, lift. rewrite Hagent. reflexivity.
Qed.

(** Steps of the monad. *)
Lemma try_bind_lift {A B : Type} (c : Completion A) (k : A -> M B)
    (h : JSError -> M B) (s : Session) :
  try_catch (bind (lift c) k) h s =
  match c with
  | Normal a => try_catch (k a) h s
  | Throw e => h e s
  end.
Proof. unfold try_catch, bind, lift. destruct c; reflexivity. Qed.

Lemma try_bind_ret {A B : Type} (m : M A) (f : A -> B) (h : JSError -> M B)
    (s : Session) :
  try_catch (bind m (fun a => ret (f a))) h s =
  match m s with
  | (Normal a, s1) => (Normal (f a), s1)
  | (Throw e, s1) => h e s1
  end.
Proof. unfold try_catch, bind, ret. destruct (m s) as [[a|e] s1]; reflexivity. Qed.

Lemma own_bind (m : M unit) (s : Session) :
  bind m (fun _ => ret (None : option Task)) s = on_its_own (m s).
Proof. unfold bind, ret, on_its_own. destruct (m s) as [[[]|e] s1]; reflexivity. Qed.

Lemma own_try (m : M unit) (h : JSError -> M unit) (s : Session) :
  try_catch (bind m (fun _ => ret (None : option Task)))
            (fun err => bind (h err) (fun _ => ret None)) s =
  on_its_own (try_catch m h s).
Proof.
  unfold try_catch, bind, ret, on_its_own.
  destruct (m s) as [[[]|e] s1]; [reflexivity|].
  destruct (h e s1) as [[[]|e'] s2]; reflexivity.
Qed.

(** The first half of the listener, stage by stage. *)
Lemma listener_begins_equation (w : World) (data : MessageData) (s : Session) :
  listener_begins w data s =
  match JSON_parse (data_text data) with
  | Throw e => on_its_own (recover w e s)
  | Normal message =>
      match incomplete (Val message) with
      | Throw e => on_its_own (recover w e s)
      | Normal true =>
          on_its_own
            (try_catch (reply w (js "error") (Val (JStr invalid_format))) (recover w) s)
      | Normal false =>
          match route w (Val message) s with
          | (Normal t, s1) => (Normal (Some t), s1)
          | (Throw e, s1) => on_its_own (recover w e s1)
          end
      end
  end.
Proof.
  unfold listener_begins. rewrite try_bind_lift.
  destruct (JSON_parse (data_text data)) as [message|e];
    [|exact (own_bind (recover w e) s)].
  rewrite try_bind_lift.
  destruct (incomplete (Val message)) as [[|]|e];
    [| |exact (own_bind (recover w e) s)].
  - exact (own_try (reply w (js "error") (Val (JStr invalid_format))) (recover w) s).
  - rewrite try_bind_ret.
    destruct (route w (Val message) s) as [[t|e] s1];
      [reflexivity|exact (own_bind (recover w e) s1)].
Qed.

Lemma listener_resumes_equation (w : World) (t : Task) (s : Session) :
  listener_resumes w t s =
  match adapter_resumes w t s with
  | (Normal v, s1) => try_catch (reply w (js "assistant") v) (recover w) s1
  | (Throw e, s1) => recover w e s1
  end.
Proof.
  unfold listener_resumes, try_catch at 1, bind at 1.
  destruct (adapter_resumes w t s) as [[v|e] s1]; reflexivity.
Qed.

(** The listener in its two halves, with nothing in between, is the
    listener. *)
Lemma listener_in_two_halves (w : World) (data : MessageData) (s : Session) :
  client_leaves w (List.length (calls s)) = false ->
  onMessage w data s =
  match listener_begins w data s with
  | (Normal (Some t), s1) => listener_resumes w t s1
  | (Normal None, s1) => (Normal tt, s1)
  | (Throw e, s1) => (Throw e, s1)
  end.
Proof.
  assert (forall r : Completion unit * Session,
            r = match on_its_own r with
                | (Normal (Some t), s1) => listener_resumes w t s1
                | (Normal None, s1) => (Normal tt, s1)
                | (Throw e, s1) => (Throw e, s1)
                end) as Hown
    by (intros [[[]|e] s1]; reflexivity).
  intros Hstay. rewrite onMessage_equation, listener_begins_equation.
  destruct (JSON_parse (data_text data)) as [message|e]; [|apply Hown].
  destruct (incomplete (Val message)) as [[|]|e]; try apply Hown.
  rewrite (generate_in_two_halves w (Val message) s Hstay).
  destruct (route w (Val message) s) as [[t|e] s1]; [|apply Hown].
  now rewrite listener_resumes_equation.
Qed.

(** X17.  A conversation in which every backend call is answered before
    the next message arrives, and the client stays, leaves the session
    exactly as if each listener had run from its first line to its last
    without a pause: the same frames, log entries, identifiers and calls,
    and no listener left waiting. *)
Theorem run_is_one_by_one (w : World) (datas : list MessageData) :
  (forall k, client_leaves w k = false) ->
  forall s,
    interleave w (mkConversation s []) (one_by_one datas) =
    mkConversation (run w s (map MessageEvent datas)) [].
Proof.
  intros Hstay. unfold interleave, run, one_by_one.
  induction datas as [|data datas IH]; intros s; [reflexivity|].
  cbn [flat_map map app fold_left].
  replace (step w (step w (mkConversation s []) (Arrives data)) (Answers 0))
    with (mkConversation (deliver w s (MessageEvent data)) []); [apply IH|].
  cbn [step deliver session pending].
  destruct (socket s); [|reflexivity].
  rewrite (listener_in_two_halves w data s (Hstay _)).
  destruct (listener_begins w data s) as [[[t|]|e] s1]; reflexivity.
Qed.

(** The first half on an open connection: it has written its one
    response, or it waits and has written nothing. *)
Lemma listener_begins_open (w : World) (data : MessageData) (s : Session) :
  socket s = Open ->
  exists result s',
    listener_begins w data s = (Normal result, s') /\
    socket s' = Open /\
    unhandled s' = unhandled s /\
    match result with
    | None =>
        exists role content,
          outbox s' = outbox s ++ [response_frame (uuid_source w (uuids s)) role content] /\
          uuids s' = S (uuids s)
    | Some t => outbox s' = outbox s /\ uuids s' = uuids s
    end.
Proof.
  intros Hopen.
  assert (forall e s0,
            socket s0 = Open -> outbox s0 = outbox s -> uuids s0 = uuids s ->
            unhandled s0 = unhandled s ->
            exists result s',
              on_its_own (recover w e s0) = (Normal result, s') /\
              socket s' = Open /\
              unhandled s' = unhandled s /\
              match result with
              | None =>
                  exists role content,
                    outbox s' =
                      outbox s ++ [response_frame (uuid_source w (uuids s)) role content] /\
                    uuids s' = S (uuids s)
              | Some t => outbox s' = outbox s /\ uuids s' = uuids s
              end) as Hrec.
  { intros e s0 H0 Ho Hu Hh. rewrite (recover_open w e s0 H0).
    eexists None, _. split; [reflexivity|].
    cbn [written logged socket outbox uuids unhandled]. rewrite H0, Ho, Hu, Hh.
    repeat split. eexists _, _. split; reflexivity. }
  rewrite listener_begins_equation.
  destruct (JSON_parse (data_text data)) as [message|e]; [|now apply Hrec].
  destruct (incomplete (Val message)) as [[|]|e]; [| |now apply Hrec].
  - rewrite (guarded_reply_open w _ _ s Hopen).
    eexists None, _. split; [reflexivity|].
    cbn [written socket outbox uuids unhandled]. rewrite Hopen.
    repeat split. eexists _, _. split; reflexivity.
  - destruct (Get (Val message) (js "agent")) as [agent|e] eqn:Hagent.
    + destruct (supported_or_not agent) as [[a ->]|Hno].
      * rewrite (route_supported a w (Val message) s Hagent).
        destruct (Get (Val message) (js "prompt")) as [prompt|e]; [|now apply Hrec].
        unfold issue. eexists (Some _), _. split; [reflexivity|].
        cbn [socket outbox uuids unhandled]. repeat split. exact Hopen.
      * rewrite (route_unsupported w (Val message) agent s Hagent Hno).
        destruct (ToString agent); now apply Hrec.
    + unfold route, bind, lift. rewrite Hagent. now apply Hrec.
Qed.

(** The second half on an open connection writes its one response. *)
Lemma listener_resumes_open (w : World) (t : Task) (s : Session) :
  socket s = Open ->
  exists role content s',
    listener_resumes w t s = (Normal tt, s') /\
    outbox s' = outbox s ++ [response_frame (uuid_source w (uuids s)) role content] /\
    uuids s' = S (uuids s) /\
    socket s' = Open /\
    unhandled s' = unhandled s.
Proof.
  intros Hopen. rewrite listener_resumes_equation.
  unfold adapter_resumes, try_catch at 1, lift, bind, console_error, throw.
  destruct (backend_reading (task_agent t) w (task_call t) (task_prompt t)) as [v|e].
  - rewrite (guarded_reply_open w _ _ s Hopen).
    eexists _, _, _. split; [reflexivity|].
    cbn [written socket outbox uuids unhandled]. rewrite Hopen. repeat split.
  - rewrite recover_open by exact Hopen.
    eexists _, _, _. split; [reflexivity|].
    cbn [written logged socket outbox uuids unhandled]. rewrite Hopen. repeat split.
Qed.

Lemma remove_nth_length {A : Type} (l : list A) (i : nat) (x : A) :
  nth_error l i = Some x -> S (List.length (remove_nth i l)) = List.length l.
Proof.
  revert i. induction l as [|y l IH]; intros [|i] H; cbn in *; try discriminate H.
  - reflexivity.
  - f_equal. now apply IH.
Qed.

Lemma numbered_frames_app (w : World) (first rest : list (jsstring * JSValue)) (k : nat) :
  numbered_frames w k (first ++ rest) =
  numbered_frames w k first ++ numbered_frames w (k + List.length first) rest.
Proof.
  revert k. induction first as [|[role content] first IH]; intros k;
    cbn [app numbered_frames List.length].
  - now rewrite Nat.add_0_r.
  - rewrite IH. do 3 f_equal. lia.
Qed.

(** Over any schedule in which the client stays: the frames written are
    numbered by the identifiers in the order drawn, and every message has
    its frame or waits. *)
Lemma interleave_open (w : World) (steps : list Step) :
  (forall ev, In ev steps -> ev <> Leaves) ->
  forall c,
    socket (session c) = Open ->
    exists answers,
      outbox (session (interleave w c steps)) =
        outbox (session c) ++ numbered_frames w (uuids (session c)) answers /\
      uuids (session (interleave w c steps)) = uuids (session c) + List.length answers /\
      List.length answers + List.length (pending (interleave w c steps)) =
        List.length (pending c) + arrivals steps /\
      socket (session (interleave w c steps)) = Open /\
      unhandled (session (interleave w c steps)) = unhandled (session c).
Proof.
  unfold interleave.
  induction steps as [|ev steps IH]; intros Hstay c Hopen; cbn [fold_left arrivals].
  - exists []. cbn. rewrite app_nil_r, !Nat.add_0_r. repeat split. exact Hopen.
  - assert (forall ev', In ev' steps -> ev' <> Leaves) as Hrest
      by (intros ev' Hin; apply Hstay; now right).
    assert (exists first,
              outbox (session (step w c ev)) =
                outbox (session c) ++ numbered_frames w (uuids (session c)) first /\
              uuids (session (step w c ev)) = uuids (session c) + List.length first /\
              List.length first + List.length (pending (step w c ev)) =
                List.length (pending c) + arrivals [ev] /\
              socket (session (step w c ev)) = Open /\
              unhandled (session (step w c ev)) = unhandled (session c)) as Hone.
    { destruct ev as [data|i|].
      - cbn [step arrivals]. rewrite Hopen.
        destruct (listener_begins_open w data (session c) Hopen)
          as (result & s' & -> & H1 & H2 & H3).
        destruct result as [t|].
        + destruct H3 as [H3 H4]. exists []. cbn. rewrite length_app. cbn.
          rewrite app_nil_r, Nat.add_0_r. repeat split; try assumption; try lia.
        + destruct H3 as (role & content & H3 & H4). exists [(role, content)]. cbn.
          repeat split; try assumption; lia.
      - cbn [step arrivals].
        destruct (nth_error (pending c) i) as [t|] eqn:Hnth.
        + destruct (listener_resumes_open w t (session c) Hopen)
            as (role & content & s' & -> & H1 & H2 & H3 & H4).
          exists [(role, content)]. cbn.
          pose proof (remove_nth_length (pending c) i t Hnth).
          repeat split; try assumption; lia.
        + exists []. cbn. rewrite app_nil_r, !Nat.add_0_r.
          repeat split; try assumption; try lia.
      - exfalso. apply (Hstay Leaves); [now left|reflexivity]. }
    destruct Hone as (first & O1 & U1 & P1 & S1 & X1).
    destruct (IH Hrest (step w c ev) S1) as (rest & O2 & U2 & P2 & S2 & X2).
    exists (first ++ rest).
    rewrite O2, U2, O1, U1, X2, X1, numbered_frames_app, length_app, <- app_assoc.
    repeat split; try assumption; try lia.
    cbn [arrivals] in P1. destruct ev; cbn [arrivals]; lia.
Qed.

(** X8.  When messages overlap: over any interleaving of messages that
    arrive and backends that answer, on a connection the client does not
    leave, every message has been answered by exactly one response or
    still waits for its backend; the k-th response written carries the
    k-th identifier drawn; and with a source that never repeats no two
    responses are the same frame. *)
Theorem overlapping_messages_one_response_each
    (w : World) (steps : list Step) (c : Conversation) :
  (forall ev, In ev steps -> ev <> Leaves) ->
  socket (session c) = Open ->
  exists answers,
    outbox (session (interleave w c steps)) =
      outbox (session c) ++ numbered_frames w (uuids (session c)) answers /\
    List.length answers + List.length (pending (interleave w c steps)) =
      List.length (pending c) + arrivals steps /\
    ((forall m n, uuid_source w m = uuid_source w n -> m = n) ->
     NoDup (numbered_frames w (uuids (session c)) answers)).
Proof.
  intros Hstay Hopen.
  destruct (interleave_open w steps Hstay c Hopen) as (answers & H1 & _ & H3 & _).
  exists answers. split; [exact H1|]. split; [exact H3|].
  intros Hinj. now apply numbered_frames_NoDup.
Qed.

(** X9.  On a status that is no success, the provider's status and body
    go to the log, in the error the adapter caught, followed by the
    listener's entry for the adapter's own error; the client gets the
    adapter's fixed message. *)
Theorem status_and_body_are_logged
    (w : World) (data : MessageData) (s : Session) (message : json)
    (a : Agent) (prompt : JSValue) (request : HttpRequest)
    (response : HttpResponse) (text : jsstring) :
  socket s = Open ->
  client_leaves w (List.length (calls s)) = false ->
  JSON_parse (data_text data) = Normal message ->
  Get (Val message) (js "agent") = Normal (Val (JStr (agent_name a))) ->
  Get (Val message) (js "prompt") = Normal prompt ->
  ToBoolean prompt = true ->
  http_request a w prompt = Some request ->
  fetch_answer w (List.length (calls s)) request = Normal response ->
  ok response = false ->
  body response = Normal text ->
  console (snd (onMessage w data s)) =
    console s ++
    [ConsoleError (adapter_label a) (Some (Error (status_report a response text)));
     ConsoleError (js "Error processing WebSocket message:")
       (Some (Error (adapter_failure a)))] /\
  outbox (snd (onMessage w data s)) =
    outbox s ++ [encode (mkOutbound (uuid_source w (uuids s)) Failure
                           (failed_to_process (adapter_failure a)))].
Proof.
  intros Hopen Hstay Hparse Hagent Hprompt Htruthy Hreq Hans Hok Hbody.
  assert (backend_reading a w (List.length (calls s)) prompt =
          Throw (Error (status_report a response text))) as Hback.
  { destruct a; cbn [http_request] in Hreq; [discriminate Hreq| |];
      injection Hreq as <-; cbn [backend_reading]; rewrite Hans; cbn [and_then];
      unfold openai_read, gemini_read, response_text; rewrite Hok, Hbody; reflexivity. }
  rewrite onMessage_equation, Hparse.
  rewrite (valid_message message a prompt Hagent Hprompt Htruthy).
  rewrite (generate_supported a w (Val message) s Hagent), Hprompt.
  rewrite adapter_equation, Hback.
  rewrite recover_open by (simpl; now rewrite Hstay).
  cbn [snd written logged suspend console outbox uuids err_message Error].
  rewrite <- app_assoc. split; reflexivity.
Qed.

(** X5.  When the adapter finds nothing where the text should be, the
    session answers as on success: the frame has the role [assistant] and
    no [content] at all, and nothing is logged. *)
Theorem missing_text_leaves_content_out
    (w : World) (data : MessageData) (s : Session) (message : json)
    (a : Agent) (prompt : JSValue) :
  socket s = Open ->
  client_leaves w (List.length (calls s)) = false ->
  JSON_parse (data_text data) = Normal message ->
  Get (Val message) (js "agent") = Normal (Val (JStr (agent_name a))) ->
  Get (Val message) (js "prompt") = Normal prompt ->
  ToBoolean prompt = true ->
  backend_reading a w (List.length (calls s)) prompt = Normal Undefined ->
  exists frame,
    outbox (snd (onMessage w data s)) = outbox s ++ [frame] /\
    JSON_parse frame =
      Normal (JObj [(js "id", JStr (uuid_source w (uuids s)));
                    (js "role", JStr (js "assistant"))]) /\
    console (snd (onMessage w data s)) = console s.
Proof.
  intros Hopen Hstay Hparse Hagent Hprompt Htruthy Hback.
  rewrite onMessage_equation, Hparse.
  rewrite (valid_message message a prompt Hagent Hprompt Htruthy).
  rewrite (generate_supported a w (Val message) s Hagent), Hprompt.
  rewrite adapter_equation, Hback.
  rewrite guarded_reply_open by (simpl; now rewrite Hstay).
  eexists. split; [reflexivity|]. split; [|reflexivity].
  apply bare_frame_parse.
Qed.

(** X12.  [fetch] upgrades the connection only for an [Upgrade] header
    whose value is exactly [websocket]: the name of the header may be in
    any case, the value may not.  Any other value gets the plain 200
    answer and no connection. *)
Theorem upgrade_needs_exact_value
    (name value : jsstring) (others : list (jsstring * jsstring)) :
  lower_string name = js "upgrade" ->
  values_of (js "Upgrade") others = [] ->
  (ChatSession_fetch ((name, value) :: others) = Switching fresh <->
   value = js "websocket") /\
  (value <> js "websocket" ->
   ChatSession_fetch ((name, value) :: others) = Plain 200 (js "Chat session active")).
Proof.
  intros Hname Hothers. unfold ChatSession_fetch, Headers_get.
  cbn [values_of]. rewrite Hname.
  change (eqb_string (js "upgrade") (lower_string (js "Upgrade"))) with true.
  cbn iota. rewrite Hothers. cbn [join_values].
  destruct (eqb_string value (js "websocket")) eqn:Hv.
  - apply eqb_string_eq in Hv. split; [split; auto|]. intros H; contradiction.
  - apply eqb_string_neq in Hv. split; [|reflexivity].
    split; [discriminate|intros H; contradiction].
Qed.

(** X13.  The chat route: a non-empty [id] names the session, and draws
    no identifier; an empty [id] is treated as a missing one; and a
    request without [id] gets a name that no later request without [id]
    gets again, when the identifier source never repeats. *)
Theorem session_addressing (ids : nat -> jsstring) (drawn : nat) :
  (forall id drawn', id <> [] ->
     session_name ids (Some id) drawn = (id, drawn) /\
     fst (session_name ids (Some id) drawn') = fst (session_name ids (Some id) drawn)) /\
  session_name ids (Some []) drawn = session_name ids None drawn /\
  ((forall m n, ids m = ids n -> m = n) ->
   forall later,
     snd (session_name ids None drawn) <= later ->
     fst (session_name ids None later) <> fst (session_name ids None drawn)).
Proof.
  repeat split.
  - destruct id; [contradiction|reflexivity].
  - destruct id; [contradiction|reflexivity].
  - intros Hinj later Hle Heq. cbn in *. apply Hinj in Heq. lia.
Qed.

(** X14.  The first version of the listener: on an open connection every
    message, text or binary, gets one assistant response whose content is
    [You said: ] followed by the message as a string; no backend is
    called and nothing is logged.  It has no [catch]: a [send] that raises
    on a closed connection leaves the listener at once. *)
Theorem echo_answers_every_message (w : World) (data : MessageData) (s : Session) :
  (socket s = Open ->
   exists frame,
     Echo.onMessage w data s =
       (Normal tt,
        mkSession Open (outbox s ++ [frame]) (console s) (S (uuids s)) (calls s)
                  (unhandled s)) /\
     JSON_parse frame =
       Normal (JObj [(js "id", JStr (uuid_source w (uuids s)));
                     (js "role", JStr (js "assistant"));
                     (js "content", JStr (js "You said: " ++ data_text data))])) /\
  (forall e,
     socket s = Closed ->
     send_when_closed w = Raises e ->
     Echo.onMessage w data s = (Throw e, drawn s)).
Proof.
  assert (Echo.onMessage w data s =
          reply w (js "assistant") (Val (JStr (js "You said: " ++ data_text data))) s)
    as -> by reflexivity.
  split.
  - intros Hopen. rewrite reply_open by assumption. unfold written. rewrite Hopen.
    eexists. split; [reflexivity|]. apply JSON_parse_frame.
  - intros e Hc Hr. rewrite reply_closed by assumption. now rewrite Hr.
Qed.

Lemma same_but_calls_refl (s : Session) : same_but_calls s s.
Proof. now constructor. Qed.

Lemma reading_without_keys (a : Agent) (w : World) (k1 k2 : jsstring) (k : nat)
    (prompt : JSValue) :
  (forall n r1 r2, req_body r1 = req_body r2 -> fetch_answer w n r1 = fetch_answer w n r2) ->
  backend_reading a (with_keys w k1 k2) k prompt = backend_reading a w k prompt.
Proof.
  intros H. destruct a; cbn [backend_reading with_keys AI_answer fetch_answer].
  - reflexivity.
  - now rewrite (H k (openai_request (with_keys w k1 k2) prompt) (openai_request w prompt) eq_refl).
  - now rewrite (H k (gemini_request (with_keys w k1 k2) prompt) (gemini_request w prompt) eq_refl).
Qed.

Lemma generate_without_keys (w : World) (k1 k2 : jsstring) (message : JSValue) (s : Session) :
  (forall n r1 r2, req_body r1 = req_body r2 -> fetch_answer w n r1 = fetch_answer w n r2) ->
  fst (generate (with_keys w k1 k2) message s) = fst (generate w message s) /\
  same_but_calls (snd (generate (with_keys w k1 k2) message s)) (snd (generate w message s)).
Proof.
  intros H.
  destruct (Get message (js "agent")) as [agent|e] eqn:Hagent.
  - destruct (supported_or_not agent) as [[a ->]|Hno].
    + rewrite !(generate_supported a _ message s Hagent).
      destruct (Get message (js "prompt")) as [prompt|e];
        [|split; [reflexivity|apply same_but_calls_refl]].
      rewrite !adapter_equation, reading_without_keys by exact H.
      destruct (backend_reading a w (List.length (calls s)) prompt);
        (split; [reflexivity|]); constructor; cbn; rewrite ?length_app; reflexivity.
    + rewrite !(generate_unsupported _ message agent s Hagent Hno).
      destruct (ToString agent); (split; [reflexivity|apply same_but_calls_refl]).
  - unfold generate, bind, lift. rewrite Hagent.
    split; [reflexivity|apply same_but_calls_refl].
Qed.

Lemma reply_without_keys (w : World) (k1 k2 role : jsstring) (content : JSValue)
    (s1 s2 : Session) :
  same_but_calls s1 s2 ->
  fst (reply (with_keys w k1 k2) role content s1) = fst (reply w role content s2) /\
  same_but_calls (snd (reply (with_keys w k1 k2) role content s1))
                 (snd (reply w role content s2)).
Proof.
  intros [Hs Ho Hc Hu Hh Hn].
  unfold reply, bind, randomUUID, send. cbn. rewrite Hs, Hu.
  destruct (socket s2); [|destruct (send_when_closed w)];
    (split; [reflexivity|]); constructor; cbn; congruence.
Qed.

Lemma recover_without_keys (w : World) (k1 k2 : jsstring) (e : JSError) (s1 s2 : Session) :
  same_but_calls s1 s2 ->
  fst (recover (with_keys w k1 k2) e s1) = fst (recover w e s2) /\
  same_but_calls (snd (recover (with_keys w k1 k2) e s1)) (snd (recover w e s2)).
Proof.
  intros H. unfold recover, bind, console_error.
  apply reply_without_keys. destruct H. constructor; cbn; congruence.
Qed.

Lemma guarded_without_keys (w : World) (k1 k2 role : jsstring) (content : JSValue)
    (s1 s2 : Session) :
  same_but_calls s1 s2 ->
  same_but_calls
    (snd (try_catch (reply (with_keys w k1 k2) role content)
                    (recover (with_keys w k1 k2)) s1))
    (snd (try_catch (reply w role content) (recover w) s2)).
Proof.
  intros H. unfold try_catch.
  destruct (reply_without_keys w k1 k2 role content s1 s2 H) as [Hf Hr].
  destruct (reply (with_keys w k1 k2) role content s1) as [r1 t1].
  destruct (reply w role content s2) as [r2 t2]. cbn [fst snd] in *. subst r2.
  destruct r1; [exact Hr|]. now apply recover_without_keys.
Qed.

(** X15.  The API keys reach neither the client nor the log: when the
    providers' answers depend on the body of a request only, neither the
    frames written nor the log entries depend on the keys. *)
Theorem keys_stay_out_of_frames_and_logs
    (w : World) (openai gemini : jsstring) (data : MessageData) (s : Session) :
  (forall n r1 r2, req_body r1 = req_body r2 -> fetch_answer w n r1 = fetch_answer w n r2) ->
  outbox (snd (onMessage (with_keys w openai gemini) data s)) =
    outbox (snd (onMessage w data s)) /\
  console (snd (onMessage (with_keys w openai gemini) data s)) =
    console (snd (onMessage w data s)).
Proof.
  intros H.
  assert (same_but_calls (snd (onMessage (with_keys w openai gemini) data s))
                         (snd (onMessage w data s))) as [_ Ho Hc _ _ _].
  { rewrite !onMessage_equation.
    destruct (JSON_parse (data_text data)) as [message|e];
      [|now apply recover_without_keys, same_but_calls_refl].
    destruct (incomplete (Val message)) as [[|]|e];
      [now apply guarded_without_keys, same_but_calls_refl| |
       now apply recover_without_keys, same_but_calls_refl].
    destruct (generate_without_keys w openai gemini (Val message) s H) as [Hf Hr].
    destruct (generate (with_keys w openai gemini) (Val message) s) as [r1 t1].
    destruct (generate w (Val message) s) as [r2 t2]. cbn [fst snd] in *. subst r2.
    destruct r1; [now apply guarded_without_keys|now apply recover_without_keys]. }
  split; assumption.
Qed.

(** ** Answers of the documented shape *)

Lemma Get_field (props : list (jsstring * json)) (key : jsstring) (x : json) :
  lookup key props = Some x -> Get (Val (JObj props)) key = Normal (Val x).
Proof. intros H. cbn [Get]. now rewrite H. Qed.

Lemma Get_first (x : json) (rest : list json) :
  Get (Val (JArr (x :: rest))) (js "0") = Normal (Val x).
Proof. reflexivity. Qed.

(** X16.  A success answer of the shape the provider documents is read
    in full.  For OpenAI: the body is a JSON object whose [choices] is a
    list, the first of them an object whose [message] is an object with
    a [content]; the adapter returns that content.  For Gemini: an object
    whose [candidates] is a list, the first of them an object whose
    [content] is an object whose [parts] is a list, the first of them an
    object with a [text]; the adapter returns that text.  Whatever else
    the answer holds is ignored. *)
Theorem well_formed_answer_is_read
    (w : World) (prompt : JSValue) (s : Session)
    (response : HttpResponse) (props : list (jsstring * json)) (v : json) :
  ok response = true ->
  response_json response = Normal (JObj props) ->
  (fetch_answer w (List.length (calls s)) (openai_request w prompt) = Normal response ->
   forall first others message,
     lookup (js "choices") props = Some (JArr (JObj first :: others)) ->
     lookup (js "message") first = Some (JObj message) ->
     lookup (js "content") message = Some v ->
     fst (generateWithOpenAI w prompt s) = Normal (Val v)) /\
  (fetch_answer w (List.length (calls s)) (gemini_request w prompt) = Normal response ->
   forall first others content part parts,
     lookup (js "candidates") props = Some (JArr (JObj first :: others)) ->
     lookup (js "content") first = Some (JObj content) ->
     lookup (js "parts") content = Some (JArr (JObj part :: parts)) ->
     lookup (js "text") part = Some v ->
     fst (generateWithGemini w prompt s) = Normal (Val v)).
Proof.
  intros Hok Hjson. split.
  - intros Hfetch first others message H1 H2 H3.
    change (generateWithOpenAI w prompt s) with (adapter OpenAI w prompt s).
    rewrite adapter_equation. cbn [backend_reading]. rewrite Hfetch. cbn [and_then].
    unfold openai_read. rewrite Hok. cbn [negb]. rewrite Hjson. cbn [and_then].
    unfold openai_content.
    rewrite (Get_field props _ _ H1). cbn [and_then]. rewrite Get_first. cbn [and_then].
    rewrite (Get_field first _ _ H2). cbn [and_then].
    rewrite (Get_field message _ _ H3). reflexivity.
  - intros Hfetch first others content part parts H1 H2 H3 H4.
    change (generateWithGemini w prompt s) with (adapter Gemini w prompt s).
    rewrite adapter_equation. cbn [backend_reading]. rewrite Hfetch. cbn [and_then].
    unfold gemini_read. rewrite Hok. cbn [negb]. rewrite Hjson. cbn [and_then].
    unfold gemini_text.
    rewrite (Get_field props _ _ H1). cbn [and_then]. rewrite Get_first. cbn [and_then].
    rewrite (Get_field first _ _ H2). cbn [and_then].
    rewrite (Get_field content _ _ H3). cbn [and_then]. rewrite Get_first. cbn [and_then].
    rewrite (Get_field part _ _ H4). reflexivity.
Qed.

End Coverage.

(** * Examples

    The theorems at work on the sample worlds, and the inputs on which the
    behaviour is not the one first expected. *)

#[local] Existing Instance SampleEngine.

Lemma one_response_per_message_witness :
  socket start = Open /\
  client_leaves calm (List.length (calls start)) = false /\
  exists role content s',
    onMessage calm hi_cloudflare start = (Normal tt, s') /\
    outbox s' = outbox start ++ [response_frame (uuid_source calm (uuids start)) role content] /\
    verdict calm (List.length (calls start)) (data_text hi_cloudflare) role content.
Proof.
  split; [reflexivity|]. split; [reflexivity|].
  apply (one_response_per_message calm hi_cloudflare start); reflexivity.
Defined.

(** The answer that lacks nothing but the text. *)
Lemma headless_answers : answered_with OpenAI headless 0 hi (Val headless_answer).
Proof.
  exists (mkResponse 200
            (Normal (js "{" ++ quoted (js "choices") ++ js ":[{" ++ quoted (js "message")
                     ++ js ":{}}]}"))), headless_answer.
  repeat split; reflexivity.
Qed.

Lemma headless_lacks_text : only_text_missing OpenAI headless 0 hi.
Proof.
  exists (Val headless_answer). split; [exact headless_answers|].
  exists [js "choices"; js "0"; js "message"], (js "content").
  split; [reflexivity|].
  exists (Val (JObj [])). split; reflexivity.
Qed.

Lemma headless_fails : backend_failure OpenAI headless 0 hi.
Proof.
  right; right; right.
  destruct headless_lacks_text as (answer & Hanswer & Hmissing).
  exists answer. split; [exact Hanswer|]. right. exact Hmissing.
Qed.

(** C1 fails on a backend failure of the specification that the adapter
    does not notice: the provider answers with success and a body that
    lacks the text, and the response has the role [assistant]. *)
Lemma backend_failure_answered_as_success :
  backend_failure OpenAI headless 0 hi /\
  outbox (snd (onMessage headless hi_openai start)) =
    [response_frame (sample_ids 0) (js "assistant") Undefined] /\
  JSON_parse (response_frame (sample_ids 0) (js "assistant") Undefined) =
    Normal (JObj [(js "id", JStr (sample_ids 0)); (js "role", JStr (js "assistant"))]).
Proof.
  split; [exact headless_fails|].
  split; cbv -[SampleEngine]; reflexivity.
Qed.

Lemma assistant_response_carries_text_witness :
  JSON_parse (data_text hi_cloudflare) = Normal (parsed_hi (js "cloudflare")) /\
  backend_reading Cloudflare calm 0 hi = Normal (Val (JStr (js "hello"))) /\
  exists s',
    onMessage calm hi_cloudflare start = (Normal tt, s') /\
    outbox s' = [encode (mkOutbound (sample_ids 0) Assistant (js "hello"))] /\
    calls s' = [adapter_call Cloudflare calm hi].
Proof.
  split; [reflexivity|]. split; [reflexivity|].
  apply (assistant_response_carries_text calm hi_cloudflare start
           (parsed_hi (js "cloudflare")) Cloudflare (js "hi") (js "hello"));
    try reflexivity.
  discriminate.
Defined.

Lemma incomplete_payload_gets_error_witness :
  JSON_parse (data_text hi_nobody) = Normal parsed_nobody /\
  has_field parsed_nobody (js "agent") = false /\
  exists content s',
    onMessage calm hi_nobody start = (Normal tt, s') /\
    outbox s' = outbox start ++ [encode (mkOutbound (sample_ids 0) Failure content)] /\
    socket s' = Open /\
    calls s' = calls start /\
    forall next,
      client_leaves calm (List.length (calls start)) = false ->
      exists frame,
        outbox (run calm start [MessageEvent hi_nobody; MessageEvent next]) =
        outbox start ++ [encode (mkOutbound (sample_ids 0) Failure content); frame].
Proof.
  split; [reflexivity|]. split; [reflexivity|].
  apply (incomplete_payload_gets_error calm hi_nobody start parsed_nobody);
    [reflexivity|reflexivity|].
  left. reflexivity.
Defined.

Lemma unsupported_agent_is_reported_witness :
  JSON_parse (data_text hi_bogus) = Normal (parsed_hi (js "bogus")) /\
  incomplete (Val (parsed_hi (js "bogus"))) = Normal false /\
  generate calm (Val (parsed_hi (js "bogus"))) start =
    (Throw (Error (unsupported_agent (js "bogus"))), start) /\
  mentions (unsupported_agent (js "bogus")) (js "bogus") /\
  exists s',
    onMessage calm hi_bogus start = (Normal tt, s') /\
    outbox s' =
      outbox start ++ [encode (mkOutbound (sample_ids 0) Failure
                                 (failed_to_process (unsupported_agent (js "bogus"))))] /\
    mentions (failed_to_process (unsupported_agent (js "bogus"))) (js "bogus").
Proof.
  split; [reflexivity|].
  apply (unsupported_agent_is_reported calm hi_bogus start (parsed_hi (js "bogus"))
           (js "bogus") hi); try reflexivity.
  - discriminate.
  - intros []; discriminate.
Defined.

Lemma calm_openai_fails : noticed_failure OpenAI calm 0 hi.
Proof.
  right; left.
  exists (openai_request calm hi), (mkResponse 500 (Normal (js "upstream exploded"))).
  repeat split.
Defined.



(** The scenario of the specification: a 500 from OpenAI, then a valid
    message for Workers AI on the same connection. *)
Example error_then_answer :
  outbox (run calm start [MessageEvent hi_openai; MessageEvent hi_cloudflare]) =
  [encode (mkOutbound (sample_ids 0) Failure (failed_to_process openai_failure));
   encode (mkOutbound (sample_ids 1) Assistant (js "hello"))].
Proof. cbv -[SampleEngine]. reflexivity. Qed.


Lemma closed_write_is_dropped_when_send_discards_witness :
  send_when_closed departed = Discards /\
  socket (snd (onMessage departed hi_cloudflare start)) = Closed /\
  exists s',
    onMessage departed hi_cloudflare start = (Normal tt, s') /\
    unhandled s' = unhandled start /\
    (socket s' = Closed -> outbox s' = outbox start).
Proof.
  split; [reflexivity|]. split; [cbv -[SampleEngine]; reflexivity|].
  apply (closed_write_is_dropped_when_send_discards departed hi_cloudflare start).
  reflexivity.
Defined.

(** C6 fails where [send] raises on a closed connection: the write of
    the assistant response throws into the [catch] block, whose own write
    throws out of the listener. *)
Lemma closed_write_escapes_listener :
  client_leaves abrupt 0 = true /\
  fst (onMessage abrupt hi_cloudflare start) = Throw after_close /\
  unhandled (run abrupt start [MessageEvent hi_cloudflare]) = [after_close] /\
  ~ silently_dropped abrupt hi_cloudflare start.
Proof.
  split; [reflexivity|]. split; [cbv -[SampleEngine]; reflexivity|].
  split; [cbv -[SampleEngine]; reflexivity|].
  intros (s' & H & _). cbv -[SampleEngine] in H. discriminate H.
Qed.

Lemma other_openai_fails : non_success_status OpenAI (with_fetch calm other_body) 0 hi.
Proof.
  exists (openai_request calm hi), (mkResponse 500 (Normal (js "secret stack trace"))).
  repeat split.
Defined.

Lemma calm_openai_status : non_success_status OpenAI calm 0 hi.
Proof.
  exists (openai_request calm hi), (mkResponse 500 (Normal (js "upstream exploded"))).
  repeat split.
Defined.

Lemma provider_body_is_not_disclosed_witness :
  JSON_parse (data_text hi_openai) = Normal (parsed_hi (js "openai")) /\
  noticed_failure OpenAI calm 0 hi /\
  outbox (snd (onMessage calm hi_openai start)) =
    [encode (mkOutbound (sample_ids 0) Failure (failed_to_process openai_failure))] /\
  outbox (snd (onMessage (with_fetch calm other_body) hi_openai start)) =
    outbox (snd (onMessage calm hi_openai start)).
Proof.
  split; [reflexivity|]. split; [exact calm_openai_fails|].
  destruct (provider_body_is_not_disclosed calm hi_openai start
              (parsed_hi (js "openai")) OpenAI hi
              eq_refl eq_refl eq_refl eq_refl eq_refl eq_refl) as [H1 H2].
  split.
  - exact (H1 calm_openai_fails).
  - exact (H2 other_body calm_openai_status other_openai_fails).
Defined.

(** Two bodies, one frame; the bodies are in the logs. *)
Example two_bodies_one_frame :
  outbox (run (with_fetch calm other_body) start [MessageEvent hi_openai]) =
  outbox (run calm start [MessageEvent hi_openai]) /\
  console (run (with_fetch calm other_body) start [MessageEvent hi_openai]) <>
  console (run calm start [MessageEvent hi_openai]).
Proof. split; [cbv -[SampleEngine]; reflexivity|]. cbv -[SampleEngine]. discriminate. Qed.

Lemma garbled_is_not_json : body_not_json OpenAI garbled 0 hi.
Proof.
  exists (openai_request garbled hi), (mkResponse 200 (Normal (js "<html>"))).
  eexists. repeat split; reflexivity.
Defined.

Lemma hollow_answers : answered_with OpenAI hollow 0 hi (Val hollow_answer).
Proof.
  exists (mkResponse 200 (Normal (js "{" ++ quoted (js "choices") ++ js ":[]}"))),
         hollow_answer.
  repeat split; reflexivity.
Defined.

Lemma hollow_lacks_choice : missing_on_the_way OpenAI (Val hollow_answer).
Proof.
  exists [js "choices"], (js "0"), [js "message"; js "content"].
  split; [discriminate|]. split; [reflexivity|].
  exists (Val (JArr [])). split; reflexivity.
Defined.

Lemma fluent_answers : answered_with OpenAI fluent 0 hi (Val fluent_answer).
Proof.
  exists (mkResponse 200
            (Normal (js "{" ++ quoted (js "choices") ++ js ":[{" ++ quoted (js "message")
                     ++ js ":{" ++ quoted (js "content") ++ js ":" ++ quoted (js "hello")
                     ++ js "}}]}"))), fluent_answer.
  repeat split; reflexivity.
Defined.

(** A body that is not JSON and an answer without a first choice make
    the adapter fail with its own error; a complete answer is read. *)
Lemma adapter_reads_or_fails_witness :
  body_not_json OpenAI garbled 0 hi /\
  fst (adapter OpenAI garbled hi start) = Throw (Error (adapter_failure OpenAI)) /\
  answered_with OpenAI hollow 0 hi (Val hollow_answer) /\
  missing_on_the_way OpenAI (Val hollow_answer) /\
  fst (adapter OpenAI hollow hi start) = Throw (Error (adapter_failure OpenAI)) /\
  answered_with OpenAI fluent 0 hi (Val fluent_answer) /\
  fst (adapter OpenAI fluent hi start) = Normal (Val (JStr (js "hello"))).
Proof.
  split; [exact garbled_is_not_json|].
  split; [exact (proj1 (proj2 (proj2 (proj2
                   (adapter_reads_or_fails OpenAI garbled hi start))))
                   garbled_is_not_json)|].
  split; [exact hollow_answers|]. split; [exact hollow_lacks_choice|].
  split; [exact (proj1 (proj2 (proj2 (proj2 (proj2
                   (adapter_reads_or_fails OpenAI hollow hi start))))
                          (Val hollow_answer) hollow_answers) hollow_lacks_choice)|].
  split; [exact fluent_answers|].
  exact (proj1 (proj2 (adapter_reads_or_fails OpenAI fluent hi start))
           (Val fluent_answer) fluent_answers).
Defined.

(** C8 fails on the same answer as C5: the adapter returns the missing
    value. *)
Lemma missing_field_is_returned :
  missing_expected_field OpenAI headless 0 hi /\
  fst (adapter OpenAI headless hi start) = Normal Undefined /\
  ~ text_or_failure (fst (adapter OpenAI headless hi start)).
Proof.
  split; [|split; [cbv -[SampleEngine]; reflexivity|]].
  - exists (Val headless_answer). split; [exact headless_answers|]. right.
    exists [js "choices"; js "0"; js "message"], (js "content").
    split; [reflexivity|].
    exists (Val (JObj [])). split; reflexivity.
  - intros [(t & _ & H)|(e & H)]; cbv -[SampleEngine] in H; discriminate H.
Qed.

Lemma validation_is_truthiness_witness :
  JSON_parse (data_text list_openai) = Normal parsed_list /\
  incomplete (Val parsed_list) = Normal false /\
  calls (snd (generate calm (Val parsed_list) start)) =
    [adapter_call OpenAI calm (Val (JArr [one]))].
Proof.
  split; [reflexivity|].
  destruct (validation_is_truthiness calm list_openai start parsed_list
              (Val (JStr (js "openai"))) (Val (JArr [one]))
              eq_refl eq_refl eq_refl eq_refl) as (H1 & H2 & _).
  split; [exact H1|].
  exact (proj2 (H2 eq_refl eq_refl) OpenAI eq_refl).
Defined.

(** A list for prompt reaches OpenAI as it is; a zero for prompt goes
    nowhere. *)
Example list_prompt_is_forwarded :
  calls (run calm start [MessageEvent list_openai]) =
  [adapter_call OpenAI calm (Val (JArr [one]))].
Proof. cbv -[SampleEngine]. reflexivity. Qed.

Example zero_prompt_is_rejected :
  run calm start [MessageEvent (wire_message (quoted (js "openai")) (js "0"))] =
  written calm (js "error") (Val (JStr invalid_format)) start.
Proof. cbv -[SampleEngine]. reflexivity. Qed.

(** ** More examples *)

Lemma router_is_exact_witness :
  Get (Val parsed_list_agent) (js "agent") = Normal (Val (JArr [JStr (js "openai")])) /\
  generate calm (Val parsed_list_agent) start =
    (Throw (Error (unsupported_agent (js "openai"))), start).
Proof.
  split; [reflexivity|].
  refine (proj1 (proj2 (router_is_exact calm (Val parsed_list_agent)
                          (Val (JArr [JStr (js "openai")])) start eq_refl)) _).
  intros []; discriminate.
Defined.

Lemma only_send_escapes_witness :
  fst (onMessage abrupt hi_cloudflare start) = Throw after_close /\
  send_when_closed abrupt = Raises after_close /\
  socket (snd (onMessage abrupt hi_cloudflare start)) = Closed.
Proof.
  split; [cbv -[SampleEngine]; reflexivity|].
  apply (only_send_escapes abrupt hi_cloudflare start after_close).
  cbv -[SampleEngine]. reflexivity.
Defined.

Lemma missing_text_leaves_content_out_witness :
  backend_reading OpenAI headless 0 hi = Normal Undefined /\
  exists frame,
    outbox (snd (onMessage headless hi_openai start)) = outbox start ++ [frame] /\
    JSON_parse frame =
      Normal (JObj [(js "id", JStr (sample_ids 0)); (js "role", JStr (js "assistant"))]) /\
    console (snd (onMessage headless hi_openai start)) = console start.
Proof.
  split; [cbv -[SampleEngine]; reflexivity|].
  apply (missing_text_leaves_content_out headless hi_openai start
           (parsed_hi (js "openai")) OpenAI hi); reflexivity.
Defined.

Lemma non_object_payload_is_rejected_witness :
  JSON_parse (data_text bare_list) = Normal (JArr [one]) /\
  onMessage calm bare_list start =
    (Normal tt, written calm (js "error") (Val (JStr invalid_format)) start).
Proof.
  split; [reflexivity|].
  refine (proj2 (non_object_payload_is_rejected calm bare_list start (JArr [one])
                   eq_refl eq_refl _) _); intros; discriminate.
Defined.

Lemma binary_frame_is_rejected_witness :
  socket start = Open /\
  outbox (snd (onMessage calm three_bytes start)) =
    [encode (mkOutbound (sample_ids 0) Failure
               (failed_to_process (JSONSyntaxErrorMessage (js "[object ArrayBuffer]"))))].
Proof.
  split; [reflexivity|].
  exact (f_equal (fun r => outbox (snd r))
           (binary_frame_is_rejected calm [1; 2; 3]%N start eq_refl)).
Defined.

Lemma overlapping_messages_one_response_each_witness :
  exists answers,
    outbox (session (interleave calm (mkConversation start [])
                       [Arrives hi_openai; Arrives hi_nobody; Answers 0])) =
      outbox start ++ numbered_frames calm (uuids start) answers /\
    List.length answers +
    List.length (pending (interleave calm (mkConversation start [])
                            [Arrives hi_openai; Arrives hi_nobody; Answers 0])) =
      0 + 2 /\
    ((forall m n, uuid_source calm m = uuid_source calm n -> m = n) ->
     NoDup (numbered_frames calm (uuids start) answers)).
Proof.
  apply (overlapping_messages_one_response_each calm
           [Arrives hi_openai; Arrives hi_nobody; Answers 0]
           (mkConversation start [])).
  - intros ev [<-|[<-|[<-|[]]]]; discriminate.
  - reflexivity.
Defined.

(** Numbers as the sample engine reads and writes them. *)
Example sample_numbers :
  map (fun token => write_double (read_token (js token)))
      ["1e2"; "0.1"; "1e21"; "-0"; "1e400"; "123456789012345678901"; "1e-7"]%string =
  map js ["100"; "0.1"; "1e+21"; "0"; "Infinity"; "123456789012345680000"; "1e-7"]%string /\
  read_token (js "1e-400") = DZero false.
Proof. split; vm_compute; reflexivity. Qed.

(** A prompt that underflows to zero is falsy. *)
Example underflowing_prompt_is_rejected :
  outbox (run calm start
            [MessageEvent (wire_message (quoted (js "openai")) (js "1e-400"))]) =
  [encode (mkOutbound (sample_ids 0) Failure invalid_format)].
Proof. reflexivity. Qed.

Lemma run_is_one_by_one_witness :
  interleave calm (mkConversation start []) (one_by_one [hi_openai; hi_cloudflare]) =
  mkConversation (run calm start (map MessageEvent [hi_openai; hi_cloudflare])) [].
Proof.
  apply (run_is_one_by_one calm [hi_openai; hi_cloudflare]).
  intros k. reflexivity.
Defined.

(** A message that needs no backend is answered while an earlier one
    still waits for its own, and takes the first identifier; read one by
    one the same two messages are answered in the order they came. *)
Example later_message_is_answered_first :
  outbox (session (interleave calm (mkConversation start [])
                     [Arrives hi_openai; Arrives hi_nobody; Answers 0])) =
    [encode (mkOutbound (sample_ids 0) Failure invalid_format);
     encode (mkOutbound (sample_ids 1) Failure (failed_to_process openai_failure))] /\
  outbox (run calm start [MessageEvent hi_openai; MessageEvent hi_nobody]) =
    [encode (mkOutbound (sample_ids 0) Failure (failed_to_process openai_failure));
     encode (mkOutbound (sample_ids 1) Failure invalid_format)].
Proof. split; cbv -[SampleEngine]; reflexivity. Qed.

(** A listener that resumes after the client left writes nothing. *)
Example answer_after_leaving :
  outbox (session (interleave calm (mkConversation start [])
                     [Arrives hi_cloudflare; Leaves; Answers 0])) = [] /\
  pending (interleave calm (mkConversation start [])
             [Arrives hi_cloudflare; Leaves; Answers 0]) = [].
Proof. split; cbv -[SampleEngine]; reflexivity. Qed.

Lemma well_formed_answer_is_read_witness :
  response_json (mkResponse 200
    (Normal (js "{" ++ quoted (js "choices") ++ js ":[{" ++ quoted (js "message")
             ++ js ":{" ++ quoted (js "content") ++ js ":" ++ quoted (js "hello")
             ++ js "}}]}"))) =
    Normal fluent_answer /\
  fst (generateWithOpenAI fluent hi start) = Normal (Val (JStr (js "hello"))).
Proof.
  split; [reflexivity|].
  refine (proj1 (well_formed_answer_is_read fluent hi start
                   (mkResponse 200
                      (Normal (js "{" ++ quoted (js "choices") ++ js ":[{"
                               ++ quoted (js "message") ++ js ":{"
                               ++ quoted (js "content") ++ js ":" ++ quoted (js "hello")
                               ++ js "}}]}")))
                   [(js "choices",
                     JArr [JObj [(js "message",
                                  JObj [(js "content", JStr (js "hello"))])]])]
                   (JStr (js "hello")) eq_refl eq_refl)
            eq_refl
            [(js "message", JObj [(js "content", JStr (js "hello"))])] []
            [(js "content", JStr (js "hello"))] eq_refl eq_refl eq_refl).
Defined.


Lemma status_and_body_are_logged_witness :
  fetch_answer calm 0 (openai_request calm hi) =
    Normal (mkResponse 500 (Normal (js "upstream exploded"))) /\
  console (snd (onMessage calm hi_openai start)) =
    console start ++
    [ConsoleError (adapter_label OpenAI)
       (Some (Error (js "OpenAI API responded with status 500: upstream exploded")));
     ConsoleError (js "Error processing WebSocket message:")
       (Some (Error (adapter_failure OpenAI)))] /\
  outbox (snd (onMessage calm hi_openai start)) =
    outbox start ++ [encode (mkOutbound (sample_ids 0) Failure
                               (failed_to_process (adapter_failure OpenAI)))].
Proof.
  split; [reflexivity|].
  apply (status_and_body_are_logged calm hi_openai start (parsed_hi (js "openai"))
           OpenAI hi (openai_request calm hi)
           (mkResponse 500 (Normal (js "upstream exploded")))
           (js "upstream exploded")); reflexivity.
Defined.

Lemma empty_body_is_a_failure_witness :
  fetch_answer no_content 0 (openai_request no_content hi) =
    Normal (mkResponse 204 (Normal [])) /\
  fst (adapter OpenAI no_content hi start) = Throw (Error (adapter_failure OpenAI)).
Proof.
  split; [reflexivity|].
  apply (empty_body_is_a_failure OpenAI no_content hi start
           (openai_request no_content hi) (mkResponse 204 (Normal [])));
    reflexivity.
Defined.

Lemma upgrade_needs_exact_value_witness :
  lower_string (js "UPGRADE") = js "upgrade" /\
  ChatSession_fetch [(js "UPGRADE", js "WebSocket"); (js "Host", js "example.com")] =
    Plain 200 (js "Chat session active").
Proof.
  split; [reflexivity|].
  refine (proj2 (upgrade_needs_exact_value (js "UPGRADE") (js "WebSocket")
                   [(js "Host", js "example.com")] eq_refl eq_refl) _).
  discriminate.
Defined.

Lemma keys_stay_out_of_frames_and_logs_witness :
  outbox (snd (onMessage (with_keys calm (js "sk-other") (js "g-other")) hi_openai start)) =
    outbox (snd (onMessage calm hi_openai start)) /\
  console (snd (onMessage (with_keys calm (js "sk-other") (js "g-other")) hi_openai start)) =
    console (snd (onMessage calm hi_openai start)).
Proof.
  apply (keys_stay_out_of_frames_and_logs calm (js "sk-other") (js "g-other")
           hi_openai start).
  intros n r1 r2 _. reflexivity.
Defined.

(** An agent given as the list [[openai]] is shown as [openai] and refused
    all the same. *)
Example listed_agent_is_refused :
  outbox (run calm start [MessageEvent list_agent]) =
  [encode (mkOutbound (sample_ids 0) Failure
             (failed_to_process (unsupported_agent (js "openai"))))] /\
  calls (run calm start [MessageEvent list_agent]) = [].
Proof. split; cbv -[SampleEngine]; reflexivity. Qed.

(** Workers AI resolving to [null] is a failure of the adapter. *)
Lemma cloudflare_fails_iff_witness :
  AI_answer null_answer 0 cloudflare_model (cloudflare_input hi) = Normal (Val JNull) /\
  fst (generateWithCloudflare null_answer hi start) = Throw (Error cloudflare_failure).
Proof.
  split; [reflexivity|].
  apply (proj2 (proj1 (cloudflare_fails_iff null_answer hi start))).
  right; right; reflexivity.
Defined.

Lemma session_addressing_witness :
  js "room" <> [] /\
  session_name sample_ids (Some (js "room")) 0 = (js "room", 0).
Proof.
  assert (js "room" <> []) as Hroom by (intros H; cbv -[SampleEngine] in H; discriminate).
  split; [exact Hroom|].
  exact (proj1 (proj1 (session_addressing sample_ids 0) (js "room") 5 Hroom)).
Defined.

Lemma echo_answers_every_message_witness :
  socket start = Open /\
  exists frame,
    Echo.onMessage calm three_bytes start =
      (Normal tt,
       mkSession Open (outbox start ++ [frame]) (console start) (S (uuids start))
                 (calls start) (unhandled start)) /\
    JSON_parse frame =
      Normal (JObj [(js "id", JStr (uuid_source calm (uuids start)));
                    (js "role", JStr (js "assistant"));
                    (js "content", JStr (js "You said: " ++ data_text three_bytes))]).
Proof.
  split; [reflexivity|].
  exact (proj1 (echo_answers_every_message calm three_bytes start) eq_refl).
Defined.
